(** * supa-edge: the request-dispatch core and its middleware

    A shallow embedding of [packages/framework/src]: [compose.ts],
    [router.ts], [context.ts], [errors.ts], [app.ts], [supabase/env.ts]
    and the middleware [cors], [auth], [rateLimit], [logger] and
    [validator]; and of [mockEnv] of [packages/testing].

    Conventions of the embedding.
    - A settled promise and a synchronous completion are both an [Outcome]:
      [Resolved v] or [Rejected e].  A middleware awaits the promise that
      [next()] returns, so a chain runs sequentially.
    - A middleware is a resumption ([Frame]): code over the request's
      mutable state that either settles or calls [next()] and resumes with
      what the call settled to.  The dispatch cursor [index] of [compose]
      is a variable local to [composed]; a frame cannot reach it.
    - Platform objects ([Response], [Headers], [URL], [URLPattern]) are
      modelled by their data.  [Headers] objects that are shared by
      reference live in a heap; a [Response] owns its header set.
    - Where the code hands a value it does not control to a platform
      constructor, the constructor can throw and is modelled as such:
      [new Response] with the status of a thrown [HttpError]
      ([Response_init]) and [new URL] with the remainder of a request
      path ([URL_new]).  What the runtime decides there (how it reads a
      network-path reference, the text of its error messages) is a
      parameter, [Runtime], as is the matching of [URLPattern],
      [URLPatternAPI].  The response builders of [ctx.respond] are
      modelled for the statuses that [new Response] accepts; header name
      syntax and the normalisation of header values are not modelled.
    - What comes from outside a request is an argument of its model: the
      readings of the clock, [Deno.env], the answer of the Supabase auth
      server, the [safeParse] of a Zod schema, the entries of
      [url.searchParams].  Numbers are whole numbers.
    - [waitUntil], [serve], [defineRpc] and the Supabase mock of the
      testing package only hand over to services outside and are left
      out. *)

From stdpp Require Import base option list gmap strings pretty.
From Stdlib Require Import ZArith Ascii.

Open Scope string_scope.
Open Scope Z_scope.

(** ** Thrown values and outcomes *)

(** JSON values, as [JSON.stringify] accepts them. *)
#[local] Unset Elimination Schemes.
Inductive Json : Type :=
| JNull
| JBool (b : bool)
| JNum (n : Z)
| JStr (s : string)
| JArr (items : list Json)
| JObj (fields : list (string * Json)).
#[local] Set Elimination Schemes.

(** What a [throw] can carry: an [HttpError] ([errors.ts]), another
    [Error], or a value that is not an [Error] at all. *)
Inductive Thrown : Type :=
| HttpError (status : Z) (message : string) (details : option Json)
| Error (message : string)
| NonError (value : Json).

Inductive Outcome (A : Type) : Type :=
| Resolved (a : A)
| Rejected (e : Thrown).
Arguments Resolved {A} a.
Arguments Rejected {A} e.

(** What a settled promise resolved with, if it did. *)
Definition resolved {A : Type} (o : Outcome A) : option A :=
  match o with
  | Resolved a => Some a
  | Rejected _ => None
  end.

(** The error of [compose.ts], line 17. *)
Definition MultipleNextError : Thrown :=
  Error "next() called multiple times in the same middleware".

(** ** compose.ts *)

Module Compose.
Section Dispatch.
(** [Ctx] is the context handle passed to every middleware, [S] the
    mutable state the request's code works on, [R] the response type. *)
Context {Ctx S R : Type}.

(** A running middleware: it settles with [o] in state [s], or calls
    [next()] in state [s] and continues with [k] on the outcome of the
    call and the state the call left. *)
Inductive Frame : Type :=
| Return (o : Outcome R) (s : S)
| CallNext (s : S) (k : Outcome R -> S -> Frame).

Definition Middleware : Type := Ctx -> S -> Frame.

(** [Next] as given to [composed]: the terminal continuation. *)
Definition Next : Type := S -> Outcome R * S.

(** A continuation [() => dispatch(i + 1)] as the dispatcher hands it to
    a frame: it reads and writes the cursor [index]. *)
Definition Continuation : Type := Z -> S -> Outcome R * Z * S.

(** Runs a frame with [next] as its continuation, threading [index]. *)
Fixpoint run (next : Continuation) (f : Frame) (index : Z)
  : Outcome R * Z * S :=
  match f with
  | Return o s => (o, index, s)
  | CallNext s k =>
      let '(o, index', s') := next index s in
      run next (k o s') index'
  end.

(** The outcomes a frame receives from its successive [next()] calls. *)
Fixpoint next_results (next : Continuation) (f : Frame) (index : Z)
  : list (Outcome R) :=
  match f with
  | Return _ _ => []
  | CallNext s k =>
      let '(o, index', s') := next index s in
      o :: next_results next (k o s') index'
  end.

(** A continuation that never lowers the cursor. *)
Definition monotone (next : Continuation) : Prop :=
  forall index s, index <= (next index s).1.2.

Variable ctx : Ctx.
Variable finalNext : Next.

(** [dispatch(i)] where [rest] is [middlewares.slice(i)]. *)
Fixpoint dispatch_from (rest : list Middleware) (i : Z) : Continuation :=
  fun index s =>
    if i <=? index then (Rejected MultipleNextError, index, s)
    else
      let index := i in
      match rest with
      | m :: rest' => run (dispatch_from rest' (i + 1)) (m ctx s) index
      | [] => let '(o, s') := finalNext s in (o, index, s')
      end.

Definition dispatch (middlewares : list Middleware) (i : Z) : Continuation :=
  dispatch_from (drop (Z.to_nat i) middlewares) i.

(** [composed(ctx, finalNext)]: [let index = -1; return dispatch(0)]. *)
Definition composed (middlewares : list Middleware) : Next :=
  fun s =>
    let '(o, _, s') := dispatch middlewares 0 (-1) s in (o, s').

End Dispatch.
Arguments Frame : clear implicits.
Arguments Middleware : clear implicits.
Arguments Next : clear implicits.
Arguments Continuation : clear implicits.
End Compose.

(** ** Strings, as the code uses them *)

Definition upper_ascii (c : ascii) : ascii :=
  let n := nat_of_ascii c in
  if ((97 <=? n) && (n <=? 122))%nat then ascii_of_nat (n - 32) else c.

Definition lower_ascii (c : ascii) : ascii :=
  let n := nat_of_ascii c in
  if ((65 <=? n) && (n <=? 90))%nat then ascii_of_nat (n + 32) else c.

Fixpoint map_string (f : ascii -> ascii) (s : string) : string :=
  match s with
  | EmptyString => EmptyString
  | String c s' => String (f c) (map_string f s')
  end.

(** [s.toUpperCase()] on ASCII text (method names). *)
Definition toUpperCase : string -> string := map_string upper_ascii.
Definition toLowerCase : string -> string := map_string lower_ascii.

(** [s.slice(n)]. *)
Fixpoint slice (n : nat) (s : string) : string :=
  match n, s with
  | O, _ => s
  | Datatypes.S n', String _ s' => slice n' s'
  | Datatypes.S _, EmptyString => EmptyString
  end.

(** [Some rest] when [s = p ++ rest]. *)
Fixpoint strip_prefix (p s : string) : option string :=
  match p, s with
  | EmptyString, _ => Some s
  | String a p', String b s' =>
      if Ascii.eqb a b then strip_prefix p' s' else None
  | String _ _, EmptyString => None
  end.

(** [s.startsWith(p)]. *)
Definition starts_with (p s : string) : bool :=
  match strip_prefix p s with
  | Some _ => true
  | None => false
  end.

(** No ["/"] in [s]. *)
Fixpoint no_slash (s : string) : bool :=
  match s with
  | EmptyString => true
  | String c s' => negb (Ascii.eqb c "/") && no_slash s'
  end.

(** The longest prefix without ["/"], and what follows it. *)
Fixpoint span_segment (s : string) : string * string :=
  match s with
  | EmptyString => (EmptyString, EmptyString)
  | String c s' =>
      if Ascii.eqb c "/" then (EmptyString, s)
      else let '(seg, rest) := span_segment s' in (String c seg, rest)
  end.

(** [s] without its leading slashes. *)
Fixpoint drop_slashes (s : string) : string :=
  match s with
  | EmptyString => EmptyString
  | String c s' => if Ascii.eqb c "/" then drop_slashes s' else s
  end.

(** [x || y] on strings: the empty string is falsy. *)
Definition or_else (x y : string) : string :=
  if String.eqb x "" then y else x.

(** ** Platform objects *)

(** A parsed URL; [href] is its serialisation, which is what
    [request.url] holds. *)
Record URL : Type := {
  protocol : string;  (* "http:" *)
  host : string;
  pathname : string;
  search : string;
}.

Definition origin (u : URL) : string := protocol u ++ "//" ++ host u.
Definition href (u : URL) : string := origin u ++ pathname u ++ search u.

Definition set_pathname (p : string) (u : URL) : URL :=
  {| protocol := protocol u; host := host u;
     pathname := p; search := search u |}.

Definition set_search (q : string) (u : URL) : URL :=
  {| protocol := protocol u; host := host u;
     pathname := pathname u; search := q |}.

(** The parts of the runtime that are taken as they come: how the
    parser of [new URL] reads a network-path reference, and the messages
    of the errors that [new URL] and [new Response] throw:
    [URL_TypeError ref base] for the reference and the base given, and
    [Response_Error st] for the [RangeError] or [TypeError] that refuses
    the status [st].
    [URL_network_path ref] is the host (with its port) and the pathname
    of [new URL(ref, base)] for a reference [ref] that starts with two
    slashes and an [http] or [https] base, and [None] when the parser
    throws.  The parser reads the text after the slashes up to the next
    ["/"] as the authority and normalises the host it finds there; all
    that is used of it is that it throws when no host is there: when
    [ref] is made of slashes only. *)
Class Runtime : Type := {
  URL_network_path : string -> option (string * string);
  URL_host_missing :
    forall ref : string,
      starts_with "//" ref = true -> drop_slashes ref = "" ->
      URL_network_path ref = None;
  URL_TypeError : string -> string -> string;
  Response_Error : Z -> string;
}.

(** [new URL(path, base.origin)] for a reference [path] that starts with
    ["/"] and is the tail of a parsed pathname.  A reference that starts
    with ["//"] is a network-path reference (RFC 3986, 4.2): it names its
    own host, and [new URL] throws a [TypeError] when it cannot be
    parsed.  Any other reference replaces the path of the base. *)
Definition URL_new `{Runtime} (path : string) (base : URL) : Outcome URL :=
  if starts_with "//" path then
    match URL_network_path path with
    | None => Rejected (Error (URL_TypeError path (origin base)))
    | Some (h, p) =>
        Resolved {| protocol := protocol base; host := h;
                    pathname := p; search := "" |}
    end
  else
    Resolved {| protocol := protocol base; host := host base;
                pathname := path; search := "" |}.

(** The contents of a [Headers] object: names are case-insensitive and
    kept in lower case. *)
Abbreviation Headers := (gmap string string).

Inductive Body : Type :=
| NullBody
| Text (s : string)
| JsonText (j : Json).  (* the text [JSON.stringify(j)] *)

Record Response : Type := {
  status : Z;
  headers : Headers;
  body : Body;
}.

Record Request : Type := {
  req_method : string;
  req_url : URL;
  req_headers : Headers;
  body_text : string;                          (* what [.text()] resolves to *)
  body_json : Outcome Json;                    (* what [.json()] settles to *)
  body_form : Outcome (list (string * string)) (* what [.formData()] settles to *)
}.

(** A promise: its identity and what it settles to. *)
Record Promise (A : Type) : Type := {
  promise_id : nat;
  settled : Outcome A;
}.
Arguments promise_id {A} p.
Arguments settled {A} p.

Inductive BodyRead : Type := ReadJson | ReadText | ReadFormData.

#[global] Instance BodyRead_eq_dec : EqDecision BodyRead.
Proof. solve_decision. Defined.

(** ** The mutable state of one request *)

(** [heap] holds the [Headers] objects that are passed by reference, by
    allocation index.  [params], [responseHeaders], [_jsonCache] and
    [_textCache] are the mutable fields of the request's [ContextImpl].
    [reads] records every [request.clone().<reader>()]; the promise such a
    read returns is identified by its position in [reads].  [order] is the
    array the test middleware of [compose_test.ts] push to; [console] is
    what [console.error] received. *)
Record World : Type := {
  heap : list Headers;
  params : gmap string string;
  responseHeaders : nat;
  _jsonCache : option (Promise Json);
  _textCache : option (Promise string);
  reads : list BodyRead;
  order : list string;
  console : list Thrown;
}.

Definition set_heap (h : list Headers) (w : World) : World :=
  {| heap := h; params := params w; responseHeaders := responseHeaders w;
     _jsonCache := _jsonCache w; _textCache := _textCache w;
     reads := reads w; order := order w; console := console w |}.

Definition set_params (p : gmap string string) (w : World) : World :=
  {| heap := heap w; params := p; responseHeaders := responseHeaders w;
     _jsonCache := _jsonCache w; _textCache := _textCache w;
     reads := reads w; order := order w; console := console w |}.

Definition set_responseHeaders (l : nat) (w : World) : World :=
  {| heap := heap w; params := params w; responseHeaders := l;
     _jsonCache := _jsonCache w; _textCache := _textCache w;
     reads := reads w; order := order w; console := console w |}.

Definition set_jsonCache (c : option (Promise Json)) (w : World) : World :=
  {| heap := heap w; params := params w; responseHeaders := responseHeaders w;
     _jsonCache := c; _textCache := _textCache w;
     reads := reads w; order := order w; console := console w |}.

Definition set_textCache (c : option (Promise string)) (w : World) : World :=
  {| heap := heap w; params := params w; responseHeaders := responseHeaders w;
     _jsonCache := _jsonCache w; _textCache := c;
     reads := reads w; order := order w; console := console w |}.

Definition set_reads (r : list BodyRead) (w : World) : World :=
  {| heap := heap w; params := params w; responseHeaders := responseHeaders w;
     _jsonCache := _jsonCache w; _textCache := _textCache w;
     reads := r; order := order w; console := console w |}.

Definition set_order (o : list string) (w : World) : World :=
  {| heap := heap w; params := params w; responseHeaders := responseHeaders w;
     _jsonCache := _jsonCache w; _textCache := _textCache w;
     reads := reads w; order := o; console := console w |}.

Definition set_console (c : list Thrown) (w : World) : World :=
  {| heap := heap w; params := params w; responseHeaders := responseHeaders w;
     _jsonCache := _jsonCache w; _textCache := _textCache w;
     reads := reads w; order := order w; console := c |}.

(** How many underlying reads of kind [k] the request has seen. *)
Definition count_reads (k : BodyRead) (w : World) : nat :=
  length (filter (fun r => r = k) (reads w)).

(** The contents of the [Headers] object at [l]. *)
Definition Headers_get_all (l : nat) (w : World) : Headers :=
  default ∅ (heap w !! l).

(** [new Headers(init)]: a fresh object holding a copy of [init]. *)
Definition Headers_new (init : Headers) (w : World) : nat * World :=
  (length (heap w), set_heap (heap w ++ [init]) w).

(** [new Headers(other)] for an existing object [other]. *)
Definition Headers_copy (other : nat) (w : World) : nat * World :=
  Headers_new (Headers_get_all other w) w.

(** [h.set(name, value)] on the object at [l]. *)
Definition Headers_set (l : nat) (name value : string) (w : World) : World :=
  set_heap (<[l := <[toLowerCase name := value]> (Headers_get_all l w)]> (heap w)) w.

(** [new Response(body, { status, headers })] with a status that the
    platform accepts: the response takes a copy of the contents of the
    [Headers] object it is given. *)
Definition Response_new (b : Body) (st : Z) (hdrs : nat) (w : World) : Response :=
  {| status := st; headers := Headers_get_all hdrs w; body := b |}.

(** The conversion of a whole number to [unsigned short]. *)
Definition ToUint16 (n : Z) : Z := n mod 65536.

(** The statuses of a response without body. *)
Definition null_body_status (st : Z) : bool :=
  (st =? 101) || (st =? 204) || (st =? 205) || (st =? 304).

(** [new Response(body, { status, headers })] with any number as status:
    the status is converted to [unsigned short]; a [RangeError] is thrown
    when it is then outside 200..599 and not 101, and a [TypeError] when a
    body comes with a null body status. *)
Definition Response_init `{Runtime} (b : Body) (st : Z) (hdrs : nat)
    (w : World) : Outcome Response :=
  let st := ToUint16 st in
  if ((st <? 200) || (599 <? st)) && negb (st =? 101) then
    Rejected (Error (Response_Error st))
  else if match b with NullBody => false | _ => null_body_status st end then
    Rejected (Error (Response_Error st))
  else Resolved (Response_new b st hdrs w).

(** The statuses that [new Response] takes together with a body. *)
Definition body_status (st : Z) : bool :=
  (200 <=? st) && (st <=? 599) && negb (null_body_status st).

(** [request.clone().json()] and its siblings: one underlying read each,
    returning a new promise. *)
Definition Request_clone_json (r : Request) (w : World) : Promise Json * World :=
  ({| promise_id := length (reads w); settled := body_json r |},
   set_reads (reads w ++ [ReadJson]) w).

Definition Request_clone_text (r : Request) (w : World) : Promise string * World :=
  ({| promise_id := length (reads w); settled := Resolved (body_text r) |},
   set_reads (reads w ++ [ReadText]) w).

Definition Request_clone_formData (r : Request) (w : World)
  : Promise (list (string * string)) * World :=
  ({| promise_id := length (reads w); settled := body_form r |},
   set_reads (reads w ++ [ReadFormData]) w).

(** ** types.ts *)

(** The context handle: the [readonly] fields of [Context].  Its mutable
    fields are in the [World]. *)
Record Context : Type := {
  request : Request;
  method : string;
  url : URL;
}.

Definition Middleware : Type := Compose.Middleware Context World Response.
Definition Next : Type := Compose.Next World Response.
Definition Handler : Type := Context -> World -> Outcome Response * World.

(** [AppOptions]; an absent option is [None]. *)
Record AppOptions : Type := {
  basePath : option string;
  onError : option (Thrown -> Context -> World -> Outcome Response * World);
}.

(** ** errors.ts *)

(** [HttpError.toJSON()]: [details] is added only when it is not
    [undefined]. *)
Definition toJSON (st : Z) (message : string) (details : option Json) : Json :=
  let obj := [("error", JStr message); ("status", JNum st)] in
  match details with
  | Some d => JObj (obj ++ [("details", d)])
  | None => JObj obj
  end.

Definition notFound (message : string) : Thrown := HttpError 404 message None.

(** ** context.ts *)

Module ContextImpl.

(** [new ContextImpl(request, responseHeaders?)]. *)
Definition new (req : Request) (hdrs : option nat) (w : World)
  : Context * World :=
  let '(l, w) :=
    match hdrs with
    | Some l => (l, w)
    | None => Headers_new ∅ w
    end in
  ({| request := req; method := req_method req; url := req_url req |},
   set_textCache None
     (set_jsonCache None (set_responseHeaders l (set_params ∅ w)))).

(** [ctx.json()]. *)
Definition json (ctx : Context) (w : World) : Promise Json * World :=
  match _jsonCache w with
  | None =>
      let '(p, w) := Request_clone_json (request ctx) w in
      (p, set_jsonCache (Some p) w)
  | Some p => (p, w)
  end.

(** [ctx.text()]. *)
Definition text (ctx : Context) (w : World) : Promise string * World :=
  match _textCache w with
  | None =>
      let '(p, w) := Request_clone_text (request ctx) w in
      (p, set_textCache (Some p) w)
  | Some p => (p, w)
  end.

(** [ctx.formData()]: not cached. *)
Definition formData (ctx : Context) (w : World)
  : Promise (list (string * string)) * World :=
  Request_clone_formData (request ctx) w.

(** [ctx.respond.json(data, status = 200)]. *)
Definition respond_json (data : Json) (st : option Z) (w : World)
  : Response * World :=
  let '(hdrs, w) := Headers_copy (responseHeaders w) w in
  let w := Headers_set hdrs "Content-Type" "application/json" w in
  (Response_new (JsonText data) (default 200 st) hdrs w, w).

(** [ctx.respond.text(data, status = 200)]. *)
Definition respond_text (data : string) (st : option Z) (w : World)
  : Response * World :=
  let '(hdrs, w) := Headers_copy (responseHeaders w) w in
  let w := Headers_set hdrs "Content-Type" "text/plain; charset=utf-8" w in
  (Response_new (Text data) (default 200 st) hdrs w, w).

(** [ctx.respond.empty()]. *)
Definition respond_empty (w : World) : Response * World :=
  let '(hdrs, w) := Headers_copy (responseHeaders w) w in
  (Response_new NullBody 204 hdrs w, w).

(** [ctx.respond.redirect(url, status = 302)]. *)
Definition respond_redirect (to : string) (st : option Z) (w : World)
  : Response * World :=
  let '(hdrs, w) := Headers_copy (responseHeaders w) w in
  let w := Headers_set hdrs "Location" to w in
  (Response_new NullBody (default 302 st) hdrs w, w).

(** The four operations of [ctx.respond], as one call. *)
Inductive Builder : Type :=
| BuildJson (data : Json) (st : option Z)
| BuildText (data : string) (st : option Z)
| BuildEmpty
| BuildRedirect (to : string) (st : option Z).

Definition respond (b : Builder) : World -> Response * World :=
  match b with
  | BuildJson data st => respond_json data st
  | BuildText data st => respond_text data st
  | BuildEmpty => respond_empty
  | BuildRedirect to st => respond_redirect to st
  end.

(** The header each operation lays over the copy of [responseHeaders]:
    a content type, [Location] for a redirect, none for an empty
    response. *)
Definition overlay (b : Builder) (h : Headers) : Headers :=
  match b with
  | BuildJson _ _ => <["content-type" := "application/json"]> h
  | BuildText _ _ => <["content-type" := "text/plain; charset=utf-8"]> h
  | BuildEmpty => h
  | BuildRedirect to _ => <["location" := to]> h
  end.

Definition built_status (b : Builder) : Z :=
  match b with
  | BuildJson _ st | BuildText _ st => default 200 st
  | BuildEmpty => 204
  | BuildRedirect _ st => default 302 st
  end.

Definition built_body (b : Builder) : Body :=
  match b with
  | BuildJson data _ => JsonText data
  | BuildText data _ => Text data
  | BuildEmpty | BuildRedirect _ _ => NullBody
  end.

(** The body accessors, as a sequence of calls on one context. *)
Inductive Read : Type := CallJson | CallText | CallFormData.

(** The identity of the promise each call returned, in call order. *)
Fixpoint calls (ctx : Context) (ops : list Read) (w : World)
  : list (Read * nat) * World :=
  match ops with
  | [] => ([], w)
  | op :: ops' =>
      let '(id, w) :=
        match op with
        | CallJson => let '(p, w) := json ctx w in (promise_id p, w)
        | CallText => let '(p, w) := text ctx w in (promise_id p, w)
        | CallFormData => let '(p, w) := formData ctx w in (promise_id p, w)
        end in
      let '(ids, w) := calls ctx ops' w in
      ((op, id) :: ids, w)
  end.

End ContextImpl.

(** ** router.ts *)

(** The platform's [URLPattern], for patterns built from a pathname only:
    [URLPattern_exec p path] is [new URLPattern({ pathname: p }).exec(url)]
    for a [url] whose pathname is [path], reduced to
    [result.pathname.groups]; a group that did not take part in the match
    is [undefined], here [None]. *)
Class URLPatternAPI : Type :=
  URLPattern_exec : string -> string -> option (gmap string (option string)).

Module Router.

(** A route.  Its [pattern] stands for the [URLPattern] object of the
    source by the pathname text that object was built from,
    [basePath + path]; the object itself, with the pathname as the
    platform normalised it, is reached only through [URLPattern_exec].
    No statement is made about the text of [pattern.pathname]. *)
Record Route : Type := {
  method : string;
  pattern : string;
  middlewares : list Middleware;
  handler : Handler;
}.

Record Router : Type := {
  routes : list Route;
  basePath : string;
}.

(** [new Router(basePath = "")]. *)
Definition new (base : option string) : Router :=
  {| routes := []; basePath := default "" base |}.

(** [router.add(method, path, ...middlewares, handler)], for a
    [fullPath] that [new URLPattern] accepts. *)
Definition add (m path : string) (mws : list Middleware) (h : Handler)
    (r : Router) : Router :=
  let fullPath := basePath r ++ path in
  {| routes := routes r ++
       [{| method := toUpperCase m; pattern := fullPath;
           middlewares := mws; handler := h |}];
     basePath := basePath r |}.

Definition get := add "GET".
Definition post := add "POST".
Definition put := add "PUT".
Definition patch := add "PATCH".
Definition delete := add "DELETE".

(** The test that makes [match] skip a route ([continue]). *)
Definition skipped (upperMethod : string) (route : Route) : bool :=
  negb (String.eqb (method route) upperMethod)
  && negb (String.eqb (method route) "ALL")
  && negb (String.eqb upperMethod "HEAD" && String.eqb (method route) "GET").

(** The loop over [Object.entries(groups)]. *)
Definition extract_params (groups : gmap string (option string))
  : gmap string string :=
  foldl (fun acc '(key, value) =>
           match value with
           | Some v => <[key := v]> acc
           | None => acc
           end)
        ∅ (map_to_list groups).

Section Match.
Context `{URLPatternAPI}.

Fixpoint match_routes (rs : list Route) (upperMethod : string) (u : URL)
  : option (Route * gmap string string) :=
  match rs with
  | [] => None
  | route :: rs' =>
      if skipped upperMethod route then match_routes rs' upperMethod u
      else
        match URLPattern_exec (pattern route) (pathname u) with
        | Some groups => Some (route, extract_params groups)
        | None => match_routes rs' upperMethod u
        end
  end.

(** [router.match(method, url)]. *)
Definition match_ (r : Router) (m : string) (u : URL)
  : option (Route * gmap string string) :=
  let upperMethod := toUpperCase m in
  match_routes (routes r) upperMethod u.
End Match.

End Router.

(** A model of [URLPattern] pathnames for the patterns the routes of this
    repository use: ["/"]-separated segments that are literal text, a named
    group [:name] (one non-empty segment) or an optional named group
    [:name?] (the segment and its leading ["/"] may be absent). *)
Module SimplePattern.

Inductive Segment : Type :=
| Lit (s : string)
| Param (name : string)
| OptParam (name : string).

(** [s.split("/")]. *)
Fixpoint split_path (s : string) : list string :=
  match s with
  | EmptyString => [EmptyString]
  | String c s' =>
      if Ascii.eqb c "/" then EmptyString :: split_path s'
      else
        match split_path s' with
        | seg :: segs => String c seg :: segs
        | [] => [String c EmptyString]
        end
  end.

(** [Some n] when [s] is [n] followed by ["?"]. *)
Fixpoint strip_question (s : string) : option string :=
  match s with
  | EmptyString => None
  | String c EmptyString => if Ascii.eqb c "?" then Some EmptyString else None
  | String c s' => String c <$> strip_question s'
  end.

Definition parse_segment (s : string) : Segment :=
  match s with
  | String c name =>
      if Ascii.eqb c ":" then
        match strip_question name with
        | Some n => OptParam n
        | None => Param name
        end
      else Lit s
  | EmptyString => Lit s
  end.

Fixpoint match_segments (pat : list Segment) (path : list string)
  : option (gmap string (option string)) :=
  match pat with
  | [] => match path with [] => Some ∅ | _ :: _ => None end
  | Lit s :: pat' =>
      match path with
      | x :: path' => if String.eqb x s then match_segments pat' path' else None
      | [] => None
      end
  | Param n :: pat' =>
      match path with
      | x :: path' =>
          if String.eqb x "" then None
          else <[n := Some x]> <$> match_segments pat' path'
      | [] => None
      end
  | OptParam n :: pat' =>
      let taken :=
        match path with
        | x :: path' =>
            if String.eqb x "" then None
            else <[n := Some x]> <$> match_segments pat' path'
        | [] => None
        end in
      match taken with
      | Some g => Some g
      | None => <[n := None]> <$> match_segments pat' path
      end
  end.

Definition exec (p path : string) : option (gmap string (option string)) :=
  match_segments (parse_segment <$> split_path p) (split_path path).

End SimplePattern.

Definition simple_patterns : URLPatternAPI := SimplePattern.exec.

(** A runtime for the examples.  Of the network-path references it
    knows those whose authority is made of lower-case letters only, which
    the parser takes as the host as it is; what the parser makes of other
    authorities (upper case, ports, credentials, numbers, escapes) is
    outside this model, and the examples keep away from them.  The
    texts of its error messages are its own; no statement depends on
    them. *)
Module PlainRuntime.

Fixpoint letters (s : string) : bool :=
  match s with
  | EmptyString => true
  | String c s' =>
      let n := nat_of_ascii c in
      ((97 <=? n) && (n <=? 122))%nat && letters s'
  end.

Definition network_path (ref : string) : option (string * string) :=
  if String.eqb (drop_slashes ref) "" then None
  else
    let '(authority, rest) := span_segment (slice 2 ref) in
    if String.eqb authority "" then None
    else if letters authority then Some (authority, or_else rest "/")
    else None.

Definition host_missing (ref : string) :
  starts_with "//" ref = true -> drop_slashes ref = "" ->
  network_path ref = None.
Proof. intros _ Hempty. unfold network_path. rewrite Hempty. reflexivity. Defined.

End PlainRuntime.

Definition plain_runtime : Runtime :=
  {| URL_network_path := PlainRuntime.network_path;
     URL_host_missing := PlainRuntime.host_missing;
     URL_TypeError :=
       fun ref base => "Invalid URL: " ++ ref ++ " with base " ++ base;
     Response_Error := fun _ => "Invalid response status" |}.

(** ** app.ts *)

Module SupaEdgeApp.

Record App : Type := {
  globalMiddlewares : list Middleware;
  router : Router.Router;
  options : AppOptions;
}.

(** [new SupaEdgeApp(options = {})]. *)
Definition new (opts : AppOptions) : App :=
  let base := default "" (basePath opts) in
  {| globalMiddlewares := []; router := Router.new (Some base);
     options := opts |}.

(** [app.use(middleware)]. *)
Definition use (m : Middleware) (app : App) : App :=
  {| globalMiddlewares := globalMiddlewares app ++ [m];
     router := router app; options := options app |}.

Definition on_router (f : Router.Router -> Router.Router) (app : App) : App :=
  {| globalMiddlewares := globalMiddlewares app;
     router := f (router app); options := options app |}.

Definition get path mws h := on_router (Router.get path mws h).
Definition post path mws h := on_router (Router.post path mws h).
Definition put path mws h := on_router (Router.put path mws h).
Definition patch path mws h := on_router (Router.patch path mws h).
Definition delete path mws h := on_router (Router.delete path mws h).

(** [if (this.options.basePath)]: absent and empty are both falsy. *)
Definition truthy (s : option string) : bool :=
  match s with
  | Some b => negb (String.eqb b "")
  | None => false
  end.

(** [pathname.match(/^\/functions\/v1\/[^/]+/)]: the matched text. *)
Definition match_function_prefix (path : string) : option string :=
  match strip_prefix "/functions/v1/" path with
  | Some rest =>
      let '(name, _) := span_segment rest in
      if String.eqb name "" then None else Some ("/functions/v1/" ++ name)
  | None => None
  end.

(** [this.resolveUrl(request)]; the result stands for its [toString()]. *)
Definition resolveUrl `{Runtime} (opts : AppOptions) (req : Request)
  : Outcome URL :=
  if truthy (basePath opts) then Resolved (req_url req)
  else
    let u := req_url req in
    match match_function_prefix (pathname u) with
    | Some m =>
        let stripped := or_else (slice (String.length m) (pathname u)) "/" in
        match URL_new stripped u with
        | Resolved rewritten => Resolved (set_search (search u) rewritten)
        | Rejected e => Rejected e
        end
    | None => Resolved (req_url req)
    end.

(** The default branch of [handleError]: it throws when [new Response]
    refuses the status of the [HttpError]. *)
Definition defaultError `{Runtime} (error : Thrown) (w : World)
  : Outcome Response * World :=
  let '(hdrs, w) := Headers_copy (responseHeaders w) w in
  let w := Headers_set hdrs "Content-Type" "application/json" w in
  match error with
  | HttpError st message details =>
      (Response_init (JsonText (toJSON st message details)) st hdrs w, w)
  | _ =>
      let message :=
        match error with
        | Error m => m
        | _ => "Internal Server Error"
        end in
      let w := set_console (console w ++ [error]) w in
      (Response_init
         (JsonText (JObj [("error", JStr message); ("status", JNum 500)]))
         500 hdrs w, w)
  end.

(** [this.handleError(error, ctx)]. *)
Definition handleError `{Runtime} (opts : AppOptions) (error : Thrown)
    (ctx : Context) (w : World) : Outcome Response * World :=
  match onError opts with
  | Some hook =>
      match hook error ctx w with
      | (Resolved r, w') => (Resolved r, w')
      | (Rejected _, w') => defaultError error w'
      end
  | None => defaultError error w
  end.

(** The terminal continuation of an unmatched request. *)
Definition notFoundNext (req : Request) (ctx : Context) : Next :=
  fun w =>
    (Rejected (notFound ("No route matched: " ++ req_method req ++ " "
                         ++ pathname (url ctx))), w).

Section Handler.
Context `{URLPatternAPI} `{Runtime}.

(** The [try] block of [handler]. *)
Definition dispatchRequest (app : App) (req : Request) (ctx : Context)
    (w : World) : Outcome Response * World :=
  match resolveUrl (options app) req with
  | Rejected e => (Rejected e, w)
  | Resolved effectiveUrl =>
      match Router.match_ (router app) (req_method req) effectiveUrl with
      | None =>
          let allMiddleware := globalMiddlewares app in
          Compose.composed ctx (notFoundNext req ctx) allMiddleware w
      | Some (route, ps) =>
          let w := set_params ps w in
          let allMiddleware :=
            (globalMiddlewares app ++ Router.middlewares route)%list in
          Compose.composed ctx (Router.handler route ctx) allMiddleware w
      end
  end.

(** The [try]/[catch] of [handler]: the response, or what the error
    handling itself threw. *)
Definition respondTo (app : App) (req : Request) (ctx : Context)
    (w : World) : Outcome Response * World :=
  match dispatchRequest app req ctx w with
  | (Resolved response, w) => (Resolved response, w)
  | (Rejected error, w) => handleError (options app) error ctx w
  end.

(** [app.handler(request)]: what the promise it returns settles to.  For
    a HEAD request the response is built anew, without body, from the
    status of a response that exists, which [new Response] takes. *)
Definition handler (app : App) (req : Request) (w : World)
  : Outcome Response * World :=
  let '(ctx, w) := ContextImpl.new req None w in
  match respondTo app req ctx w with
  | (Resolved response, w) =>
      if String.eqb (req_method req) "HEAD" then
        (Resolved {| status := status response; headers := headers response;
                     body := NullBody |}, w)
      else (Resolved response, w)
  | (Rejected e, w) => (Rejected e, w)
  end.
End Handler.

End SupaEdgeApp.

(** ** Requests that differ in their method only *)




(** ** Middleware and handlers of the test suites *)

Module Suite.

(** [await next()] between two effects, returning what [next()] resolved
    to; a rejection of [next()] propagates and skips the second effect.
    This is the shape of [mw1] and [mw2] in [compose_test.ts] and of the
    header-setting middleware of [app_test.ts]. *)
Definition around {Ctx S R : Type} (before after : S -> S)
  : Compose.Middleware Ctx S R :=
  fun _ s =>
    Compose.CallNext (before s)
      (fun o s' =>
         match o with
         | Resolved res => Compose.Return (Resolved res) (after s')
         | Rejected e => Compose.Return (Rejected e) s'
         end).

(** [order.push(x)]. *)
Definition push (x : string) (w : World) : World :=
  set_order (order w ++ [x]) w.

(** [order.push(l + "-before"); const res = await next();
    order.push(l + "-after"); return res]. *)
Definition onion (l : string) : Middleware :=
  around (push (l ++ "-before")) (push (l ++ "-after")).

(** The two effects of [onion l]. *)
Definition effects (l : string) : (World -> World) * (World -> World) :=
  (push (l ++ "-before"), push (l ++ "-after")).

(** [() => { order.push("handler"); return Promise.resolve(res) }]. *)
Definition recording (res : Response) : Next :=
  fun w => (Resolved res, push "handler" w).

(** [await next(); return await next()]. *)
Definition twice : Middleware :=
  fun _ w =>
    Compose.CallNext w
      (fun o w' =>
         match o with
         | Resolved _ => Compose.CallNext w' (fun o' w'' => Compose.Return o' w'')
         | Rejected e => Compose.Return (Rejected e) w'
         end).

(** [ctx.responseHeaders.set(name, value); return await next()]. *)
Definition setHeader (name value : string) : Middleware :=
  around (fun w => Headers_set (responseHeaders w) name value w) id.

Definition ok : Response :=
  {| status := 200; headers := ∅; body := Text "ok" |}.

Definition localhost (path : string) : URL :=
  {| protocol := "http:"; host := "localhost"; pathname := path;
     search := "" |}.

(** [new Request("http://localhost" + path, { method })]. *)
Definition requestTo (m path : string) : Request :=
  {| req_method := m; req_url := localhost path; req_headers := ∅;
     body_text := ""; body_json := Rejected (Error "Unexpected end of JSON input");
     body_form := Resolved [] |}.

Definition emptyWorld : World :=
  {| heap := []; params := ∅; responseHeaders := 0%nat;
     _jsonCache := None; _textCache := None; reads := [];
     order := []; console := [] |}.

Definition noOptions : AppOptions := {| basePath := None; onError := None |}.


(** [() => new Response("ok")]. *)
Definition okHandler : Handler := fun _ w => (Resolved ok, w).

(** [(ctx) => ctx.respond.json(data)]. *)
Definition jsonHandler (data : Json) : Handler :=
  fun _ w => let '(r, w) := ContextImpl.respond_json data None w in (Resolved r, w).

(** [() => { throw e }]. *)
Definition throwing (e : Thrown) : Handler := fun _ w => (Rejected e, w).

(** [app.get("/fail", () => { throw new HttpError(st, message) })] on a
    new app. *)
Definition failing (st : Z) (message : string) : SupaEdgeApp.App :=
  SupaEdgeApp.get "/fail" [] (throwing (HttpError st message None))
    (SupaEdgeApp.new noOptions).

End Suite.

(** ** More middleware shapes *)

Module Shapes.

(** [(ctx) => { ...; return res }]: settles without calling [next()]. *)
Definition stopping {Ctx S R : Type} (out : S -> Outcome R) (effect : S -> S)
  : Compose.Middleware Ctx S R :=
  fun _ s => Compose.Return (out s) (effect s).

(** [try { return await next() } catch (e) { return fallback(e) }]. *)
Definition catching {Ctx S R : Type} (fallback : Thrown -> R)
  : Compose.Middleware Ctx S R :=
  fun _ s =>
    Compose.CallNext s
      (fun o s' =>
         match o with
         | Resolved res => Compose.Return (Resolved res) s'
         | Rejected e => Compose.Return (Resolved (fallback e)) s'
         end).

End Shapes.

(** ** A counter of terminal calls

    The state of a chain is paired with a counter that only the terminal
    continuation advances; a frame carries the counter along and cannot
    read or write it. *)

Module Counting.
Section Lift.
Context {Ctx S R : Type}.

Fixpoint lift (f : Compose.Frame S R) (n : nat) : Compose.Frame (S * nat) R :=
  match f with
  | Compose.Return o s => Compose.Return o (s, n)
  | Compose.CallNext s k =>
      Compose.CallNext (s, n) (fun o sn => lift (k o sn.1) sn.2)
  end.

Definition lift_middleware (m : Compose.Middleware Ctx S R)
  : Compose.Middleware Ctx (S * nat) R :=
  fun ctx sn => lift (m ctx sn.1) sn.2.

(** The terminal continuation, counting its calls. *)
Definition counted (finalNext : Compose.Next S R) : Compose.Next (S * nat) R :=
  fun sn => let '(o, s') := finalNext sn.1 in (o, (s', Datatypes.S sn.2)).

(** A continuation that advances the counter at most once, and only while
    taking the cursor to [limit] or beyond. *)
Definition once (limit : Z) (c : Compose.Continuation (S * nat) R) : Prop :=
  forall index s n,
    let '(_, index', (_, n')) := c index (s, n) in
    index <= index'
    /\ (limit <= index -> n' = n)
    /\ (n' = n \/ (n' = Datatypes.S n /\ limit <= index')).

End Lift.
End Counting.

(** A route is passed over when its method does not fit or its pattern
    does not match. *)
Definition passed_over `{URLPatternAPI} (upperMethod : string) (u : URL)
    (route : Router.Route) : Prop :=
  Router.skipped upperMethod route = true
  \/ URLPattern_exec (Router.pattern route) (pathname u) = None.

#[global] Instance Read_eq_dec : EqDecision ContextImpl.Read.
Proof. solve_decision. Defined.

(** ** supabase/env.ts *)

Module Env.

(** [Deno.env]: the variables that are set. *)
Abbreviation Environment := (gmap string string).

Record SupabaseEnv : Type := {
  url : string;
  anonKey : string;
  serviceRoleKey : option string;
}.

(** [!v] for a string that may be [undefined]. *)
Definition falsy (v : option string) : bool :=
  match v with
  | Some s => String.eqb s ""
  | None => true
  end.

(** [getSupabaseEnv()]. *)
Definition getSupabaseEnv (env : Environment) : Outcome SupabaseEnv :=
  let u := env !! "SUPABASE_URL" in
  if falsy u then Rejected (Error "Missing environment variable: SUPABASE_URL")
  else
    let k := env !! "SUPABASE_ANON_KEY" in
    if falsy k then
      Rejected (Error "Missing environment variable: SUPABASE_ANON_KEY")
    else
      let s := env !! "SUPABASE_SERVICE_ROLE_KEY" in
      Resolved {| url := default "" u; anonKey := default "" k;
                  serviceRoleKey := s |}.

End Env.

(** ** context.ts: the lazy Supabase clients *)

Module Clients.

(** A client of [@supabase/supabase-js], by what [createClient] was given:
    the URL, the key and, when options were passed, the [Authorization]
    header of [global.headers].  [client_id] is its identity. *)
Record Client : Type := {
  client_id : nat;
  client_url : string;
  client_key : string;
  client_authorization : option string;
}.

(** The private fields [_supabase] and [_supabaseAdmin] of a context, and
    the number of clients created so far. *)
Record State : Type := {
  _supabase : option Client;
  _supabaseAdmin : option Client;
  created : nat;
}.

Definition empty : State :=
  {| _supabase := None; _supabaseAdmin := None; created := 0 |}.

(** [createClient(url, key, options?)]. *)
Definition createClient (u key : string) (authorization : option string)
    (c : State) : Client * State :=
  ({| client_id := created c; client_url := u; client_key := key;
      client_authorization := authorization |},
   {| _supabase := _supabase c; _supabaseAdmin := _supabaseAdmin c;
      created := Datatypes.S (created c) |}).

(** [get supabase()], with the environment as it is at the access. *)
Definition supabase (env : Env.Environment) (ctx : Context) (c : State)
  : Outcome Client * State :=
  match _supabase c with
  | None =>
      match Env.getSupabaseEnv env with
      | Rejected e => (Rejected e, c)
      | Resolved e =>
          let authHeader :=
            default "" (req_headers (request ctx) !! "authorization") in
          let '(client, c) :=
            createClient (Env.url e) (Env.anonKey e) (Some authHeader) c in
          (Resolved client,
           {| _supabase := Some client; _supabaseAdmin := _supabaseAdmin c;
              created := created c |})
      end
  | Some client => (Resolved client, c)
  end.

(** [get supabaseAdmin()]. *)
Definition supabaseAdmin (env : Env.Environment) (c : State)
  : Outcome Client * State :=
  match _supabaseAdmin c with
  | None =>
      match Env.getSupabaseEnv env with
      | Rejected e => (Rejected e, c)
      | Resolved e =>
          if Env.falsy (Env.serviceRoleKey e) then
            (Rejected
               (Error "Missing environment variable: SUPABASE_SERVICE_ROLE_KEY"),
             c)
          else
            let '(client, c) :=
              createClient (Env.url e) (default "" (Env.serviceRoleKey e))
                           None c in
            (Resolved client,
             {| _supabase := _supabase c; _supabaseAdmin := Some client;
                created := created c |})
      end
  | Some client => (Resolved client, c)
  end.

(** An access to one of the two getters, with the environment it sees. *)
Inductive Access : Type :=
| GetSupabase (env : Env.Environment)
| GetSupabaseAdmin (env : Env.Environment).

Definition access (ctx : Context) (a : Access) (c : State)
  : Outcome Client * State :=
  match a with
  | GetSupabase env => supabase env ctx c
  | GetSupabaseAdmin env => supabaseAdmin env c
  end.

(** The state after a sequence of accesses. *)
Definition accesses (ctx : Context) (l : list Access) (c : State) : State :=
  foldl (fun c a => (access ctx a c).2) c l.

End Clients.

(** ** testing: mock_env.ts *)

Module MockEnv.

Definition defaults : gmap string string :=
  <["SUPABASE_URL" := "http://localhost:54321"]>
    (<["SUPABASE_ANON_KEY" := "test-anon-key"]>
       (<["SUPABASE_SERVICE_ROLE_KEY" := "test-service-role-key"]> ∅)).

(** One turn of the loop that saves the original and sets the value. *)
Definition stub (acc : Env.Environment * gmap string (option string))
    (entry : string * string)
  : Env.Environment * gmap string (option string) :=
  let '(env, originals) := acc in
  let '(key, value) := entry in
  (<[key := value]> env, <[key := env !! key]> originals).

(** One turn of the loop of the cleanup function. *)
Definition restore (env : Env.Environment) (entry : string * option string)
  : Env.Environment :=
  let '(key, original) := entry in
  match original with
  | None => delete key env
  | Some v => <[key := v]> env
  end.

(** [mockEnv(overrides)]: the environment it leaves, and the [originals]
    its cleanup function holds. *)
Definition mockEnv (overrides : gmap string string) (env : Env.Environment)
  : Env.Environment * gmap string (option string) :=
  let merged := overrides ∪ defaults in
  foldl stub (env, ∅) (map_to_list merged).

(** The cleanup function that [mockEnv] returns. *)
Definition cleanup (originals : gmap string (option string))
    (env : Env.Environment) : Env.Environment :=
  foldl restore env (map_to_list originals).

End MockEnv.

(** ** More of the platform *)

(** [String(n)] for a whole number [n] small enough to print without an
    exponent. *)
Definition String_of (n : Z) : string := pretty n.

(** [a.join(", ")]. *)
Definition join (l : list string) : string := String.concat ", " l.

(** [h.append(name, value)] on the object at [l]: a value that is already
    there is continued with [", "] and the new one, which is what [get]
    then returns. *)
Definition Headers_append (l : nat) (name value : string) (w : World) : World :=
  let h := Headers_get_all l w in
  let combined :=
    match h !! toLowerCase name with
    | Some old => (old ++ ", " ++ value)%string
    | None => value
    end in
  set_heap (<[l := <[toLowerCase name := combined]> h]> (heap w)) w.

(** ** middleware/rate_limit.ts *)

Module RateLimit.

Record RateLimitEntry : Type := {
  count : Z;
  resetAt : Z;
}.

(** [RateLimitOptions]; [max] and [windowMs] are whole numbers, and
    [keyFn] only reads the context. *)
Record RateLimitOptions : Type := {
  max : option Z;
  windowMs : option Z;
  keyFn : option (Context -> World -> string);
}.

(** The variables [store] and [lastCleanup] that the middleware closes
    over; they outlive the request. *)
Record Limiter : Type := {
  store : gmap string RateLimitEntry;
  lastCleanup : Z;
}.

(** The closure when [rateLimit(options)] returns; [now] is what
    [Date.now()] gave. *)
Definition new (now : Z) : Limiter := {| store := ∅; lastCleanup := now |}.

Definition getKey (options : RateLimitOptions) (ctx : Context) (w : World)
  : string :=
  match keyFn options with
  | Some f => f ctx w
  | None =>
      match req_headers (request ctx) !! "x-forwarded-for" with
      | Some v => v
      | None =>
          match req_headers (request ctx) !! "x-real-ip" with
          | Some v => v
          | None => "unknown"
          end
      end
  end.

(** [cleanup()], where [Date.now()] gives [now]. *)
Definition cleanup (windowMs now : Z) (l : Limiter) : Limiter :=
  if now - lastCleanup l <? windowMs then l
  else
    {| store := filter (fun kv => ~ resetAt kv.2 <= now) (store l);
       lastCleanup := now |}.

(** [Math.ceil(a / b)] for whole numbers, [b] positive. *)
Definition ceil_div (a b : Z) : Z := - ((- a) / b).

(** The middleware that [rateLimit(options)] returns, on a request during
    which [Date.now()] gives [now1] in [cleanup] and [now2] after it. *)
Definition rateLimit (options : RateLimitOptions) (now1 now2 : Z)
  : Compose.Middleware Context (World * Limiter) Response :=
  fun ctx s =>
    let max_ := default 100 (max options) in
    let windowMs_ := default 60000 (windowMs options) in
    let '(w, l) := s in
    let l := cleanup windowMs_ now1 l in
    let key := getKey options ctx w in
    let now := now2 in
    let entry :=
      match store l !! key with
      | Some e =>
          if resetAt e <=? now
          then {| count := 0; resetAt := now + windowMs_ |}
          else e
      | None => {| count := 0; resetAt := now + windowMs_ |}
      end in
    let entry := {| count := count entry + 1; resetAt := resetAt entry |} in
    let l := {| store := <[key := entry]> (store l);
                lastCleanup := lastCleanup l |} in
    let w := Headers_set (responseHeaders w) "X-RateLimit-Limit"
                         (String_of max_) w in
    let w := Headers_set (responseHeaders w) "X-RateLimit-Remaining"
                         (String_of (Z.max 0 (max_ - count entry))) w in
    let w := Headers_set (responseHeaders w) "X-RateLimit-Reset"
                         (String_of (ceil_div (resetAt entry) 1000)) w in
    if max_ <? count entry then
      Compose.Return (Rejected (HttpError 429 "Rate limit exceeded" None)) (w, l)
    else Compose.CallNext (w, l) (fun o s' => Compose.Return o s').

(** The entry that a request with key [key] counts on at [now], after its
    increment: the part of [rateLimit] between [store.get] and the
    headers. *)
Definition counted_entry (options : RateLimitOptions) (key : string) (now : Z)
    (l : Limiter) : RateLimitEntry :=
  let entry :=
    match store l !! key with
    | Some e =>
        if resetAt e <=? now
        then {| count := 0; resetAt := now + default 60000 (windowMs options) |}
        else e
    | None => {| count := 0; resetAt := now + default 60000 (windowMs options) |}
    end in
  {| count := count entry + 1; resetAt := resetAt entry |}.

(** One request as the limiter sees it: its context, the state of the
    request, and the two clock readings. *)
Record Hit : Type := {
  hit_ctx : Context;
  hit_world : World;
  hit_now1 : Z;
  hit_now2 : Z;
}.

Definition hit_key (options : RateLimitOptions) (h : Hit) : string :=
  getKey options (hit_ctx h) (hit_world h).

(** The state in which a frame first calls [next()] or settles. *)
Definition frame_state {S R : Type} (f : Compose.Frame S R) : S :=
  match f with
  | Compose.Return _ s => s
  | Compose.CallNext s _ => s
  end.

(** Whether a frame calls [next()]. *)
Definition passes {S R : Type} (f : Compose.Frame S R) : bool :=
  match f with
  | Compose.Return _ _ => false
  | Compose.CallNext _ _ => true
  end.

Definition hit (options : RateLimitOptions) (h : Hit) (l : Limiter)
  : Compose.Frame (World * Limiter) Response :=
  rateLimit options (hit_now1 h) (hit_now2 h) (hit_ctx h) (hit_world h, l).

(** The requests [hs] arrive in this order at one limiter; the middleware
    has no [await] before its [next()], so each one finds the closure as
    the one before left it.  The result tells which requests were passed
    on, and the closure at the end. *)
Fixpoint serve (options : RateLimitOptions) (hs : list Hit) (l : Limiter)
  : list bool * Limiter :=
  match hs with
  | [] => ([], l)
  | h :: hs' =>
      let f := hit options h l in
      let '(verdicts, l') := serve options hs' (frame_state f).2 in
      (passes f :: verdicts, l')
  end.

(** A clock that does not go backwards from [t] on. *)
Fixpoint chronological (t : Z) (hs : list Hit) : Prop :=
  match hs with
  | [] => True
  | h :: hs' =>
      t <= hit_now1 h /\ hit_now1 h <= hit_now2 h
      /\ chronological (hit_now2 h) hs'
  end.

(** Two closures hold the same entries among those that expire after [t]. *)
Definition same_live (t : Z) (l1 l2 : Limiter) : Prop :=
  forall k e, t < resetAt e -> store l1 !! k = Some e <-> store l2 !! k = Some e.

End RateLimit.

(** ** middleware/cors.ts *)

Module Cors.

(** The three forms of the [origin] option. *)
Inductive Origin : Type :=
| OriginString (s : string)
| OriginArray (allowed : list string)
| OriginFunction (f : string -> bool).

(** [CorsOptions]; an absent option is [None]. *)
Record CorsOptions : Type := {
  origin : option Origin;
  methods : option (list string);
  allowedHeaders : option (list string);
  exposedHeaders : option (list string);
  credentials : option bool;
  maxAge : option Z;
}.

Definition DEFAULT_METHODS : list string :=
  ["GET"; "POST"; "PUT"; "PATCH"; "DELETE"; "OPTIONS"].

Definition DEFAULT_HEADERS : list string :=
  ["Authorization"; "X-Client-Info"; "Content-Type"; "Accept"; "apikey"].

(** [resolveOrigin(requestOrigin)]; [requestOrigin] is [null] when the
    request has no [Origin] header, and an empty one is falsy. *)
Definition resolveOrigin (options : CorsOptions) (requestOrigin : option string)
  : string :=
  let origin_ := default (OriginString "*") (origin options) in
  let credentials_ := default false (credentials options) in
  match origin_ with
  | OriginFunction f =>
      match requestOrigin with
      | Some o => if negb (String.eqb o "") && f o then o else ""
      | None => ""
      end
  | OriginArray allowed =>
      match requestOrigin with
      | Some o =>
          if negb (String.eqb o "") && bool_decide (o ∈ allowed) then o else ""
      | None => ""
      end
  | OriginString s =>
      match requestOrigin with
      | Some o =>
          if String.eqb s "*" && credentials_ && negb (String.eqb o "")
          then o else s
      | None => s
      end
  end.

(** [setCorsHeaders(headers, requestOrigin)]. *)
Definition setCorsHeaders (options : CorsOptions) (hdrs : nat)
    (requestOrigin : option string) (w : World) : World :=
  let origin_ := default (OriginString "*") (origin options) in
  let exposedHeaders_ := default [] (exposedHeaders options) in
  let credentials_ := default false (credentials options) in
  let resolvedOrigin := resolveOrigin options requestOrigin in
  let w :=
    if negb (String.eqb resolvedOrigin "")
    then Headers_set hdrs "Access-Control-Allow-Origin" resolvedOrigin w
    else w in
  let w :=
    if credentials_
    then Headers_set hdrs "Access-Control-Allow-Credentials" "true" w
    else w in
  let w :=
    if (0 <? length exposedHeaders_)%nat
    then Headers_set hdrs "Access-Control-Expose-Headers" (join exposedHeaders_) w
    else w in
  let dynamic :=
    match origin_ with
    | OriginFunction _ | OriginArray _ => true
    | OriginString s => String.eqb s "*" && credentials_
    end in
  if dynamic then Headers_append hdrs "Vary" "Origin" w else w.

(** The middleware that [cors(options)] returns. *)
Definition cors (options : CorsOptions) : Middleware :=
  fun ctx w =>
    let methods_ := default DEFAULT_METHODS (methods options) in
    let allowedHeaders_ := default DEFAULT_HEADERS (allowedHeaders options) in
    let maxAge_ := default 86400 (maxAge options) in
    let requestOrigin := req_headers (request ctx) !! "origin" in
    let w := setCorsHeaders options (responseHeaders w) requestOrigin w in
    if String.eqb (method ctx) "OPTIONS" then
      let '(hdrs, w) := Headers_copy (responseHeaders w) w in
      let w := Headers_set hdrs "Access-Control-Allow-Methods" (join methods_) w in
      let w := Headers_set hdrs "Access-Control-Allow-Headers"
                           (join allowedHeaders_) w in
      let w := Headers_set hdrs "Access-Control-Max-Age" (String_of maxAge_) w in
      Compose.Return (Resolved (Response_new NullBody 204 hdrs w)) w
    else Compose.CallNext w (fun o w' => Compose.Return o w').

(** What [setCorsHeaders] leaves in a header set that held [h]. *)
Definition corsContents (options : CorsOptions) (requestOrigin : option string)
    (h : Headers) : Headers :=
  let resolvedOrigin := resolveOrigin options requestOrigin in
  let h :=
    if negb (String.eqb resolvedOrigin "")
    then <["access-control-allow-origin" := resolvedOrigin]> h else h in
  let h :=
    if default false (credentials options)
    then <["access-control-allow-credentials" := "true"]> h else h in
  let h :=
    if (0 <? length (default [] (exposedHeaders options)))%nat
    then <["access-control-expose-headers" :=
             join (default [] (exposedHeaders options))]> h
    else h in
  let dynamic :=
    match default (OriginString "*") (origin options) with
    | OriginFunction _ | OriginArray _ => true
    | OriginString s => String.eqb s "*" && default false (credentials options)
    end in
  if dynamic then
    <["vary" := match h !! "vary" with
                | Some old => (old ++ ", Origin")%string
                | None => "Origin"
                end]> h
  else h.

(** The headers that the preflight answer adds to its copy. *)
Definition preflightContents (options : CorsOptions) (h : Headers) : Headers :=
  <["access-control-max-age" := String_of (default 86400 (maxAge options))]>
    (<["access-control-allow-headers" :=
         join (default DEFAULT_HEADERS (allowedHeaders options))]>
       (<["access-control-allow-methods" :=
            join (default DEFAULT_METHODS (methods options))]> h)).

End Cors.

(** ** middleware/auth.ts *)

Module Auth.

Record AuthOptions : Type := {
  optional : option bool;
}.

(** The user that [supabase.auth.getUser] reports.  A field that is
    [undefined] is [None]. *)
Record AuthUser : Type := {
  id : string;
  email : option string;
  role : option string;
  user_metadata : option (gmap string Json);
}.

Record AuthError : Type := {
  message : option string;
}.

(** What [getUser] resolves to: [data.user] and [error], [null] being
    [None]. *)
Record UserResponse : Type := {
  data_user : option AuthUser;
  error : option AuthError;
}.

(** The state of a request that [auth] works on: the state of the
    context, its lazy clients, and [ctx.user] ([undefined] is [None]; a
    property whose value is [undefined] is left out of the object). *)
Record State : Type := {
  world : World;
  clients : Clients.State;
  user : option (gmap string Json);
}.

Definition set_clients (c : Clients.State) (s : State) : State :=
  {| world := world s; clients := c; user := user s |}.

Definition set_user (u : option (gmap string Json)) (s : State) : State :=
  {| world := world s; clients := clients s; user := u |}.

Definition set_field (k : string) (v : option string) (m : gmap string Json)
  : gmap string Json :=
  match v with
  | Some x => <[k := JStr x]> m
  | None => m
  end.

(** [{ id: u.id, email: u.email, role: u.role, ...u.user_metadata }]: a
    property of the spread replaces one of the same name before it. *)
Definition user_of (u : AuthUser) : gmap string Json :=
  default ∅ (user_metadata u)
  ∪ set_field "role" (role u)
      (set_field "email" (email u) (<["id" := JStr (id u)]> ∅)).

Section Middleware.
(** [Deno.env] as the request finds it, and the answer of the Supabase
    auth server to [getUser(token)] through a client. *)
Variable env : Env.Environment.
Variable getUser : Clients.Client -> string -> Outcome UserResponse.
Variable options : AuthOptions.

(** [return await next()]. *)
Definition pass (s : State) : Compose.Frame State Response :=
  Compose.CallNext s (fun o s' => Compose.Return o s').

(** The [catch] block. *)
Definition caught (err : Thrown) (s : State) : Compose.Frame State Response :=
  match err with
  | HttpError _ _ _ => Compose.Return (Rejected err) s
  | _ =>
      if default false (optional options) then pass s
      else Compose.Return
             (Rejected (HttpError 401 "Authentication failed" None)) s
  end.

(** The middleware that [auth(options)] returns. *)
Definition auth : Compose.Middleware Context State Response :=
  fun ctx s =>
    let optional_ := default false (optional options) in
    let authHeader := req_headers (request ctx) !! "authorization" in
    let bearer :=
      match authHeader with
      | Some h => if starts_with "Bearer " h then Some h else None
      | None => None
      end in
    match bearer with
    | None =>
        if optional_ then pass s
        else Compose.Return
               (Rejected (HttpError 401 "Missing or invalid Authorization header"
                                    None)) s
    | Some h =>
        let token := slice 7 h in
        (* try *)
        match Clients.supabase env ctx (clients s) with
        | (Rejected err, c) => caught err (set_clients c s)
        | (Resolved client, c) =>
            let s := set_clients c s in
            match getUser client token with
            | Rejected err => caught err s
            | Resolved r =>
                match error r, data_user r with
                | None, Some u =>
                    let s := set_user (Some (user_of u)) s in
                    (* after the try *)
                    pass s
                | e, _ =>
                    if optional_ then
                      Compose.CallNext s
                        (fun o s' =>
                           match o with
                           | Resolved res => Compose.Return (Resolved res) s'
                           | Rejected err => caught err s'
                           end)
                    else
                      caught
                        (HttpError 401
                           (default "Invalid token"
                              (e ≫= message)) None) s
                end
            end
        end
    end.

End Middleware.

End Auth.

(** ** middleware/logger.ts *)

Module Logger.

(** [console.log] and [console.error]. *)
Inductive Level : Type := ConsoleLog | ConsoleError.

(** The lines written to the console, oldest first. *)
Abbreviation Console := (list (Level * string)).

Section Logger.
(** The readings of [performance.now()], and [(stop - start).toFixed(1)]. *)
Variable Time : Type.
Variable toFixed1 : Time -> Time -> string.

(** The line that goes with the outcome of [next()]. *)
Definition line (ctx : Context) (start stop : Time) (o : Outcome Response)
  : Level * string :=
  let method_ := method ctx in
  let pathname_ := pathname (url ctx) in
  let elapsed := toFixed1 start stop in
  match o with
  | Rejected _ =>
      (ConsoleError,
       "[supa-edge] " ++ method_ ++ " " ++ pathname_ ++ " ERR ("
         ++ elapsed ++ "ms)")
  | Resolved response =>
      (ConsoleLog,
       "[supa-edge] " ++ method_ ++ " " ++ pathname_ ++ " "
         ++ String_of (status response) ++ " (" ++ elapsed ++ "ms)")
  end.

(** The middleware that [logger()] returns, on a request during which
    [performance.now()] gives [start] before [next()] and [stop] after
    it. *)
Definition logger (start stop : Time)
  : Compose.Middleware Context (World * Console) Response :=
  fun ctx s =>
    Compose.CallNext s
      (fun o s' =>
         match o with
         | Rejected err =>
             Compose.Return (Rejected err)
               (s'.1, (s'.2 ++ [line ctx start stop (Rejected err)])%list)
         | Resolved response =>
             Compose.Return (Resolved response)
               (s'.1, (s'.2 ++ [line ctx start stop (Resolved response)])%list)
         end).

End Logger.

End Logger.

(** ** middleware/validator.ts *)

(** What [schema.safeParse(input)] returns: the parsed data, or the
    issues of [error]. *)
Inductive SafeParse : Type :=
| Success (data : Json)
| Failure (issues : Json).

(** A value of [queryObj]: a string, or the array of the values of a key
    that occurs more than once. *)
Inductive QueryValue : Type :=
| Single (value : string)
| Many (values : list string).

(** [ValidatorOptions]: each schema by its [safeParse], on the kind of
    input [validator] gives it. *)
Module ValidatorOptions.
Record t : Type := {
  body : option (Json -> SafeParse);
  query : option (gmap string QueryValue -> SafeParse);
  params : option (gmap string string -> SafeParse);
}.
End ValidatorOptions.

(** [ctx.validated]. *)
Module ValidatedData.
Record t : Type := {
  body : option Json;
  query : option Json;
  params : option Json;
}.
End ValidatedData.

Module Validator.

(** The names that an object literal inherits from [Object.prototype]. *)
Definition Object_prototype : list string :=
  ["constructor"; "__defineGetter__"; "__defineSetter__"; "hasOwnProperty";
   "__lookupGetter__"; "__lookupSetter__"; "isPrototypeOf";
   "propertyIsEnumerable"; "toString"; "valueOf"; "__proto__";
   "toLocaleString"].

(** One turn of the loop over [ctx.url.searchParams], on the own
    properties of [queryObj].  For a key in [Object_prototype] the lookup
    [queryObj[key]] of the source finds the inherited property instead;
    such keys are outside this model. *)
Definition collect (queryObj : gmap string QueryValue) (entry : string * string)
  : gmap string QueryValue :=
  let '(key, value) := entry in
  match queryObj !! key with
  | None => <[key := Single value]> queryObj
  | Some (Many existing) => <[key := Many (existing ++ [value])]> queryObj
  | Some (Single existing) => <[key := Many [existing; value]]> queryObj
  end.

(** [queryObj] after the loop. *)
Definition queryObj (searchParams : list (string * string))
  : gmap string QueryValue :=
  foldl collect ∅ searchParams.

(** The values of [key] among the entries, in order. *)
Definition values_of (key : string) (searchParams : list (string * string))
  : list string :=
  (filter (fun entry => entry.1 = key) searchParams).*2.

(** [HttpError.badRequest(message, { issues })]. *)
Definition badRequest (message : string) (issues : Json) : Thrown :=
  HttpError 400 message (Some (JObj [("issues", issues)])).

Abbreviation State := (World * ValidatedData.t)%type.

Section Middleware.
(** The entries of [url.searchParams] for a URL with the query [search]. *)
Variable URLSearchParams : string -> list (string * string).
Variable options : ValidatorOptions.t.

(** The block "Validate body". *)
Definition validate_body (ctx : Context) (s : State) : Outcome unit * State :=
  let '(w, v) := s in
  match ValidatorOptions.body options with
  | Some schema =>
      let '(p, w) := ContextImpl.json ctx w in
      match settled p with
      | Rejected _ => (Rejected (HttpError 400 "Invalid JSON body" None), (w, v))
      | Resolved rawBody =>
          match schema rawBody with
          | Failure issues =>
              (Rejected (badRequest "Validation failed: body" issues), (w, v))
          | Success data =>
              (Resolved tt,
               (w, {| ValidatedData.body := Some data;
                      ValidatedData.query := ValidatedData.query v;
                      ValidatedData.params := ValidatedData.params v |}))
          end
      end
  | None => (Resolved tt, s)
  end.

(** The block "Validate query params". *)
Definition validate_query (ctx : Context) (s : State) : Outcome unit * State :=
  let '(w, v) := s in
  match ValidatorOptions.query options with
  | Some schema =>
      match schema (queryObj (URLSearchParams (search (url ctx)))) with
      | Failure issues =>
          (Rejected (badRequest "Validation failed: query" issues), s)
      | Success data =>
          (Resolved tt,
           (w, {| ValidatedData.body := ValidatedData.body v;
                  ValidatedData.query := Some data;
                  ValidatedData.params := ValidatedData.params v |}))
      end
  | None => (Resolved tt, s)
  end.

(** The block "Validate path params". *)
Definition validate_params (ctx : Context) (s : State) : Outcome unit * State :=
  let '(w, v) := s in
  match ValidatorOptions.params options with
  | Some schema =>
      match schema (params w) with
      | Failure issues =>
          (Rejected (badRequest "Validation failed: params" issues), s)
      | Success data =>
          (Resolved tt,
           (w, {| ValidatedData.body := ValidatedData.body v;
                  ValidatedData.query := ValidatedData.query v;
                  ValidatedData.params := Some data |}))
      end
  | None => (Resolved tt, s)
  end.

(** The middleware that [validator(options)] returns. *)
Definition validator : Compose.Middleware Context State Response :=
  fun ctx s =>
    match validate_body ctx s with
    | (Rejected e, s) => Compose.Return (Rejected e) s
    | (Resolved _, s) =>
        match validate_query ctx s with
        | (Rejected e, s) => Compose.Return (Rejected e) s
        | (Resolved _, s) =>
            match validate_params ctx s with
            | (Rejected e, s) => Compose.Return (Rejected e) s
            | (Resolved _, s) =>
                Compose.CallNext s (fun o s' => Compose.Return o s')
            end
        end
    end.

End Middleware.

End Validator.

(** ** examples/hello/index.ts *)

Module Hello.

(** [cors()]. *)
Definition noCorsOptions : Cors.CorsOptions :=
  {| Cors.origin := None; Cors.methods := None; Cors.allowedHeaders := None;
     Cors.exposedHeaders := None; Cors.credentials := None;
     Cors.maxAge := None |}.

(** [(ctx) => ctx.respond.json({ message: "Hello from supa-edge!" })]. *)
Definition root : Handler :=
  fun _ w =>
    let '(r, w) :=
      ContextImpl.respond_json
        (JObj [("message", JStr "Hello from supa-edge!")]) None w in
    (Resolved r, w).

(** [(ctx) => ctx.respond.json({ message: `Hello, ${ctx.params.name}!` })];
    a missing parameter prints as ["undefined"]. *)
Definition greet : Handler :=
  fun _ w =>
    let name := default "undefined" (params w !! "name") in
    let '(r, w) :=
      ContextImpl.respond_json
        (JObj [("message", JStr ("Hello, " ++ name ++ "!"))]) None w in
    (Resolved r, w).

Definition app : SupaEdgeApp.App :=
  SupaEdgeApp.get "/greet/:name" [] greet
    (SupaEdgeApp.get "/" [] root
       (SupaEdgeApp.use (Cors.cors noCorsOptions)
          (SupaEdgeApp.new Suite.noOptions))).

End Hello.

(** * Properties *)

(** ** The dispatcher *)

Module ComposeFacts.
Import Compose.

Section Cursor.
Context {Ctx S R : Type}.
Variable ctx : Ctx.
Variable finalNext : Compose.Next S R.

Abbreviation Frame := (Compose.Frame S R).
Abbreviation Continuation := (Compose.Continuation S R).
Abbreviation Middleware := (Compose.Middleware Ctx S R).

Lemma run_monotone (next : Continuation) (f : Frame) :
  monotone next -> forall index, index <= (run next f index).1.2.
Proof.
  intros Hnext. induction f as [o s | s k IH]; intros index; simpl.
  - lia.
  - specialize (Hnext index s).
    destruct (next index s) as [[o index'] s'] eqn:E; simpl in *.
    specialize (IH o s' index'). lia.
Qed.

(** The guard of [dispatch]: an index at or below the cursor is
    rejected, and nothing changes. *)
Lemma dispatch_from_guard (rest : list Middleware) i index s :
  i <= index ->
  dispatch_from ctx finalNext rest i index s
  = (Rejected MultipleNextError, index, s).
Proof.
  intros Hle. destruct rest; simpl;
    destruct (Z.leb_spec i index); (reflexivity || lia).
Qed.

(** After [dispatch(i)] the cursor is at least [i], and not below where
    it was. *)
Lemma dispatch_from_cursor (rest : list Middleware) :
  forall i index s,
    let index' := (dispatch_from ctx finalNext rest i index s).1.2 in
    index <= index' /\ i <= index'.
Proof.
  induction rest as [| m rest IH]; intros i index s; simpl.
  - destruct (Z.leb_spec i index); simpl; [lia |].
    destruct (finalNext s); simpl. lia.
  - destruct (Z.leb_spec i index); simpl; [lia |].
    assert (Hmono : monotone (dispatch_from ctx finalNext rest (i + 1))).
    { intros j t. apply IH. }
    pose proof (run_monotone _ (m ctx s) Hmono i). lia.
Qed.

Lemma dispatch_from_monotone (rest : list Middleware) i :
  monotone (dispatch_from ctx finalNext rest i).
Proof. intros index s. apply dispatch_from_cursor. Qed.

(** Once the cursor has reached [i], every [next()] that stands for
    [dispatch(i)] is rejected. *)
Lemma next_results_spent (rest : list Middleware) i (f : Frame) :
  forall index,
    i <= index ->
    Forall (fun o => o = Rejected MultipleNextError)
           (next_results (dispatch_from ctx finalNext rest i) f index).
Proof.
  induction f as [o s | s k IH]; intros index Hle; simpl.
  - constructor.
  - rewrite dispatch_from_guard by assumption.
    constructor; [reflexivity | apply IH; assumption].
Qed.

Lemma next_results_tail (rest : list Middleware) i (f : Frame) index :
  Forall (fun o => o = Rejected MultipleNextError)
         (tail (next_results (dispatch_from ctx finalNext rest i) f index)).
Proof.
  destruct f as [o s | s k]; simpl; [constructor |].
  pose proof (dispatch_from_cursor rest i index s) as Hc.
  destruct (dispatch_from ctx finalNext rest i index s) as [[o index'] s'];
    simpl in *.
  apply next_results_spent. lia.
Qed.

(** [dispatch] as [compose.ts] writes it, with [middlewares[i]]. *)
Lemma dispatch_unfold (middlewares : list Middleware) i index s :
  0 <= i ->
  dispatch ctx finalNext middlewares i index s
  = if i <=? index then (Rejected MultipleNextError, index, s)
    else match middlewares !! Z.to_nat i with
         | Some m => run (dispatch ctx finalNext middlewares (i + 1)) (m ctx s) i
         | None => let '(o, s') := finalNext s in (o, i, s')
         end.
Proof.
  intros Hi. unfold dispatch.
  replace (Z.to_nat (i + 1)) with (Datatypes.S (Z.to_nat i)) by lia.
  destruct (middlewares !! Z.to_nat i) as [m |] eqn:E.
  - rewrite (drop_S middlewares m (Z.to_nat i) E). reflexivity.
  - rewrite (drop_ge middlewares (Z.to_nat i))
      by (apply lookup_ge_None; exact E).
    reflexivity.
Qed.

(** A chain of [around] middleware runs the first effects in list order,
    the terminal continuation, and then the second effects in reverse
    list order; a rejection of the terminal continuation skips the second
    effects. *)
Lemma dispatch_from_around (pps : list ((S -> S) * (S -> S))) :
  forall i index s,
    index < i ->
    dispatch_from ctx finalNext (map (fun pp => Suite.around pp.1 pp.2) pps)
                  i index s
    = let s1 := foldl (fun t pp => pp.1 t) s pps in
      let '(o, s2) := finalNext s1 in
      (o, i + Z.of_nat (length pps),
       match o with
       | Resolved _ => foldr (fun pp t => pp.2 t) s2 pps
       | Rejected _ => s2
       end).
Proof.
  induction pps as [| [before after] pps IH]; intros i index s Hlt; simpl.
  - destruct (Z.leb_spec i index); [lia |].
    destruct (finalNext s) as [[r | e] s2]; f_equal; f_equal; lia.
  - destruct (Z.leb_spec i index); [lia |].
    rewrite IH by lia. simpl.
    destruct (finalNext (foldl (fun t pp => pp.1 t) (before s) pps))
      as [[r | e] s2]; simpl; f_equal; f_equal; lia.
Qed.

Lemma composed_around (pps : list ((S -> S) * (S -> S))) s :
  composed ctx finalNext (map (fun pp => Suite.around pp.1 pp.2) pps) s
  = let s1 := foldl (fun t pp => pp.1 t) s pps in
    let '(o, s2) := finalNext s1 in
    (o, match o with
        | Resolved _ => foldr (fun pp t => pp.2 t) s2 pps
        | Rejected _ => s2
        end).
Proof.
  unfold composed, dispatch. change (Z.to_nat 0) with 0%nat. rewrite drop_0.
  rewrite dispatch_from_around by lia. simpl.
  destruct (finalNext _) as [o s2]. reflexivity.
Qed.

End Cursor.
End ComposeFacts.

Module OnionFacts.
Import Compose Suite.

Lemma set_order_twice (a b : list string) (w : World) :
  set_order b (set_order a w) = set_order b w.
Proof. reflexivity. Qed.

Lemma set_order_same (w : World) : set_order (order w) w = w.
Proof. destruct w; reflexivity. Qed.

Lemma befores_pushed (labels : list string) :
  forall w,
    foldl (fun t (pp : (World -> World) * (World -> World)) => pp.1 t) w
          (map effects labels)
    = set_order (order w ++ map (fun l => (l ++ "-before")%string) labels)%list w.
Proof.
  induction labels as [| l labels IH]; intros w; simpl.
  - rewrite app_nil_r. symmetry. apply set_order_same.
  - rewrite IH. unfold push. simpl. rewrite <- app_assoc. reflexivity.
Qed.

Lemma afters_pushed (labels : list string) (w : World) :
  foldr (fun (pp : (World -> World) * (World -> World)) t => pp.2 t) w
        (map effects labels)
  = set_order (order w ++ rev (map (fun l => (l ++ "-after")%string) labels))%list w.
Proof.
  induction labels as [| l labels IH]; simpl.
  - rewrite app_nil_r. symmetry. apply set_order_same.
  - rewrite IH. unfold push. simpl. rewrite <- app_assoc. reflexivity.
Qed.

Lemma onion_chain (labels : list string) :
  map onion labels
  = map (fun pp : (World -> World) * (World -> World) => around pp.1 pp.2)
        (map effects labels).
Proof. rewrite map_map. reflexivity. Qed.

(** C1.  A chain of middleware that each record an event, await [next()]
    and record a second event, composed in registration order around a
    terminal handler that records ["handler"], records the first events in
    registration order, then the handler, then the second events in reverse
    registration order, and resolves to the handler's response.  For the
    chain [A, B] the recorded sequence is A-before, B-before, handler,
    B-after, A-after. *)
Theorem compose_onion_order (ctx : Context) (res : Response) (w : World) :
  (forall labels : list string,
      composed ctx (recording res) (map onion labels) w
      = (Resolved res,
         set_order
           (order w
            ++ map (fun l => (l ++ "-before")%string) labels
            ++ ["handler"]
            ++ rev (map (fun l => (l ++ "-after")%string) labels))%list w))
  /\ order (composed ctx (recording res) [onion "A"; onion "B"] w).2
     = (order w ++ ["A-before"; "B-before"; "handler"; "B-after"; "A-after"])%list.
Proof.
  assert (Hall : forall labels : list string,
      composed ctx (recording res) (map onion labels) w
      = (Resolved res,
         set_order
           (order w
            ++ map (fun l => (l ++ "-before")%string) labels
            ++ ["handler"]
            ++ rev (map (fun l => (l ++ "-after")%string) labels))%list w)).
  { intros labels. rewrite onion_chain, ComposeFacts.composed_around.
    cbv zeta. unfold recording. rewrite afters_pushed, befores_pushed.
    unfold push. simpl. rewrite <- !app_assoc. reflexivity. }
  split; [exact Hall |].
  change [onion "A"; onion "B"] with (map onion ["A"; "B"]).
  rewrite Hall. reflexivity.
Qed.

(** The test "throws on double next() call" of [compose_test.ts]. *)
Example compose_twice_rejects (ctx : Context) (w : World) :
  composed ctx (fun w => (Resolved ok, w)) [twice] w
  = (Rejected MultipleNextError, w).
Proof. reflexivity. Qed.

(** C2.  Whatever the chain, its length, the position [i] of a frame and
    the code [f] of the frame, every outcome the frame receives from
    [next()] after its first call is the rejection "next() called multiple
    times": the dispatcher rejects, without running anything, every index
    that is not strictly greater than the cursor. *)
Theorem second_next_rejected {Ctx S R : Type} (ctx : Ctx)
    (finalNext : Compose.Next S R)
    (middlewares : list (Compose.Middleware Ctx S R))
    (i : Z) (f : Compose.Frame S R) (index : Z) :
  Forall (fun o => o = Rejected MultipleNextError)
         (tail (next_results (dispatch ctx finalNext middlewares (i + 1))
                             f index))
  /\ (forall (j cursor : Z) (s : S),
        (j <=? cursor) = true ->
        dispatch ctx finalNext middlewares j cursor s
        = (Rejected MultipleNextError, cursor, s)).
Proof.
  split.
  - apply ComposeFacts.next_results_tail.
  - intros j cursor s Hle. apply ComposeFacts.dispatch_from_guard.
    apply Z.leb_le. exact Hle.
Qed.

(** The test "throws on double next() call" of [compose_test.ts]: the
    first [next()] of the frame resolves, the second is rejected. *)
Lemma second_next_rejected_witness :
  let ctx := {| request := Suite.requestTo "GET" "/"; method := "GET";
                url := Suite.localhost "/" |} in
  let fin : Compose.Next World Response := fun w => (Resolved ok, w) in
  next_results (dispatch ctx fin [twice] 1) (twice ctx emptyWorld) 0
  = [Resolved ok; Rejected MultipleNextError]
  /\ dispatch ctx fin [twice] 1 1 emptyWorld
     = (Rejected MultipleNextError, 1, emptyWorld).
Proof.
  intros ctx fin.
  destruct (second_next_rejected ctx fin [twice] 0 (twice ctx emptyWorld) 0)
    as [Htail Hguard].
  split.
  - reflexivity.
  - exact (Hguard 1 1 emptyWorld eq_refl).
Defined.

End OnionFacts.

(** ** The router *)

Module RouterFacts.
Import Router.

(** The loop that builds [params]. *)
Abbreviation keep := (fun (acc : gmap string string)
                          '((key, value) : string * option string) =>
                        match value with
                        | Some v => <[key := v]> acc
                        | None => acc
                        end).

Lemma foldl_keep_absent (l : list (string * option string)) (k : string) :
  forall acc,
    (forall v, (k, Some v) ∉ l) ->
    foldl keep acc l !! k = acc !! k.
Proof.
  induction l as [| [key value] l IH]; intros acc Hno; simpl; [reflexivity |].
  rewrite IH.
  - destruct value as [v |]; [| reflexivity].
    apply lookup_insert_ne. intros ->. apply (Hno v). left.
  - intros v Hin. apply (Hno v). right. exact Hin.
Qed.

Lemma foldl_keep_present (l : list (string * option string)) (k v : string) :
  forall acc,
    NoDup l.*1 ->
    (k, Some v) ∈ l ->
    foldl keep acc l !! k = Some v.
Proof.
  induction l as [| [key value] l IH]; intros acc Hnd Hin; simpl.
  - inversion Hin.
  - apply NoDup_cons in Hnd as [Hfresh Hnd].
    apply elem_of_cons in Hin as [Heq | Hin].
    + inversion Heq; subst key value.
      rewrite foldl_keep_absent.
      * apply lookup_insert_eq.
      * intros v' Hin'. apply Hfresh.
        apply list_elem_of_fmap. exists (k, Some v'). split; [reflexivity | exact Hin'].
    + apply IH; assumption.
Qed.

(** [params] has exactly the groups that captured a value. *)
Lemma extract_params_lookup (groups : gmap string (option string)) (k : string) :
  extract_params groups !! k = mjoin (groups !! k).
Proof.
  unfold extract_params.
  destruct (groups !! k) as [[v |] |] eqn:E; simpl.
  - apply foldl_keep_present.
    + apply NoDup_fst_map_to_list.
    + apply elem_of_map_to_list. exact E.
  - rewrite foldl_keep_absent; [apply lookup_empty |].
    intros v Hin. apply elem_of_map_to_list in Hin. congruence.
  - rewrite foldl_keep_absent; [apply lookup_empty |].
    intros v Hin. apply elem_of_map_to_list in Hin. congruence.
Qed.

Lemma skipped_false (upperMethod : string) (route : Route) :
  skipped upperMethod route = false
  <-> method route = upperMethod
      \/ method route = "ALL"
      \/ (upperMethod = "HEAD" /\ method route = "GET").
Proof.
  unfold skipped.
  destruct (String.eqb_spec (method route) upperMethod);
    destruct (String.eqb_spec (method route) "ALL");
    destruct (String.eqb_spec upperMethod "HEAD");
    destruct (String.eqb_spec (method route) "GET"); simpl;
    split; intros Hx; try reflexivity; try discriminate; try tauto;
    destruct Hx as [? | [? | [? ?]]]; congruence.
Qed.

Section Matching.
Context `{URLPatternAPI}.

(** What a successful match returns. *)
Lemma match_routes_Some (rs : list Route) (upperMethod : string) (u : URL)
    (route : Route) (ps : gmap string string) :
  match_routes rs upperMethod u = Some (route, ps) ->
  route ∈ rs
  /\ skipped upperMethod route = false
  /\ exists groups,
       URLPattern_exec (pattern route) (pathname u) = Some groups
       /\ ps = extract_params groups.
Proof.
  induction rs as [| r rs IH]; simpl; [discriminate |].
  destruct (skipped upperMethod r) eqn:Hs.
  - intros Hm. destruct (IH Hm) as (Hin & Hrest). split; [right; exact Hin | exact Hrest].
  - destruct (URLPattern_exec (pattern r) (pathname u)) as [groups |] eqn:He.
    + intros [= <- <-]. split; [left |]. split; [exact Hs |].
      exists groups. split; [exact He | reflexivity].
    + intros Hm. destruct (IH Hm) as (Hin & Hrest). split; [right; exact Hin | exact Hrest].
Qed.

(** Routes are tried in registration order. *)
Lemma match_routes_app (rs1 rs2 : list Route) (upperMethod : string) (u : URL) :
  match_routes (rs1 ++ rs2) upperMethod u
  = match match_routes rs1 upperMethod u with
    | Some found => Some found
    | None => match_routes rs2 upperMethod u
    end.
Proof.
  induction rs1 as [| r rs1 IH]; simpl; [reflexivity |].
  destruct (skipped upperMethod r); [exact IH |].
  destruct (URLPattern_exec (pattern r) (pathname u)); [reflexivity | exact IH].
Qed.




End Matching.
End RouterFacts.

(** ** URL resolution *)

Module ResolveFacts.
Import SupaEdgeApp.

Lemma append_cons (c : ascii) (p s : string) :
  (String c p ++ s)%string = String c (p ++ s).
Proof. reflexivity. Qed.

Lemma append_nil (s : string) : (EmptyString ++ s)%string = s.
Proof. reflexivity. Qed.

Lemma strip_prefix_app (p s : string) : strip_prefix p (p ++ s) = Some s.
Proof.
  induction p as [| c p IH]; [reflexivity |].
  rewrite append_cons. cbn [strip_prefix]. rewrite Ascii.eqb_refl. exact IH.
Qed.

Lemma slice_app (p s : string) : slice (String.length p) (p ++ s) = s.
Proof.
  induction p as [| c p IH]; [reflexivity |].
  rewrite append_cons. cbn [String.length slice]. exact IH.
Qed.

(** The segment [name] is what [[^/]+] matches when the text after it is
    empty or starts with ["/"]. *)
Lemma span_segment_app (name rest : string) :
  no_slash name = true ->
  rest = "" \/ starts_with "/" rest = true ->
  span_segment (name ++ rest) = (name, rest).
Proof.
  intros Hname Hrest. induction name as [| c name IH].
  - rewrite append_nil.
    destruct Hrest as [-> | Hs]; [reflexivity |].
    destruct rest as [| c rest]; [reflexivity |].
    assert (Hc : Ascii.eqb c "/" = true).
    { revert Hs. unfold starts_with. cbn [strip_prefix].
      rewrite Ascii.eqb_sym. destruct (Ascii.eqb c "/"); [reflexivity | discriminate]. }
    cbn [span_segment]. rewrite Hc. reflexivity.
  - cbn [no_slash] in Hname. apply andb_true_iff in Hname as [Hc Hname].
    apply negb_true_iff in Hc.
    rewrite append_cons. cbn [span_segment]. rewrite Hc, (IH Hname). reflexivity.
Qed.

Lemma match_function_prefix_app (name rest : string) :
  name <> "" ->
  no_slash name = true ->
  rest = "" \/ starts_with "/" rest = true ->
  match_function_prefix ("/functions/v1/" ++ name ++ rest)
  = Some ("/functions/v1/" ++ name)%string.
Proof.
  intros Hne Hname Hrest. unfold match_function_prefix.
  rewrite strip_prefix_app, (span_segment_app name rest Hname Hrest).
  destruct (String.eqb_spec name ""); [contradiction | reflexivity].
Qed.

Section Resolve.
Context `{Runtime}.

(** A reference that is not a network path keeps the base's origin and
    becomes the path. *)
Lemma URL_new_path (path : string) (base : URL) :
  starts_with "//" path = false ->
  URL_new path base
  = Resolved {| protocol := protocol base; host := host base;
                pathname := path; search := "" |}.
Proof. intros Hp. unfold URL_new. rewrite Hp. reflexivity. Qed.

Lemma or_else_slash_not_network (rest : string) :
  starts_with "//" rest = false ->
  starts_with "//" (or_else rest "/") = false.
Proof.
  intros Hr. unfold or_else. destruct (String.eqb rest ""); [reflexivity | exact Hr].
Qed.

(** C6, as amended.  Without a non-empty [basePath], a request path made of
    the prefix [/functions/v1/<name>] and a remainder that is empty or
    starts with a single ["/"] resolves to the same URL with the remainder
    (or ["/"] when it is empty) as its path, so it routes as that path.
    With a non-empty [basePath] the URL of the request is used as it is. *)
Theorem resolveUrl_function_prefix (opts : AppOptions) (req : Request) :
  (forall name rest : string,
      truthy (basePath opts) = false ->
      pathname (req_url req) = ("/functions/v1/" ++ name ++ rest)%string ->
      name <> "" ->
      no_slash name = true ->
      rest = "" \/ starts_with "/" rest = true ->
      starts_with "//" rest = false ->
      let stripped := set_pathname (or_else rest "/") (req_url req) in
      resolveUrl opts req = Resolved stripped
      /\ forall (P : URLPatternAPI) (r : Router.Router) (m : string),
           match resolveUrl opts req with
           | Resolved effectiveUrl => Router.match_ r m effectiveUrl
           | Rejected _ => None
           end = Router.match_ r m stripped)
  /\ (truthy (basePath opts) = true ->
      resolveUrl opts req = Resolved (req_url req)).
Proof.
  split.
  - intros name rest Hbase Hpath Hne Hname Hrest Hnet stripped.
    assert (Heq : resolveUrl opts req = Resolved stripped).
    { unfold resolveUrl. rewrite Hbase, Hpath.
      rewrite (match_function_prefix_app name rest Hne Hname Hrest).
      replace ("/functions/v1/" ++ name ++ rest)%string
        with (("/functions/v1/" ++ name) ++ rest)%string by reflexivity.
      rewrite slice_app.
      rewrite URL_new_path by (apply or_else_slash_not_network; exact Hnet).
      reflexivity. }
    split; [exact Heq |]. intros P r m. rewrite Heq. reflexivity.
  - intros Hbase. unfold resolveUrl. rewrite Hbase. reflexivity.
Qed.

End Resolve.

Lemma resolveUrl_function_prefix_witness :
  @resolveUrl plain_runtime Suite.noOptions
    (Suite.requestTo "GET" "/functions/v1/my-fn/todos")
  = Resolved (Suite.localhost "/todos")
  /\ @resolveUrl plain_runtime {| basePath := Some "/api"; onError := None |}
                (Suite.requestTo "GET" "/functions/v1/my-fn/todos")
     = Resolved (Suite.localhost "/functions/v1/my-fn/todos").
Proof.
  split.
  - exact (proj1 (proj1 (@resolveUrl_function_prefix plain_runtime Suite.noOptions
                    (Suite.requestTo "GET" "/functions/v1/my-fn/todos"))
                  "my-fn" "/todos" eq_refl eq_refl
                  (fun E => eq_ind "my-fn"
                      (fun s => match s with EmptyString => False | _ => True end)
                      I "" E)
                  eq_refl (or_intror eq_refl) eq_refl)).
  - exact (proj2 (@resolveUrl_function_prefix plain_runtime
                    {| basePath := Some "/api"; onError := None |}
                    (Suite.requestTo "GET" "/functions/v1/my-fn/todos"))
                 eq_refl).
Defined.

(** C6 as stated fails twice.  An explicitly configured empty [basePath]
    does not stop the stripping, whatever the runtime; and a remainder
    that starts with ["//"] is read by [new URL] as a network-path
    reference, so its first segment is taken for the host and is lost
    from the path. *)
Lemma resolveUrl_counterexample :
  (forall R : Runtime,
      ~ (forall opts req,
            is_Some (basePath opts) -> resolveUrl opts req = Resolved (req_url req)))
  /\ ~ (forall req name rest,
          pathname (req_url req) = ("/functions/v1/" ++ name ++ rest)%string ->
          name <> "" -> no_slash name = true ->
          rest = "" \/ starts_with "/" rest = true ->
          @resolveUrl plain_runtime Suite.noOptions req
          = Resolved (set_pathname (or_else rest "/") (req_url req))).
Proof.
  split.
  - intros R Hall.
    specialize (Hall {| basePath := Some ""; onError := None |}
                     (Suite.requestTo "GET" "/functions/v1/my-fn/todos")
                     (ex_intro _ "" eq_refl)).
    discriminate Hall.
  - intros Hall.
    specialize (Hall (Suite.requestTo "GET" "/functions/v1/my-fn//todos")
                     "my-fn" "//todos" eq_refl).
    assert (Hne : "my-fn" <> "") by discriminate.
    specialize (Hall Hne eq_refl (or_intror eq_refl)).
    discriminate Hall.
Qed.

(** What the second failure looks like: when the runtime takes ["todos"]
    for a host, the request for [/functions/v1/my-fn//todos] is routed as
    the path ["/"]. *)
Example resolveUrl_network_path :
  @resolveUrl plain_runtime Suite.noOptions
    (Suite.requestTo "GET" "/functions/v1/my-fn//todos")
  = Resolved {| protocol := "http:"; host := "todos"; pathname := "/";
                search := "" |}.
Proof. reflexivity. Qed.

End ResolveFacts.

(** ** The request context *)

Module ContextFacts.
Import ContextImpl.

Lemma Headers_get_all_fresh (x : Headers) (w : World) :
  Headers_get_all (length (heap w)) (set_heap (heap w ++ [x]) w) = x.
Proof.
  unfold Headers_get_all. simpl.
  rewrite (list_lookup_middle (heap w) [] x) by reflexivity. reflexivity.
Qed.

Lemma Headers_get_all_old (l : nat) (x : Headers) (w : World) :
  (l < length (heap w))%nat ->
  Headers_get_all l (set_heap (heap w ++ [x]) w) = Headers_get_all l w.
Proof.
  intros Hl. unfold Headers_get_all. simpl.
  rewrite lookup_app_l by exact Hl. reflexivity.
Qed.

(** [h.set] on a copy that was just made changes the copy only. *)
Lemma Headers_set_fresh (name value : string) (x : Headers) (w : World) :
  Headers_set (length (heap w)) name value (set_heap (heap w ++ [x]) w)
  = set_heap (heap w ++ [<[toLowerCase name := value]> x]) w.
Proof.
  unfold Headers_set. rewrite Headers_get_all_fresh. simpl.
  rewrite insert_app_r_alt by lia.
  replace (length (heap w) - length (heap w))%nat with 0%nat by lia.
  reflexivity.
Qed.

(** Every builder returns the overlay of the shared header set, and adds
    the copy it worked on to the heap; it writes nothing else. *)
Lemma respond_spec (b : Builder) (w : World) :
  respond b w
  = ({| status := built_status b;
        headers := overlay b (Headers_get_all (responseHeaders w) w);
        body := built_body b |},
     set_heap
       (heap w ++ [overlay b (Headers_get_all (responseHeaders w) w)]) w).
Proof.
  destruct b; simpl;
    unfold respond_json, respond_text, respond_empty, respond_redirect,
      Headers_copy, Headers_new;
    cbv zeta beta iota; rewrite ?Headers_set_fresh;
    unfold Response_new; rewrite Headers_get_all_fresh; reflexivity.
Qed.

(** C9.  Each of [respond.json], [respond.text], [respond.empty] and
    [respond.redirect] returns a response whose header set is the current
    contents of [responseHeaders] with the operation's own header laid over
    it (none for [empty]).  The only thing it writes is the fresh copy it
    worked on: the shared [responseHeaders] object, and every other object
    and field, are as before.  So a builder called again, after any other
    builder call, returns what it would have returned before it. *)
Theorem respond_copies_responseHeaders (b : Builder) (w : World) :
  headers (respond b w).1 = overlay b (Headers_get_all (responseHeaders w) w)
  /\ (respond b w).2 = set_heap (heap w ++ [headers (respond b w).1]) w
  /\ ((responseHeaders w < length (heap w))%nat ->
      Headers_get_all (responseHeaders (respond b w).2) (respond b w).2
      = Headers_get_all (responseHeaders w) w
      /\ (respond b (respond b w).2).1 = (respond b w).1
      /\ forall b2 : Builder, (respond b2 (respond b w).2).1 = (respond b2 w).1).
Proof.
  rewrite respond_spec. simpl. split; [reflexivity |]. split; [reflexivity |].
  intros Hvalid.
  assert (Hshared :
    Headers_get_all (responseHeaders w)
      (set_heap (heap w ++ [overlay b (Headers_get_all (responseHeaders w) w)]) w)
    = Headers_get_all (responseHeaders w) w)
    by (apply Headers_get_all_old; exact Hvalid).
  split; [exact Hshared |].
  assert (Hagain : forall b2 : Builder,
    (respond b2
       (set_heap (heap w ++ [overlay b (Headers_get_all (responseHeaders w) w)]) w)).1
    = (respond b2 w).1).
  { intros b2. rewrite !respond_spec. simpl. rewrite Hshared. reflexivity. }
  split; [rewrite Hagain, respond_spec; reflexivity | exact Hagain].
Qed.

Lemma respond_copies_responseHeaders_witness :
  let w := (Headers_set 0 "X-Custom" "middleware"
              (Headers_new ∅ Suite.emptyWorld).2) in
  (respond (BuildJson JNull None) w).1
  = {| status := 200;
       headers := <["content-type" := "application/json"]>
                    (<["x-custom" := "middleware"]> ∅);
       body := JsonText JNull |}
  /\ Headers_get_all 0 (respond (BuildJson JNull None) w).2
     = <["x-custom" := "middleware"]> ∅
  /\ (respond (BuildRedirect "/login" None) (respond (BuildJson JNull None) w).2).1
     = (respond (BuildRedirect "/login" None) w).1.
Proof.
  intros w.
  destruct (respond_copies_responseHeaders (BuildJson JNull None) w)
    as (Hh & Hw & Hrest).
  destruct (Hrest ltac:(simpl; lia)) as (Hshared & Hsame & Hother).
  split; [| split].
  - rewrite respond_spec. reflexivity.
  - exact Hshared.
  - exact (Hother (BuildRedirect "/login" None)).
Defined.

(** *** Body reads *)

(** The call at the head of the list is of another kind than the one
    looked for. *)
Ltac skip_call H := apply elem_of_cons in H as [[=] | H].

Lemma count_reads_snoc (k r : BodyRead) (w w1 : World) :
  reads w1 = (reads w ++ [r])%list ->
  count_reads k w1
  = (count_reads k w + if decide (r = k) then 1 else 0)%nat.
Proof.
  intros Hr. unfold count_reads. rewrite Hr, filter_app, length_app.
  rewrite filter_cons, filter_nil. destruct (decide (r = k)); reflexivity.
Qed.

(** With the JSON cache filled, no call reads the body as JSON again, and
    every [json()] returns the cached promise. *)
Lemma calls_json_cached (ctx : Context) (p : Promise Json) (ops : list Read) :
  forall w,
    _jsonCache w = Some p ->
    count_reads ReadJson (calls ctx ops w).2 = count_reads ReadJson w
    /\ forall i, (CallJson, i) ∈ (calls ctx ops w).1 -> i = promise_id p.
Proof.
  induction ops as [| op ops IH]; intros w Hc; simpl.
  - split; [reflexivity | intros i Hin; inversion Hin].
  - destruct op; simpl.
    + unfold json. rewrite Hc.
      destruct (IH w Hc) as [Hn Hi].
      destruct (calls ctx ops w) as [ids w'] eqn:E; simpl in *.
      split; [exact Hn |]. intros i Hin.
      apply elem_of_cons in Hin as [[= ->] | Hin]; [reflexivity | exact (Hi i Hin)].
    + unfold text. destruct (_textCache w) as [q |] eqn:Et.
      * destruct (IH w Hc) as [Hn Hi].
        destruct (calls ctx ops w) as [ids w'] eqn:E; simpl in *.
        split; [exact Hn |]. intros i Hin.
        skip_call Hin. exact (Hi i Hin).
      * unfold Request_clone_text.
        set (w1 := set_textCache _ _).
        destruct (IH w1 Hc) as [Hn Hi].
        destruct (calls ctx ops w1) as [ids w'] eqn:E; simpl in *.
        split.
        -- rewrite Hn, (count_reads_snoc ReadJson ReadText w w1 eq_refl).
           simpl. lia.
        -- intros i Hin.
           skip_call Hin. exact (Hi i Hin).
    + unfold formData, Request_clone_formData.
      set (w1 := set_reads _ _).
      destruct (IH w1 Hc) as [Hn Hi].
      destruct (calls ctx ops w1) as [ids w'] eqn:E; simpl in *.
      split.
      * rewrite Hn, (count_reads_snoc ReadJson ReadFormData w w1 eq_refl).
        simpl. lia.
      * intros i Hin.
        skip_call Hin. exact (Hi i Hin).
Qed.

Lemma calls_text_cached (ctx : Context) (q : Promise string) (ops : list Read) :
  forall w,
    _textCache w = Some q ->
    count_reads ReadText (calls ctx ops w).2 = count_reads ReadText w
    /\ forall i, (CallText, i) ∈ (calls ctx ops w).1 -> i = promise_id q.
Proof.
  induction ops as [| op ops IH]; intros w Hc; simpl.
  - split; [reflexivity | intros i Hin; inversion Hin].
  - destruct op; simpl.
    + unfold json. destruct (_jsonCache w) as [p |] eqn:Ej.
      * destruct (IH w Hc) as [Hn Hi].
        destruct (calls ctx ops w) as [ids w'] eqn:E; simpl in *.
        split; [exact Hn |]. intros i Hin.
        skip_call Hin. exact (Hi i Hin).
      * unfold Request_clone_json.
        set (w1 := set_jsonCache _ _).
        destruct (IH w1 Hc) as [Hn Hi].
        destruct (calls ctx ops w1) as [ids w'] eqn:E; simpl in *.
        split.
        -- rewrite Hn, (count_reads_snoc ReadText ReadJson w w1 eq_refl).
           simpl. lia.
        -- intros i Hin.
           skip_call Hin. exact (Hi i Hin).
    + unfold text. rewrite Hc.
      destruct (IH w Hc) as [Hn Hi].
      destruct (calls ctx ops w) as [ids w'] eqn:E; simpl in *.
      split; [exact Hn |]. intros i Hin.
      apply elem_of_cons in Hin as [[= ->] | Hin]; [reflexivity | exact (Hi i Hin)].
    + unfold formData, Request_clone_formData.
      set (w1 := set_reads _ _).
      destruct (IH w1 Hc) as [Hn Hi].
      destruct (calls ctx ops w1) as [ids w'] eqn:E; simpl in *.
      split.
      * rewrite Hn, (count_reads_snoc ReadText ReadFormData w w1 eq_refl).
        simpl. lia.
      * intros i Hin.
        skip_call Hin. exact (Hi i Hin).
Qed.

(** What one call does to the JSON side of the context. *)
Lemma json_step (ctx : Context) (w : World) :
  _jsonCache (json ctx w).2 = Some (json ctx w).1
  /\ (count_reads ReadJson (json ctx w).2 <= count_reads ReadJson w + 1)%nat.
Proof.
  unfold json. destruct (_jsonCache w) as [p |] eqn:E; simpl.
  - split; [exact E | lia].
  - split; [reflexivity |].
    erewrite (count_reads_snoc ReadJson ReadJson w) by reflexivity. simpl. lia.
Qed.

Lemma text_step (ctx : Context) (w : World) :
  _textCache (text ctx w).2 = Some (text ctx w).1
  /\ (count_reads ReadText (text ctx w).2 <= count_reads ReadText w + 1)%nat.
Proof.
  unfold text. destruct (_textCache w) as [q |] eqn:E; simpl.
  - split; [exact E | lia].
  - split; [reflexivity |].
    erewrite (count_reads_snoc ReadText ReadText w) by reflexivity. simpl. lia.
Qed.

Lemma text_keeps_json (ctx : Context) (w : World) :
  _jsonCache (text ctx w).2 = _jsonCache w
  /\ count_reads ReadJson (text ctx w).2 = count_reads ReadJson w.
Proof.
  unfold text. destruct (_textCache w); simpl; [split; reflexivity |].
  split; [reflexivity |].
  erewrite (count_reads_snoc ReadJson ReadText w) by reflexivity. simpl. lia.
Qed.

Lemma json_keeps_text (ctx : Context) (w : World) :
  _textCache (json ctx w).2 = _textCache w
  /\ count_reads ReadText (json ctx w).2 = count_reads ReadText w.
Proof.
  unfold json. destruct (_jsonCache w); simpl; [split; reflexivity |].
  split; [reflexivity |].
  erewrite (count_reads_snoc ReadText ReadJson w) by reflexivity. simpl. lia.
Qed.

Lemma formData_keeps (ctx : Context) (w : World) :
  count_reads ReadJson (formData ctx w).2 = count_reads ReadJson w
  /\ count_reads ReadText (formData ctx w).2 = count_reads ReadText w.
Proof.
  unfold formData, Request_clone_formData. simpl. split.
  - erewrite (count_reads_snoc ReadJson ReadFormData w) by reflexivity. simpl. lia.
  - erewrite (count_reads_snoc ReadText ReadFormData w) by reflexivity. simpl. lia.
Qed.

Lemma calls_cons (ctx : Context) (op : Read) (ops : list Read) (w : World) :
  calls ctx (op :: ops) w
  = let '(id, w1) :=
      match op with
      | CallJson => ((promise_id (json ctx w).1), (json ctx w).2)
      | CallText => ((promise_id (text ctx w).1), (text ctx w).2)
      | CallFormData => ((promise_id (formData ctx w).1), (formData ctx w).2)
      end in
    ((op, id) :: (calls ctx ops w1).1, (calls ctx ops w1).2).
Proof.
  cbn [calls].
  destruct op;
    [destruct (json ctx w) as [p w1]
    | destruct (text ctx w) as [p w1]
    | destruct (formData ctx w) as [p w1]];
    cbn [fst snd]; destruct (calls ctx ops w1); reflexivity.
Qed.

Lemma calls_json_once (ctx : Context) (ops : list Read) :
  forall w,
    (count_reads ReadJson (calls ctx ops w).2 <= count_reads ReadJson w + 1)%nat
    /\ forall i j, (CallJson, i) ∈ (calls ctx ops w).1 ->
                   (CallJson, j) ∈ (calls ctx ops w).1 -> i = j.
Proof.
  induction ops as [| op ops IH]; intros w.
  - simpl. split; [lia | intros i j Hin; inversion Hin].
  - rewrite calls_cons. destruct op; cbn [fst snd].
    + destruct (json_step ctx w) as [Hc Hn].
      destruct (calls_json_cached ctx _ ops _ Hc) as [Hn' Hi].
      split; [lia |]. intros i j Hin Hjn.
      assert (Hid : forall x, (CallJson, x) ∈
                      (CallJson, promise_id (json ctx w).1)
                        :: (calls ctx ops (json ctx w).2).1 ->
                    x = promise_id (json ctx w).1).
      { intros x Hx. apply elem_of_cons in Hx as [[= ->] | Hx];
          [reflexivity | exact (Hi x Hx)]. }
      rewrite (Hid i Hin), (Hid j Hjn). reflexivity.
    + destruct (text_keeps_json ctx w) as [_ Hn].
      destruct (IH (text ctx w).2) as [Hle Hi].
      split; [lia |]. intros i j Hin Hjn.
      skip_call Hin.
      skip_call Hjn.
      exact (Hi i j Hin Hjn).
    + destruct (formData_keeps ctx w) as [Hn _].
      destruct (IH (formData ctx w).2) as [Hle Hi].
      split; [lia |]. intros i j Hin Hjn.
      skip_call Hin.
      skip_call Hjn.
      exact (Hi i j Hin Hjn).
Qed.

Lemma calls_text_once (ctx : Context) (ops : list Read) :
  forall w,
    (count_reads ReadText (calls ctx ops w).2 <= count_reads ReadText w + 1)%nat
    /\ forall i j, (CallText, i) ∈ (calls ctx ops w).1 ->
                   (CallText, j) ∈ (calls ctx ops w).1 -> i = j.
Proof.
  induction ops as [| op ops IH]; intros w.
  - simpl. split; [lia | intros i j Hin; inversion Hin].
  - rewrite calls_cons. destruct op; cbn [fst snd].
    + destruct (json_keeps_text ctx w) as [_ Hn].
      destruct (IH (json ctx w).2) as [Hle Hi].
      split; [lia |]. intros i j Hin Hjn.
      skip_call Hin.
      skip_call Hjn.
      exact (Hi i j Hin Hjn).
    + destruct (text_step ctx w) as [Hc Hn].
      destruct (calls_text_cached ctx _ ops _ Hc) as [Hn' Hi].
      split; [lia |]. intros i j Hin Hjn.
      assert (Hid : forall x, (CallText, x) ∈
                      (CallText, promise_id (text ctx w).1)
                        :: (calls ctx ops (text ctx w).2).1 ->
                    x = promise_id (text ctx w).1).
      { intros x Hx. apply elem_of_cons in Hx as [[= ->] | Hx];
          [reflexivity | exact (Hi x Hx)]. }
      rewrite (Hid i Hin), (Hid j Hjn). reflexivity.
    + destruct (formData_keeps ctx w) as [_ Hn].
      destruct (IH (formData ctx w).2) as [Hle Hi].
      split; [lia |]. intros i j Hin Hjn.
      skip_call Hin.
      skip_call Hjn.
      exact (Hi i j Hin Hjn).
Qed.

(** The record of reads only grows. *)
Lemma calls_reads_grow (ctx : Context) (ops : list Read) :
  forall w, exists extra, reads (calls ctx ops w).2 = (reads w ++ extra)%list.
Proof.
  induction ops as [| op ops IH]; intros w.
  - exists []. simpl. rewrite app_nil_r. reflexivity.
  - rewrite calls_cons.
    assert (Hstep : forall w1 : World,
               (exists one, reads w1 = (reads w ++ one)%list) ->
               exists extra, reads (calls ctx ops w1).2 = (reads w ++ extra)%list).
    { intros w1 [one Hone]. destruct (IH w1) as [more Hmore].
      exists (one ++ more)%list. rewrite Hmore, Hone, app_assoc. reflexivity. }
    destruct op; cbn [fst snd]; apply Hstep.
    + unfold json. destruct (_jsonCache w).
      * exists []. simpl. rewrite app_nil_r. reflexivity.
      * exists [ReadJson]. reflexivity.
    + unfold text. destruct (_textCache w).
      * exists []. simpl. rewrite app_nil_r. reflexivity.
      * exists [ReadText]. reflexivity.
    + exists [ReadFormData]. reflexivity.
Qed.

(** A filled cache is never replaced. *)
Lemma calls_keep_json_cache (ctx : Context) (p : Promise Json) (ops : list Read) :
  forall w, _jsonCache w = Some p -> _jsonCache (calls ctx ops w).2 = Some p.
Proof.
  induction ops as [| op ops IH]; intros w Hc; [exact Hc |].
  rewrite calls_cons. destruct op; cbn [fst snd]; apply IH.
  - unfold json. rewrite Hc. exact Hc.
  - rewrite (proj1 (text_keeps_json ctx w)). exact Hc.
  - exact Hc.
Qed.

Lemma calls_keep_text_cache (ctx : Context) (q : Promise string) (ops : list Read) :
  forall w, _textCache w = Some q -> _textCache (calls ctx ops w).2 = Some q.
Proof.
  induction ops as [| op ops IH]; intros w Hc; [exact Hc |].
  rewrite calls_cons. destruct op; cbn [fst snd]; apply IH.
  - rewrite (proj1 (json_keeps_text ctx w)). exact Hc.
  - unfold text. rewrite Hc. exact Hc.
  - exact Hc.
Qed.

(** Without a call of [json()], nothing happens on the JSON side. *)
Lemma calls_without_json (ctx : Context) (ops : list Read) :
  forall w,
    CallJson ∉ ops ->
    _jsonCache (calls ctx ops w).2 = _jsonCache w
    /\ count_reads ReadJson (calls ctx ops w).2 = count_reads ReadJson w.
Proof.
  induction ops as [| op ops IH]; intros w Hno; [split; reflexivity |].
  apply not_elem_of_cons in Hno as [Hop Hno].
  rewrite calls_cons. destruct op; [contradiction | |]; cbn [fst snd].
  - destruct (IH (text ctx w).2 Hno) as [Hc Hn].
    destruct (text_keeps_json ctx w) as [Hc1 Hn1].
    rewrite Hc, Hn, Hc1, Hn1. split; reflexivity.
  - destruct (IH (formData ctx w).2 Hno) as [Hc Hn].
    rewrite Hc, Hn, (proj1 (formData_keeps ctx w)). split; reflexivity.
Qed.

Lemma calls_without_text (ctx : Context) (ops : list Read) :
  forall w,
    CallText ∉ ops ->
    _textCache (calls ctx ops w).2 = _textCache w
    /\ count_reads ReadText (calls ctx ops w).2 = count_reads ReadText w.
Proof.
  induction ops as [| op ops IH]; intros w Hno; [split; reflexivity |].
  apply not_elem_of_cons in Hno as [Hop Hno].
  rewrite calls_cons. destruct op; [| contradiction |]; cbn [fst snd].
  - destruct (IH (json ctx w).2 Hno) as [Hc Hn].
    destruct (json_keeps_text ctx w) as [Hc1 Hn1].
    rewrite Hc, Hn, Hc1, Hn1. split; reflexivity.
  - destruct (IH (formData ctx w).2 Hno) as [Hc Hn].
    rewrite Hc, Hn, (proj2 (formData_keeps ctx w)). split; reflexivity.
Qed.

(** One call of [json()]: with the cache empty it reads the body, through
    [request.clone().json()], and caches the promise of that read; with
    the cache filled it returns the cached promise and does nothing. *)
Lemma json_call (ctx : Context) (w : World) :
  json ctx w
  = match _jsonCache w with
    | Some p => (p, w)
    | None =>
        let p := {| promise_id := length (reads w);
                    settled := body_json (request ctx) |} in
        (p, set_jsonCache (Some p) (set_reads (reads w ++ [ReadJson]) w))
    end.
Proof. unfold json. destruct (_jsonCache w); reflexivity. Qed.

Lemma text_call (ctx : Context) (w : World) :
  text ctx w
  = match _textCache w with
    | Some q => (q, w)
    | None =>
        let q := {| promise_id := length (reads w);
                    settled := Resolved (body_text (request ctx)) |} in
        (q, set_textCache (Some q) (set_reads (reads w ++ [ReadText]) w))
    end.
Proof. unfold text. destruct (_textCache w); reflexivity. Qed.

(** From an empty cache, a sequence with a call of [json()] reads the
    body as JSON exactly once, at the first such call. *)
Lemma calls_json_first (ctx : Context) (ops : list Read) :
  forall w,
    _jsonCache w = None ->
    CallJson ∈ ops ->
    exists p : Promise Json,
      _jsonCache (calls ctx ops w).2 = Some p
      /\ settled p = body_json (request ctx)
      /\ (length (reads w) <= promise_id p)%nat
      /\ reads (calls ctx ops w).2 !! promise_id p = Some ReadJson
      /\ count_reads ReadJson (calls ctx ops w).2
         = (count_reads ReadJson w + 1)%nat
      /\ forall i, (CallJson, i) ∈ (calls ctx ops w).1 -> i = promise_id p.
Proof.
  induction ops as [| op ops IH]; intros w Hc Hin; [inversion Hin |].
  rewrite calls_cons. destruct op; cbn [fst snd].
  - rewrite json_call, Hc. cbv zeta. cbn [fst snd].
    set (p := {| promise_id := length (reads w);
                 settled := body_json (request ctx) |}).
    set (w1 := set_jsonCache (Some p) (set_reads (reads w ++ [ReadJson]) w)).
    assert (Hc1 : _jsonCache w1 = Some p) by reflexivity.
    destruct (calls_json_cached ctx p ops w1 Hc1) as [Hn Hi].
    destruct (calls_reads_grow ctx ops w1) as [extra Hextra].
    exists p. split; [apply calls_keep_json_cache; exact Hc1 |].
    split; [reflexivity |]. split; [reflexivity |]. split; [| split].
    + rewrite Hextra. change (reads w1) with (reads w ++ [ReadJson])%list.
      rewrite <- app_assoc. apply list_lookup_middle. reflexivity.
    + rewrite Hn. rewrite (count_reads_snoc ReadJson ReadJson w w1 eq_refl).
      reflexivity.
    + intros i Hi'. apply elem_of_cons in Hi' as [[= ->] | Hi'];
        [reflexivity | exact (Hi i Hi')].
  - apply elem_of_cons in Hin as [[=] | Hin].
    destruct (text_keeps_json ctx w) as [Hc1 Hn1].
    destruct (IH (text ctx w).2 (eq_trans Hc1 Hc) Hin)
      as (p & Hp & Hs & Hlen & Hread & Hn & Hi).
    exists p. split; [exact Hp |]. split; [exact Hs |]. split; [| split; [| split]].
    + etransitivity; [| exact Hlen]. rewrite text_call.
      destruct (_textCache w); cbn [snd]; [lia |].
      cbn [reads set_textCache set_reads]. rewrite length_app. lia.
    + exact Hread.
    + rewrite Hn, Hn1. reflexivity.
    + intros i Hi'. skip_call Hi'. exact (Hi i Hi').
  - apply elem_of_cons in Hin as [[=] | Hin].
    destruct (IH (formData ctx w).2 Hc Hin)
      as (p & Hp & Hs & Hlen & Hread & Hn & Hi).
    exists p. split; [exact Hp |]. split; [exact Hs |]. split; [| split; [| split]].
    + etransitivity; [| exact Hlen].
      unfold formData, Request_clone_formData. cbn [snd reads set_reads].
      rewrite length_app. lia.
    + exact Hread.
    + rewrite Hn, (proj1 (formData_keeps ctx w)). reflexivity.
    + intros i Hi'. skip_call Hi'. exact (Hi i Hi').
Qed.

Lemma calls_text_first (ctx : Context) (ops : list Read) :
  forall w,
    _textCache w = None ->
    CallText ∈ ops ->
    exists q : Promise string,
      _textCache (calls ctx ops w).2 = Some q
      /\ settled q = Resolved (body_text (request ctx))
      /\ (length (reads w) <= promise_id q)%nat
      /\ reads (calls ctx ops w).2 !! promise_id q = Some ReadText
      /\ count_reads ReadText (calls ctx ops w).2
         = (count_reads ReadText w + 1)%nat
      /\ forall i, (CallText, i) ∈ (calls ctx ops w).1 -> i = promise_id q.
Proof.
  induction ops as [| op ops IH]; intros w Hc Hin; [inversion Hin |].
  rewrite calls_cons. destruct op; cbn [fst snd].
  - apply elem_of_cons in Hin as [[=] | Hin].
    destruct (json_keeps_text ctx w) as [Hc1 Hn1].
    destruct (IH (json ctx w).2 (eq_trans Hc1 Hc) Hin)
      as (q & Hq & Hs & Hlen & Hread & Hn & Hi).
    exists q. split; [exact Hq |]. split; [exact Hs |]. split; [| split; [| split]].
    + etransitivity; [| exact Hlen]. rewrite json_call.
      destruct (_jsonCache w); cbn [snd]; [lia |].
      cbn [reads set_jsonCache set_reads]. rewrite length_app. lia.
    + exact Hread.
    + rewrite Hn, Hn1. reflexivity.
    + intros i Hi'. skip_call Hi'. exact (Hi i Hi').
  - rewrite text_call, Hc. cbv zeta. cbn [fst snd].
    set (q := {| promise_id := length (reads w);
                 settled := Resolved (body_text (request ctx)) |}).
    set (w1 := set_textCache (Some q) (set_reads (reads w ++ [ReadText]) w)).
    assert (Hc1 : _textCache w1 = Some q) by reflexivity.
    destruct (calls_text_cached ctx q ops w1 Hc1) as [Hn Hi].
    destruct (calls_reads_grow ctx ops w1) as [extra Hextra].
    exists q. split; [apply calls_keep_text_cache; exact Hc1 |].
    split; [reflexivity |]. split; [reflexivity |]. split; [| split].
    + rewrite Hextra. change (reads w1) with (reads w ++ [ReadText])%list.
      rewrite <- app_assoc. apply list_lookup_middle. reflexivity.
    + rewrite Hn. rewrite (count_reads_snoc ReadText ReadText w w1 eq_refl).
      reflexivity.
    + intros i Hi'. apply elem_of_cons in Hi' as [[= ->] | Hi'];
        [reflexivity | exact (Hi i Hi')].
  - apply elem_of_cons in Hin as [[=] | Hin].
    destruct (IH (formData ctx w).2 Hc Hin)
      as (q & Hq & Hs & Hlen & Hread & Hn & Hi).
    exists q. split; [exact Hq |]. split; [exact Hs |]. split; [| split; [| split]].
    + etransitivity; [| exact Hlen].
      unfold formData, Request_clone_formData. cbn [snd reads set_reads].
      rewrite length_app. lia.
    + exact Hread.
    + rewrite Hn, (proj2 (formData_keeps ctx w)). reflexivity.
    + intros i Hi'. skip_call Hi'. exact (Hi i Hi').
Qed.

(** C8.  One call of [json()] on a context whose JSON cache is empty
    reads the body, through [request.clone().json()], returns the promise
    of that read and stores it in the cache; on a context whose cache is
    filled it returns the cached promise and changes nothing, so a second
    call returns the promise of the first without a read.  Over any
    sequence of [json()], [text()] and [formData()] calls on one context:
    a filled cache stays as it is, no further read of that kind happens
    and every call returns the cached promise; from an empty cache, the
    body is read exactly once when the sequence has a call of [json()],
    and not at all otherwise, the cache ends up holding the promise of
    that one read, which settles as the body of the request does, and
    every call of [json()] in the sequence has returned that promise.
    The same holds for [text()] and the text cache. *)
Theorem body_read_cached_once (ctx : Context) (ops : list Read) (w : World) :
  let ids := (calls ctx ops w).1 in
  let w' := (calls ctx ops w).2 in
  json ctx w
  = match _jsonCache w with
    | Some p => (p, w)
    | None =>
        let p := {| promise_id := length (reads w);
                    settled := body_json (request ctx) |} in
        (p, set_jsonCache (Some p) (set_reads (reads w ++ [ReadJson]) w))
    end
  /\ text ctx w
     = match _textCache w with
       | Some q => (q, w)
       | None =>
           let q := {| promise_id := length (reads w);
                       settled := Resolved (body_text (request ctx)) |} in
           (q, set_textCache (Some q) (set_reads (reads w ++ [ReadText]) w))
       end
  /\ json ctx (json ctx w).2 = json ctx w
  /\ text ctx (text ctx w).2 = text ctx w
  /\ match _jsonCache w with
     | Some p =>
         _jsonCache w' = Some p
         /\ count_reads ReadJson w' = count_reads ReadJson w
         /\ forall i, (CallJson, i) ∈ ids -> i = promise_id p
     | None =>
         if decide (CallJson ∈ ops) then
           exists p : Promise Json,
             _jsonCache w' = Some p
             /\ settled p = body_json (request ctx)
             /\ (length (reads w) <= promise_id p)%nat
             /\ reads w' !! promise_id p = Some ReadJson
             /\ count_reads ReadJson w' = (count_reads ReadJson w + 1)%nat
             /\ forall i, (CallJson, i) ∈ ids -> i = promise_id p
         else
           _jsonCache w' = None
           /\ count_reads ReadJson w' = count_reads ReadJson w
     end
  /\ match _textCache w with
     | Some q =>
         _textCache w' = Some q
         /\ count_reads ReadText w' = count_reads ReadText w
         /\ forall i, (CallText, i) ∈ ids -> i = promise_id q
     | None =>
         if decide (CallText ∈ ops) then
           exists q : Promise string,
             _textCache w' = Some q
             /\ settled q = Resolved (body_text (request ctx))
             /\ (length (reads w) <= promise_id q)%nat
             /\ reads w' !! promise_id q = Some ReadText
             /\ count_reads ReadText w' = (count_reads ReadText w + 1)%nat
             /\ forall i, (CallText, i) ∈ ids -> i = promise_id q
         else
           _textCache w' = None
           /\ count_reads ReadText w' = count_reads ReadText w
     end
  /\ (count_reads ReadJson w' <= count_reads ReadJson w + 1)%nat
  /\ (count_reads ReadText w' <= count_reads ReadText w + 1)%nat
  /\ (forall i j, (CallJson, i) ∈ ids -> (CallJson, j) ∈ ids -> i = j)
  /\ (forall i j, (CallText, i) ∈ ids -> (CallText, j) ∈ ids -> i = j).
Proof.
  intros ids w'. subst ids w'.
  destruct (calls_json_once ctx ops w) as [Hj Hji].
  destruct (calls_text_once ctx ops w) as [Ht Hti].
  split; [apply json_call |]. split; [apply text_call |].
  split; [| split; [| split; [| split]]].
  - unfold json at 1. rewrite (proj1 (json_step ctx w)).
    destruct (json ctx w); reflexivity.
  - unfold text at 1. rewrite (proj1 (text_step ctx w)).
    destruct (text ctx w); reflexivity.
  - destruct (_jsonCache w) as [p |] eqn:Hc.
    + destruct (calls_json_cached ctx p ops w Hc) as [Hn Hi].
      split; [apply calls_keep_json_cache; exact Hc |]. split; assumption.
    + destruct (decide (CallJson ∈ ops)) as [Hin | Hno].
      * apply calls_json_first; assumption.
      * destruct (calls_without_json ctx ops w Hno) as [Hc' Hn].
        rewrite Hc', Hn. split; [exact Hc | reflexivity].
  - destruct (_textCache w) as [q |] eqn:Hc.
    + destruct (calls_text_cached ctx q ops w Hc) as [Hn Hi].
      split; [apply calls_keep_text_cache; exact Hc |]. split; assumption.
    + destruct (decide (CallText ∈ ops)) as [Hin | Hno].
      * apply calls_text_first; assumption.
      * destruct (calls_without_text ctx ops w Hno) as [Hc' Hn].
        rewrite Hc', Hn. split; [exact Hc | reflexivity].
  - repeat split; assumption.
Qed.

(** The test "reading the body as JSON twice" on a fresh context: one
    read, one promise. *)
Example json_twice_one_read (req : Request) :
  let '(ctx, w) := ContextImpl.new req None Suite.emptyWorld in
  let '(p1, w1) := json ctx w in
  let '(p2, w2) := json ctx w1 in
  p1 = p2 /\ reads w2 = [ReadJson].
Proof. simpl. split; reflexivity. Qed.

End ContextFacts.

(** ** The orchestrator *)

Module AppFacts.
Import Compose SupaEdgeApp.

Section Extensionality.
Context {Ctx S R : Type}.




End Extensionality.

(** [new Response] with a JSON body: which statuses it takes, and the
    error it throws for the others. *)
Lemma Response_init_json `{Runtime} (j : Json) (st : Z) (hdrs : nat) (w : World) :
  Response_init (JsonText j) st hdrs w
  = if body_status (ToUint16 st) then
      Resolved (Response_new (JsonText j) (ToUint16 st) hdrs w)
    else
      Rejected (Error (Response_Error (ToUint16 st))).
Proof.
  unfold Response_init, body_status, null_body_status. cbv zeta.
  generalize (ToUint16 st). intros n.
  destruct (Z.ltb_spec n 200), (Z.ltb_spec 599 n), (Z.leb_spec 200 n),
    (Z.leb_spec n 599), (Z.eqb_spec n 101), (Z.eqb_spec n 204),
    (Z.eqb_spec n 205), (Z.eqb_spec n 304); simpl; try reflexivity; lia.
Qed.

Lemma body_status_exact (st : Z) :
  200 <= st <= 599 -> st <> 204 -> st <> 205 -> st <> 304 ->
  ToUint16 st = st /\ body_status (ToUint16 st) = true.
Proof.
  intros Hrange H204 H205 H304.
  assert (Hst : ToUint16 st = st) by (unfold ToUint16; apply Z.mod_small; lia).
  split; [exact Hst |]. rewrite Hst. unfold body_status, null_body_status.
  destruct (Z.leb_spec 200 st), (Z.leb_spec st 599), (Z.eqb_spec st 101),
    (Z.eqb_spec st 204), (Z.eqb_spec st 205), (Z.eqb_spec st 304);
    simpl; try reflexivity; lia.
Qed.

(** The outcome of the default branch of [handleError]. *)
Lemma defaultError_response `{Runtime} (error : Thrown) (w : World) :
  (defaultError error w).1
  = let st := match error with HttpError st _ _ => st | _ => 500 end in
    if body_status (ToUint16 st) then
      Resolved
        {| status := ToUint16 st;
           headers := <["content-type" := "application/json"]>
                        (Headers_get_all (responseHeaders w) w);
           body :=
             JsonText
               match error with
               | HttpError st message details => toJSON st message details
               | Error message =>
                   JObj [("error", JStr message); ("status", JNum 500)]
               | NonError _ =>
                   JObj [("error", JStr "Internal Server Error");
                         ("status", JNum 500)]
               end |}
    else
      Rejected (Error (Response_Error (ToUint16 st))).
Proof.
  unfold defaultError, Headers_copy, Headers_new. cbv zeta beta iota.
  rewrite ContextFacts.Headers_set_fresh.
  destruct error as [st message details | message | v]; cbn [fst];
    rewrite Response_init_json; unfold Response_new;
    rewrite ?ContextFacts.Headers_get_all_fresh; try reflexivity.
  - change (body_status (ToUint16 500)) with true. cbv iota. do 2 f_equal.
    apply (ContextFacts.Headers_get_all_fresh _ (set_console _ w)).
  - change (body_status (ToUint16 500)) with true. cbv iota. do 2 f_equal.
    apply (ContextFacts.Headers_get_all_fresh _ (set_console _ w)).
Qed.

(** The default branch leaves the state as it found it but for the fresh
    [Headers] object and, for an error that is not an [HttpError], the
    line on the console. *)
Lemma defaultError_console `{Runtime} (error : Thrown) (w : World) :
  console (defaultError error w).2
  = match error with
    | HttpError _ _ _ => console w
    | _ => (console w ++ [error])%list
    end.
Proof. destruct error; reflexivity. Qed.

(** X27.  When the dispatch of a request ends in an error, the outcome of
    the request is the one of [handleError].  With an [onError] hook, the
    hook is called with the error and the context, and its response is the
    result; when the hook itself fails, the default handling runs instead,
    on the state the hook left.  The default handling answers an
    [HttpError] whose status [new Response] takes with a body (after the
    conversion to [unsigned short]: 200..599 other than 204, 205 and 304)
    with that status and the JSON object of [error], [status] and, when
    present, [details]; it throws, and the request is rejected, for every
    other status.  It answers any other [Error] with status 500 and its
    message, and any other thrown value with status 500 and
    "Internal Server Error", after reporting it on the console.  In each
    response the header set is the context's [responseHeaders] with the
    JSON content type laid over it. *)
Theorem handleError_translates `{URLPatternAPI} `{Runtime} (app : App)
    (req : Request) (ctx : Context) (w : World) (error : Thrown) (w1 : World) :
  dispatchRequest app req ctx w = (Rejected error, w1) ->
  respondTo app req ctx w = handleError (options app) error ctx w1
  /\ match onError (options app) with
     | Some hook =>
         match hook error ctx w1 with
         | (Resolved r, w2) =>
             handleError (options app) error ctx w1 = (Resolved r, w2)
         | (Rejected _, w2) =>
             handleError (options app) error ctx w1 = defaultError error w2
         end
     | None => handleError (options app) error ctx w1 = defaultError error w1
     end
  /\ forall w2 : World,
       let hs := <["content-type" := "application/json"]>
                   (Headers_get_all (responseHeaders w2) w2) in
       match error with
       | HttpError st message details =>
           let json :=
             JsonText
               (JObj ([("error", JStr message); ("status", JNum st)]
                      ++ match details with
                         | Some d => [("details", d)]
                         | None => []
                         end)) in
           (defaultError error w2).1
           = (if body_status (ToUint16 st) then
                Resolved {| status := ToUint16 st; headers := hs; body := json |}
              else
                Rejected (Error (Response_Error (ToUint16 st))))
           /\ (200 <= st <= 599 -> st <> 204 -> st <> 205 -> st <> 304 ->
               (defaultError error w2).1
               = Resolved {| status := st; headers := hs; body := json |})
           /\ console (defaultError error w2).2 = console w2
       | Error message =>
           (defaultError error w2).1
           = Resolved {| status := 500; headers := hs;
                         body := JsonText (JObj [("error", JStr message);
                                                 ("status", JNum 500)]) |}
           /\ console (defaultError error w2).2 = (console w2 ++ [error])%list
       | NonError _ =>
           (defaultError error w2).1
           = Resolved {| status := 500; headers := hs;
                         body := JsonText
                                   (JObj [("error", JStr "Internal Server Error");
                                          ("status", JNum 500)]) |}
           /\ console (defaultError error w2).2 = (console w2 ++ [error])%list
       end.
Proof.
  intros Hd. split; [| split].
  - unfold respondTo. rewrite Hd. reflexivity.
  - unfold handleError. destruct (onError (options app)) as [hook |]; [| reflexivity].
    destruct (hook error ctx w1) as [[r | e] w2]; reflexivity.
  - intros w2 hs. rewrite defaultError_console, defaultError_response.
    destruct error as [st message details | message | v]; cbv zeta.
    + split; [| split; [| reflexivity]].
      * destruct details; reflexivity.
      * intros Hrange H204 H205 H304.
        destruct (body_status_exact st Hrange H204 H205 H304) as [-> ->].
        destruct details; reflexivity.
    + split; reflexivity.
    + split; reflexivity.
Qed.

(** The test "HttpError is serialized to JSON" of [app_test.ts], with a
    header set by a global middleware. *)
Lemma handleError_translates_witness :
  let app :=
    get "/fail" []
      (Suite.throwing
         (HttpError 400 "bad input" (Some (JObj [("field", JStr "name")]))))
      (use (Suite.setHeader "X-Custom" "middleware") (new Suite.noOptions)) in
  (@handler simple_patterns plain_runtime app (Suite.requestTo "GET" "/fail")
     Suite.emptyWorld).1
  = Resolved
      {| status := 400;
         headers := <["content-type" := "application/json"]>
                      (<["x-custom" := "middleware"]> ∅);
         body := JsonText (JObj [("error", JStr "bad input"); ("status", JNum 400);
                                 ("details", JObj [("field", JStr "name")])]) |}.
Proof.
  intros app.
  pose (req := Suite.requestTo "GET" "/fail").
  pose (ctx := (ContextImpl.new req None Suite.emptyWorld).1).
  pose (w := (ContextImpl.new req None Suite.emptyWorld).2).
  pose (w1 := Headers_set 0 "X-Custom" "middleware" w).
  destruct (@handleError_translates simple_patterns plain_runtime app req ctx w
              (HttpError 400 "bad input" (Some (JObj [("field", JStr "name")])))
              w1 eq_refl) as (Hr & Hh & Hd).
  transitivity ((@respondTo simple_patterns plain_runtime app req ctx w).1);
    [reflexivity |].
  rewrite Hr. reflexivity.
Defined.

(** C3.  A route that throws [new HttpError(304, "Not Modified")], or an
    [HttpError] of status 204, gets no response: [new Response] refuses a
    body with such a status, the error handling throws in its turn, and
    the promise of [app.handler] is rejected with the [TypeError] of the
    runtime.  The same happens, with a [RangeError], for a status outside
    200..599. *)
Theorem handleError_refused_status (R : Runtime) :
  (@handler simple_patterns R (Suite.failing 304 "Not Modified")
     (Suite.requestTo "GET" "/fail") Suite.emptyWorld).1
  = Rejected (Error (Response_Error 304))
  /\ (@handler simple_patterns R (Suite.failing 204 "No Content")
        (Suite.requestTo "GET" "/fail") Suite.emptyWorld).1
     = Rejected (Error (Response_Error 204))
  /\ (@handler simple_patterns R (Suite.failing 600 "Custom")
        (Suite.requestTo "GET" "/fail") Suite.emptyWorld).1
     = Rejected (Error (Response_Error 600)).
Proof. repeat split; reflexivity. Qed.

Lemma handler_unfold `{URLPatternAPI} `{Runtime} (app : App) (req : Request)
    (w0 : World) :
  handler app req w0
  = let ctx := (ContextImpl.new req None w0).1 in
    let w := (ContextImpl.new req None w0).2 in
    let rw := respondTo app req ctx w in
    match rw.1 with
    | Resolved response =>
        if String.eqb (req_method req) "HEAD" then
          (Resolved {| status := status response; headers := headers response;
                       body := NullBody |}, rw.2)
        else (Resolved response, rw.2)
    | Rejected e => (Rejected e, rw.2)
    end.
Proof.
  unfold handler. cbv zeta. unfold ContextImpl.new, Headers_new. cbn [fst snd].
  destruct (respondTo app req _ _) as [[r | e] w']; reflexivity.
Qed.

(** X28.  When the URL of a request resolves and no route matches its
    method and the resolved URL, the chain that runs is the chain of all
    global middleware, and its terminal continuation raises the 404
    [HttpError] whose message is "No route matched: ", the method of the request and
    the path of the request as it came in.  For global middleware that act
    and then await [next()], all their effects have taken place, in
    registration order, when the error is translated: without an [onError]
    hook the response has status 404, the JSON of that error, and the
    [responseHeaders] as the middleware left them. *)
Theorem unmatched_runs_global `{URLPatternAPI} `{Runtime} (app : App)
    (req : Request) (w0 : World) (effectiveUrl : URL) :
  resolveUrl (options app) req = Resolved effectiveUrl ->
  Router.match_ (router app) (req_method req) effectiveUrl = None ->
  let ctx := (ContextImpl.new req None w0).1 in
  let w := (ContextImpl.new req None w0).2 in
  let notFoundError :=
    HttpError 404
      ("No route matched: " ++ req_method req ++ " " ++ pathname (req_url req))
      None in
  dispatchRequest app req ctx w
  = composed ctx (notFoundNext req ctx) (globalMiddlewares app) w
  /\ (forall w', notFoundNext req ctx w' = (Rejected notFoundError, w'))
  /\ forall effs : list ((World -> World) * (World -> World)),
       globalMiddlewares app = map (fun pp => Suite.around pp.1 pp.2) effs ->
       let w1 := foldl (fun t pp => pp.1 t) w effs in
       dispatchRequest app req ctx w = (Rejected notFoundError, w1)
       /\ (onError (options app) = None ->
           (handler app req w0).1
           = Resolved
               {| status := 404;
                  headers := <["content-type" := "application/json"]>
                               (Headers_get_all (responseHeaders w1) w1);
                  body :=
                    if String.eqb (req_method req) "HEAD" then NullBody
                    else JsonText
                           (JObj [("error",
                                   JStr ("No route matched: " ++ req_method req
                                         ++ " " ++ pathname (req_url req)));
                                  ("status", JNum 404)]) |}).
Proof.
  intros Hurl Hmatch ctx w notFoundError.
  assert (Hd : dispatchRequest app req ctx w
               = composed ctx (notFoundNext req ctx) (globalMiddlewares app) w).
  { unfold dispatchRequest. rewrite Hurl, Hmatch. reflexivity. }
  split; [exact Hd |]. split; [intros w'; reflexivity |].
  intros effs Hglobal w1.
  assert (Hrej : dispatchRequest app req ctx w = (Rejected notFoundError, w1)).
  { rewrite Hd, Hglobal, ComposeFacts.composed_around. reflexivity. }
  split; [exact Hrej |]. intros Hhook.
  rewrite handler_unfold. cbv zeta. fold ctx. fold w.
  unfold respondTo. rewrite Hrej. unfold handleError. rewrite Hhook.
  rewrite (defaultError_response notFoundError w1). cbv zeta.
  change (body_status (ToUint16 404)) with true. cbv iota.
  destruct (String.eqb (req_method req) "HEAD"); reflexivity.
Qed.

(** The test "404 for unmatched route" of [app_test.ts] with the header
    middleware of "global middleware runs for all routes", on a URL that
    carries the function prefix. *)
Lemma unmatched_runs_global_witness :
  let app :=
    get "/hello" [] Suite.okHandler
      (use (Suite.setHeader "X-Custom" "middleware") (new Suite.noOptions)) in
  (@handler simple_patterns plain_runtime app
     (Suite.requestTo "GET" "/functions/v1/my-fn/unknown") Suite.emptyWorld).1
  = Resolved
      {| status := 404;
         headers := <["content-type" := "application/json"]>
                      (<["x-custom" := "middleware"]> ∅);
         body := JsonText
                   (JObj [("error",
                           JStr "No route matched: GET /functions/v1/my-fn/unknown");
                          ("status", JNum 404)]) |}.
Proof.
  intros app.
  destruct (@unmatched_runs_global simple_patterns plain_runtime app
              (Suite.requestTo "GET" "/functions/v1/my-fn/unknown")
              Suite.emptyWorld (Suite.localhost "/unknown") eq_refl eq_refl)
    as (_ & _ & Heffs).
  destruct (Heffs [(fun w => Headers_set (responseHeaders w) "X-Custom" "middleware" w,
                    id)] eq_refl) as (_ & Hresp).
  rewrite (Hresp eq_refl). reflexivity.
Defined.

(** A reference made of slashes only has no host, so [resolveUrl] throws
    on a path that is the function prefix followed by two slashes or
    more. *)
Lemma resolveUrl_slashes `{Runtime} (opts : AppOptions) (req : Request)
    (name slashes : string) :
  truthy (basePath opts) = false ->
  pathname (req_url req) = ("/functions/v1/" ++ name ++ "//" ++ slashes)%string ->
  name <> "" -> no_slash name = true -> drop_slashes slashes = "" ->
  resolveUrl opts req
  = Rejected (Error (URL_TypeError ("//" ++ slashes) (origin (req_url req)))).
Proof.
  intros Hbase Hpath Hname Hseg Hslashes. unfold resolveUrl.
  rewrite Hbase, Hpath.
  rewrite (ResolveFacts.match_function_prefix_app name ("//" ++ slashes) Hname Hseg
             (or_intror eq_refl)).
  replace ("/functions/v1/" ++ name ++ "//" ++ slashes)%string
    with (("/functions/v1/" ++ name) ++ "//" ++ slashes)%string by reflexivity.
  rewrite ResolveFacts.slice_app.
  unfold URL_new. change (or_else ("//" ++ slashes) "/") with ("//" ++ slashes)%string.
  change (starts_with "//" ("//" ++ slashes)) with true. cbv iota.
  rewrite (URL_host_missing ("//" ++ slashes) eq_refl) by exact Hslashes.
  reflexivity.
Qed.

(** C5.  The app of [app_test.ts] with one global middleware, which sets
    a response header, and the route [GET /hello].  The request
    [GET http://localhost/functions/v1/my-fn//] matches no route, as it
    comes and with the function prefix taken off.  [resolveUrl] throws on
    it, inside the [try] block and before the router is asked: no
    middleware runs, the state is as the constructor of the context left
    it, and the answer is the 500 of an unknown error, without the header
    of the middleware. *)
Theorem unmatched_skips_global (R : Runtime) :
  let app :=
    get "/hello" [] Suite.okHandler
      (use (Suite.setHeader "X-Custom" "middleware") (new Suite.noOptions)) in
  let req := Suite.requestTo "GET" "/functions/v1/my-fn//" in
  let ctx := (ContextImpl.new req None Suite.emptyWorld).1 in
  let w := (ContextImpl.new req None Suite.emptyWorld).2 in
  @Router.match_ simple_patterns (router app) "GET" (req_url req) = None
  /\ @Router.match_ simple_patterns (router app) "GET"
       (set_pathname "//" (req_url req)) = None
  /\ @dispatchRequest simple_patterns R app req ctx w
     = (Rejected (Error (URL_TypeError "//" "http://localhost")), w)
  /\ @handler simple_patterns R app req Suite.emptyWorld
     = (Resolved
          {| status := 500;
             headers := <["content-type" := "application/json"]> ∅;
             body := JsonText
                       (JObj [("error",
                               JStr (URL_TypeError "//" "http://localhost"));
                              ("status", JNum 500)]) |},
        set_console [Error (URL_TypeError "//" "http://localhost")]
          (set_heap [∅; <["content-type" := "application/json"]> ∅] w)).
Proof.
  intros app req ctx w.
  assert (Hurl : resolveUrl (options app) req
                 = Rejected (Error (URL_TypeError "//" "http://localhost"))).
  { apply (resolveUrl_slashes (options app) req "my-fn" "");
      [reflexivity | reflexivity | discriminate | reflexivity | reflexivity]. }
  assert (Hd : @dispatchRequest simple_patterns R app req ctx w
               = (Rejected (Error (URL_TypeError "//" "http://localhost")), w)).
  { unfold dispatchRequest. rewrite Hurl. reflexivity. }
  split; [reflexivity |]. split; [reflexivity |]. split; [exact Hd |].
  rewrite handler_unfold. cbv zeta. fold req. fold ctx. fold w.
  unfold respondTo. rewrite Hd. reflexivity.
Qed.

End AppFacts.

(** ** Routing *)

Module RoutingFacts.
Import Router RouterFacts.

(** C7.  What [match] returns as [params] is the map of the pattern's
    named groups that captured a value: a key is bound to [v] exactly when
    its group captured [v], and a group without a captured value is not a
    key at all.  With the pattern [/users/:id], the URL [/users/42] gives
    [{id: "42"}] and the URL [/users] gives no match; with an optional
    group, [/users/:id?] on [/users] matches with no [id] in [params]. *)
Theorem match_params (h : Handler) :
  (forall (P : URLPatternAPI) (r : Router) (m : string) (u : URL)
          (route : Route) (ps : gmap string string),
      match_ r m u = Some (route, ps) ->
      exists groups,
        URLPattern_exec (pattern route) (pathname u) = Some groups
        /\ (forall k v, ps !! k = Some v <-> groups !! k = Some (Some v))
        /\ (forall k, groups !! k = Some None -> ps !! k = None))
  /\ snd <$> @match_ simple_patterns (get "/users/:id" [] h (new None)) "GET"
               (Suite.localhost "/users/42")
     = Some {["id" := "42"]}
  /\ @match_ simple_patterns (get "/users/:id" [] h (new None)) "GET"
       (Suite.localhost "/users")
     = None
  /\ snd <$> @match_ simple_patterns (get "/users/:id?" [] h (new None)) "GET"
               (Suite.localhost "/users")
     = Some ∅.
Proof.
  split; [| split; [| split]]; try reflexivity.
  intros P r m u route ps Hm.
  apply match_routes_Some in Hm as (_ & _ & groups & He & ->).
  exists groups. split; [exact He |]. split.
  - intros k v. rewrite extract_params_lookup.
    destruct (groups !! k) as [[x |] |]; simpl; split; congruence.
  - intros k Hk. rewrite extract_params_lookup, Hk. reflexivity.
Qed.

Lemma match_params_witness :
  exists groups,
    SimplePattern.exec "/users/:id?" "/users" = Some groups
    /\ groups !! "id" = Some None
    /\ forall v, (∅ : gmap string string) !! "id" = Some v
                 <-> groups !! "id" = Some (Some v).
Proof.
  destruct (proj1 (match_params Suite.okHandler) simple_patterns
              (get "/users/:id?" [] Suite.okHandler (new None)) "GET"
              (Suite.localhost "/users")
              {| method := "GET"; pattern := "/users/:id?"; middlewares := [];
                 handler := Suite.okHandler |}
              ∅ eq_refl)
    as (groups & He & Hiff & Hnone).
  exists groups. split; [exact He |]. split.
  - injection He as <-. reflexivity.
  - intros v. apply Hiff.
Defined.

(** C10.  A route registered under the method ["ALL"], in any letter case,
    is stored with the method ["ALL"]; [match] never skips it, whatever the
    method of the request, so it is returned for every request whose URL
    its pattern matches and that no earlier route takes. *)
Theorem ALL_matches_every_method (P : URLPatternAPI) (r : Router)
    (m path : string) (mws : list Middleware) (h : Handler) :
  toUpperCase m = "ALL" ->
  let route := {| method := "ALL"; pattern := (basePath r ++ path)%string;
                  middlewares := mws; handler := h |} in
  routes (add m path mws h r) = (routes r ++ [route])%list
  /\ (forall requestMethod : string,
        skipped (toUpperCase requestMethod) route = false)
  /\ (forall (requestMethod : string) (u : URL) groups,
        match_ r requestMethod u = None ->
        URLPattern_exec (pattern route) (pathname u) = Some groups ->
        match_ (add m path mws h r) requestMethod u
        = Some (route, extract_params groups)).
Proof.
  intros Hm route.
  assert (Hroutes : routes (add m path mws h r) = (routes r ++ [route])%list).
  { unfold add. simpl. rewrite Hm. reflexivity. }
  assert (Hskip : forall requestMethod : string,
             skipped (toUpperCase requestMethod) route = false).
  { intros requestMethod. apply skipped_false. right. left. reflexivity. }
  split; [exact Hroutes |]. split; [exact Hskip |].
  intros requestMethod u groups Hnone He.
  unfold match_ in *. rewrite Hroutes, match_routes_app, Hnone.
  simpl. rewrite Hskip. simpl in He. rewrite He. reflexivity.
Qed.

Lemma ALL_matches_every_method_witness :
  let r := add "all" "/any" [] Suite.okHandler
             (post "/items" [] Suite.okHandler (new None)) in
  (fun found => method found.1)
    <$> @match_ simple_patterns r "HEAD" (Suite.localhost "/any") = Some "ALL"
  /\ (fun found => method found.1)
       <$> @match_ simple_patterns r "DELETE" (Suite.localhost "/any") = Some "ALL".
Proof.
  intros r.
  destruct (ALL_matches_every_method simple_patterns
              (post "/items" [] Suite.okHandler (new None))
              "all" "/any" [] Suite.okHandler eq_refl)
    as (_ & _ & Hmatch).
  split.
  - unfold r. rewrite (Hmatch "HEAD" (Suite.localhost "/any") ∅ eq_refl eq_refl).
    reflexivity.
  - unfold r. rewrite (Hmatch "DELETE" (Suite.localhost "/any") ∅ eq_refl eq_refl).
    reflexivity.
Defined.





End RoutingFacts.

(** ** The repository's tests, replayed on the embedding *)

Module SuiteFacts.
Import SupaEdgeApp Suite.

(** [compose_test.ts], "empty middleware array calls next directly". *)
Example compose_empty (ctx : Context) (w : World) :
  Compose.composed ctx (fun w => (Resolved ok, w)) [] w = (Resolved ok, w).
Proof. reflexivity. Qed.

(** [compose_test.ts], "propagates errors from middleware". *)
Example compose_propagates (ctx : Context) (w : World) :
  Compose.composed ctx (fun w => (Resolved ok, w))
    [fun _ w => Compose.Return (Rejected (Error "test error")) w] w
  = (Rejected (Error "test error"), w).
Proof. reflexivity. Qed.

(** [router_test.ts], "HEAD does not match POST routes". *)
Example router_HEAD_not_POST :
  @Router.match_ simple_patterns
    (Router.post "/hello" [] okHandler (Router.new None)) "HEAD"
    (localhost "/hello")
  = None.
Proof. reflexivity. Qed.

(** [router_test.ts], "supports basePath". *)
Example router_basePath :
  is_Some (@Router.match_ simple_patterns
             (Router.get "/hello" [] okHandler (Router.new (Some "/api"))) "GET"
             (localhost "/api/hello")).
Proof. eexists. reflexivity. Qed.

(** [app_test.ts], "basic GET route". *)
Example app_basic_GET (R : Runtime) :
  let app := get "/hello" [] (jsonHandler (JObj [("message", JStr "hello")]))
               (new noOptions) in
  (@handler simple_patterns R app (requestTo "GET" "/hello") emptyWorld).1
  = Resolved
      {| status := 200;
         headers := {["content-type" := "application/json"]};
         body := JsonText (JObj [("message", JStr "hello")]) |}.
Proof. reflexivity. Qed.

(** [app_test.ts], "strips /functions/v1/{name} prefix". *)
Example app_strips_prefix (R : Runtime) :
  let app := get "/todos" [] (jsonHandler (JObj [("ok", JBool true)]))
               (new noOptions) in
  status <$> resolved (@handler simple_patterns R app
                         (requestTo "GET" "/functions/v1/my-fn/todos")
                         emptyWorld).1
  = Some 200.
Proof. reflexivity. Qed.

(** [app_test.ts], "custom onError handler". *)
Example app_custom_onError (R : Runtime) :
  let hook (err : Thrown) (_ : Context) (w : World) :=
    let msg := match err with
               | Error m | HttpError _ m _ => m
               | NonError _ => "unknown"
               end in
    let '(r, w) := ContextImpl.respond_json (JObj [("custom", JStr msg)])
                     (Some 500) w in
    (Resolved r, w) in
  let app := get "/fail" [] (throwing (Error "boom"))
               (new {| basePath := None; onError := Some hook |}) in
  (@handler simple_patterns R app (requestTo "GET" "/fail") emptyWorld).1
  = Resolved
      {| status := 500;
         headers := {["content-type" := "application/json"]};
         body := JsonText (JObj [("custom", JStr "boom")]) |}.
Proof. reflexivity. Qed.

(** [app_test.ts], "HEAD on 404 returns no body". *)
Example app_HEAD_404 (R : Runtime) :
  let app := get "/exists" [] okHandler (new noOptions) in
  let r := resolved (@handler simple_patterns R app (requestTo "HEAD" "/nope")
                       emptyWorld).1 in
  status <$> r = Some 404 /\ body <$> r = Some NullBody.
Proof. split; reflexivity. Qed.

(** A hook that fails leaves the answer to the default handling. *)
Example app_failing_onError (R : Runtime) :
  let hook (_ : Thrown) (_ : Context) (w : World)
    : Outcome Response * World := (Rejected (Error "hook failed"), w) in
  let app := get "/fail" [] (throwing (HttpError 403 "Forbidden" None))
               (new {| basePath := None; onError := Some hook |}) in
  (@handler simple_patterns R app (requestTo "GET" "/fail") emptyWorld).1
  = Resolved
      {| status := 403;
         headers := {["content-type" := "application/json"]};
         body := JsonText (JObj [("error", JStr "Forbidden");
                                 ("status", JNum 403)]) |}.
Proof. reflexivity. Qed.

End SuiteFacts.

(** ** More on the dispatcher *)

Module ChainFacts.
Import Compose.

Section Chains.
Context {Ctx S R : Type}.
Variable ctx : Ctx.
Variable finalNext : Compose.Next S R.

Abbreviation Middleware := (Compose.Middleware Ctx S R).
Abbreviation Effects := (list ((S -> S) * (S -> S))).
Abbreviation arounds := (map (fun pp : (S -> S) * (S -> S) => Suite.around pp.1 pp.2)).

(** Below the index it is asked for, the cursor does not matter. *)
Lemma dispatch_from_fresh (rest : list Middleware) i index1 index2 s :
  index1 < i -> index2 < i ->
  dispatch_from ctx finalNext rest i index1 s
  = dispatch_from ctx finalNext rest i index2 s.
Proof.
  intros H1 H2. destruct rest; simpl;
    destruct (Z.leb_spec i index1); destruct (Z.leb_spec i index2);
    (reflexivity || lia).
Qed.

(** A prefix of [around] middleware wraps whatever follows it. *)
Lemma dispatch_from_around_app (pps : Effects) (rest : list Middleware) :
  forall i index s,
    index < i ->
    dispatch_from ctx finalNext (arounds pps ++ rest) i index s
    = let s1 := foldl (fun t pp => pp.1 t) s pps in
      let '(o, index', s2) :=
        dispatch_from ctx finalNext rest (i + Z.of_nat (length pps))
                      (i + Z.of_nat (length pps) - 1) s1 in
      (o, index',
       match o with
       | Resolved _ => foldr (fun pp t => pp.2 t) s2 pps
       | Rejected _ => s2
       end).
Proof.
  induction pps as [| [before after] pps IH]; intros i index s Hlt.
  - cbn [map app foldl foldr length].
    rewrite (dispatch_from_fresh rest i index (i + Z.of_nat 0 - 1)) by lia.
    replace (i + Z.of_nat 0) with i by lia.
    destruct (dispatch_from ctx finalNext rest i (i - 1) s) as [[[r | e] index'] s2];
      reflexivity.
  - cbn [map app foldl foldr length dispatch_from].
    destruct (Z.leb_spec i index); [lia |].
    cbn [Suite.around run fst snd]. rewrite IH by lia. cbv zeta.
    replace (i + 1 + Z.of_nat (length pps)) with (i + Z.of_nat (Datatypes.S (length pps)))
      by lia.
    destruct (dispatch_from ctx finalNext rest _ _ _) as [[[r | e] index'] s2];
      reflexivity.
Qed.

Lemma composed_around_app (pps : Effects) (rest : list Middleware) s :
  composed ctx finalNext (arounds pps ++ rest) s
  = let s1 := foldl (fun t pp => pp.1 t) s pps in
    let '(o, _, s2) :=
      dispatch_from ctx finalNext rest (Z.of_nat (length pps))
                    (Z.of_nat (length pps) - 1) s1 in
    (o, match o with
        | Resolved _ => foldr (fun pp t => pp.2 t) s2 pps
        | Rejected _ => s2
        end).
Proof.
  unfold composed, dispatch. change (Z.to_nat 0) with 0%nat. rewrite drop_0.
  rewrite dispatch_from_around_app by lia. cbv zeta.
  replace (0 + Z.of_nat (length pps)) with (Z.of_nat (length pps)) by lia.
  destruct (dispatch_from ctx finalNext rest _ _ _) as [[o index'] s2]. reflexivity.
Qed.

(** X1.  A middleware that settles without calling [next()] ends the
    chain: the middleware registered after it and the terminal
    continuation do not run, so the result does not depend on them.  The
    middleware before it see its outcome as the outcome of their
    [next()]. *)
Theorem stopping_ends_chain (pps : Effects) (out : S -> Outcome R)
    (effect : S -> S) (rest : list Middleware) (s : S) :
  composed ctx finalNext (arounds pps ++ Shapes.stopping out effect :: rest) s
  = let s1 := foldl (fun t pp => pp.1 t) s pps in
    (out s1,
     match out s1 with
     | Resolved _ => foldr (fun pp t => pp.2 t) (effect s1) pps
     | Rejected _ => effect s1
     end).
Proof.
  rewrite composed_around_app. cbv zeta. cbn [dispatch_from].
  destruct (Z.leb_spec (Z.of_nat (length pps)) (Z.of_nat (length pps) - 1)); [lia |].
  reflexivity.
Qed.

(** X3.  When the terminal continuation throws, the middleware between it
    and a [try]/[catch] around [next()] are left through the rejection, so
    their code after [await next()] does not run; the catching middleware
    resolves, and the middleware outside it run their code after
    [await next()] as on success. *)
Theorem rejection_unwinds_to_catch (outer inner : Effects)
    (fallback : Thrown -> R) (e : Thrown) (s : S) :
  let s1 := foldl (fun t pp => pp.1 t) (foldl (fun t pp => pp.1 t) s outer) inner in
  (finalNext s1).1 = Rejected e ->
  composed ctx finalNext (arounds outer ++ Shapes.catching fallback :: arounds inner) s
  = (Resolved (fallback e),
     foldr (fun pp t => pp.2 t) (finalNext s1).2 outer)
  /\ composed ctx finalNext (arounds outer ++ arounds inner) s
     = (Rejected e, (finalNext s1).2).
Proof.
  intros s1 Hfin. split.
  - rewrite composed_around_app. cbv zeta. cbn [dispatch_from].
    destruct (Z.leb_spec (Z.of_nat (length outer)) (Z.of_nat (length outer) - 1)); [lia |].
    cbn [Shapes.catching run].
    rewrite <- (app_nil_r (arounds inner)), dispatch_from_around_app by lia.
    cbv zeta. cbn [dispatch_from].
    destruct (Z.leb_spec (Z.of_nat (length outer) + 1 + Z.of_nat (length inner))
                (Z.of_nat (length outer) + 1 + Z.of_nat (length inner) - 1)); [lia |].
    fold s1. destruct (finalNext s1) as [o s2]. simpl in Hfin. subst o. reflexivity.
  - rewrite <- map_app, ComposeFacts.composed_around, foldl_app. cbv zeta. fold s1.
    destruct (finalNext s1) as [o s2]. simpl in Hfin. subst o. reflexivity.
Qed.

End Chains.

Lemma rejection_unwinds_to_catch_witness :
  let ctx := {| request := Suite.requestTo "GET" "/"; method := "GET";
                url := Suite.localhost "/" |} in
  Compose.composed ctx (fun w => (Rejected (Error "boom"), Suite.push "handler" w))
    [Suite.onion "A"; Shapes.catching (fun _ => Suite.ok); Suite.onion "B"]
    Suite.emptyWorld
  = (Resolved Suite.ok,
     set_order ["A-before"; "B-before"; "handler"; "A-after"] Suite.emptyWorld).
Proof.
  intros ctx.
  exact (proj1 (rejection_unwinds_to_catch ctx
                  (fun w => (Rejected (Error "boom"), Suite.push "handler" w))
                  [Suite.effects "A"] [Suite.effects "B"] (fun _ => Suite.ok)
                  (Error "boom") Suite.emptyWorld eq_refl)).
Defined.

End ChainFacts.

(** ** The terminal continuation runs at most once *)

Module CountingFacts.
Import Compose Counting.

Section Once.
Context {Ctx S R : Type}.
Variable ctx : Ctx.
Variable finalNext : Compose.Next S R.

Lemma run_once (limit : Z) (next : Compose.Continuation (S * nat) R)
    (f : Compose.Frame S R) :
  once limit next ->
  forall index n,
    let '(_, index', (_, n')) := run next (lift f n) index in
    index <= index'
    /\ (limit <= index -> n' = n)
    /\ (n' = n \/ (n' = Datatypes.S n /\ limit <= index')).
Proof.
  intros Hnext. induction f as [o s | s k IH]; intros index n; cbn [lift run].
  - split; [lia |]. split; [reflexivity | left; reflexivity].
  - specialize (Hnext index s n).
    destruct (next index (s, n)) as [[o index1] [s1 n1]].
    specialize (IH o s1 index1 n1). cbn [fst snd].
    destruct (run next (lift (k o s1) n1) index1) as [[o' index'] [s' n']].
    destruct Hnext as (H1 & H2 & H3). destruct IH as (I1 & I2 & I3).
    split; [lia |]. split.
    + intros Hl. rewrite I2 by lia. apply H2. exact Hl.
    + destruct H3 as [-> | [-> Hl]].
      * destruct I3 as [-> | [-> Hl']]; [left; reflexivity | right; split; [reflexivity | exact Hl']].
      * right. rewrite I2 by exact Hl. split; [reflexivity | lia].
Qed.

Lemma dispatch_from_once (rest : list (Compose.Middleware Ctx S R)) :
  forall i,
    once (i + Z.of_nat (length rest))
         (dispatch_from ctx (counted finalNext) (map lift_middleware rest) i).
Proof.
  induction rest as [| m rest IH]; intros i index s n; cbn [map dispatch_from length].
  - destruct (Z.leb_spec i index); cbv beta iota.
    + split; [lia |]. split; [reflexivity | left; reflexivity].
    + unfold counted. cbn [fst snd]. destruct (finalNext s) as [o s'].
      split; [lia |]. split; [lia |]. right. split; [reflexivity | lia].
  - destruct (Z.leb_spec i index); cbv beta iota.
    + split; [lia |]. split; [reflexivity | left; reflexivity].
    + change (lift_middleware m ctx (s, n)) with (lift (m ctx s) n).
      pose proof (run_once (i + Z.of_nat (Datatypes.S (length rest)))
                    (dispatch_from ctx (counted finalNext) (map lift_middleware rest) (i + 1))
                    (m ctx s)) as Hrun.
      assert (Hlimit : i + 1 + Z.of_nat (length rest)
                       = i + Z.of_nat (Datatypes.S (length rest))) by lia.
      specialize (IH (i + 1)). rewrite Hlimit in IH.
      specialize (Hrun IH i n).
      destruct (run _ (lift (m ctx s) n) i) as [[o index'] [s' n']].
      destruct Hrun as (H1 & H2 & H3). cbv beta iota.
      split; [lia |]. split; [lia | exact H3].
Qed.

(** Carrying the counter changes nothing else. *)
Lemma run_lift (next : Compose.Continuation S R)
    (next' : Compose.Continuation (S * nat) R) (f : Compose.Frame S R) :
  (forall index s n,
      (next' index (s, n)).1.1 = (next index s).1.1
      /\ (next' index (s, n)).1.2 = (next index s).1.2
      /\ (next' index (s, n)).2.1 = (next index s).2) ->
  forall index n,
    (run next' (lift f n) index).1.1 = (run next f index).1.1
    /\ (run next' (lift f n) index).1.2 = (run next f index).1.2
    /\ (run next' (lift f n) index).2.1 = (run next f index).2.
Proof.
  intros Hnext. induction f as [o s | s k IH]; intros index n; cbn [lift run].
  - repeat split.
  - destruct (Hnext index s n) as (H1 & H2 & H3).
    destruct (next' index (s, n)) as [[o' index1'] [s1' n1]].
    destruct (next index s) as [[o index1] s1].
    cbn [fst snd] in *. subst o' index1' s1'. apply IH.
Qed.

Lemma dispatch_from_lift (rest : list (Compose.Middleware Ctx S R)) :
  forall i index s n,
    let r' := dispatch_from ctx (counted finalNext) (map lift_middleware rest)
                i index (s, n) in
    let r := dispatch_from ctx finalNext rest i index s in
    r'.1.1 = r.1.1 /\ r'.1.2 = r.1.2 /\ r'.2.1 = r.2.
Proof.
  induction rest as [| m rest IH]; intros i index s n; cbn [map dispatch_from].
  - destruct (i <=? index); [repeat split |].
    unfold counted. cbn [fst snd]. destruct (finalNext s) as [o s']. repeat split.
  - destruct (i <=? index); [repeat split |].
    change (lift_middleware m ctx (s, n)) with (lift (m ctx s) n).
    apply run_lift. intros j t k. apply IH.
Qed.

(** X2.  Whatever the middleware of a chain do, however often they call
    [next()], one call of the composed chain runs the terminal
    continuation at most once; the counter that shows it leaves the
    outcome and the state of the chain as they are. *)
Theorem terminal_at_most_once (middlewares : list (Compose.Middleware Ctx S R))
    (s : S) (n : nat) :
  let counting := composed ctx (counted finalNext)
                    (map lift_middleware middlewares) (s, n) in
  let plain := composed ctx finalNext middlewares s in
  (n <= counting.2.2 <= n + 1)%nat
  /\ counting.1 = plain.1
  /\ counting.2.1 = plain.2.
Proof.
  cbv zeta. unfold composed, dispatch.
  change (Z.to_nat 0) with 0%nat. rewrite !drop_0.
  pose proof (dispatch_from_once middlewares 0 (-1) s n) as Honce.
  pose proof (dispatch_from_lift middlewares 0 (-1) s n) as Hlift.
  cbv zeta in Hlift.
  destruct (dispatch_from ctx (counted finalNext) _ 0 (-1) (s, n))
    as [[o' index'] [s' n']].
  destruct (dispatch_from ctx finalNext middlewares 0 (-1) s) as [[o index] s0].
  cbn [fst snd] in *. destruct Honce as (_ & _ & H3). destruct Hlift as (-> & _ & ->).
  split; [lia |]. split; reflexivity.
Qed.

End Once.
End CountingFacts.

(** ** More on the router *)

Module RouterMore.
Import Router RouterFacts.

Section Order.
Context `{URLPatternAPI}.

Lemma match_routes_None (rs : list Route) (upperMethod : string) (u : URL) :
  match_routes rs upperMethod u = None
  <-> Forall (passed_over upperMethod u) rs.
Proof.
  induction rs as [| r rs IH]; cbn [match_routes].
  - split; [constructor | reflexivity].
  - destruct (skipped upperMethod r) eqn:Hs.
    + rewrite IH. split.
      * intros Hrs. constructor; [left; exact Hs | exact Hrs].
      * intros Hrs. inversion Hrs; assumption.
    + destruct (URLPattern_exec (pattern r) (pathname u)) as [g |] eqn:He.
      * split; [discriminate |]. intros Hrs. inversion Hrs as [| ? ? [Hx | Hx] _]; congruence.
      * rewrite IH. split.
        -- intros Hrs. constructor; [right; exact He | exact Hrs].
        -- intros Hrs. inversion Hrs; assumption.
Qed.

Lemma match_routes_first (rs : list Route) (upperMethod : string) (u : URL)
    (route : Route) (ps : gmap string string) :
  match_routes rs upperMethod u = Some (route, ps)
  <-> exists before after groups,
        rs = (before ++ route :: after)%list
        /\ Forall (passed_over upperMethod u) before
        /\ skipped upperMethod route = false
        /\ URLPattern_exec (pattern route) (pathname u) = Some groups
        /\ ps = extract_params groups.
Proof.
  split.
  - induction rs as [| r rs IH]; cbn [match_routes]; [discriminate |].
    destruct (skipped upperMethod r) eqn:Hs.
    + intros Hm. destruct (IH Hm) as (before & after & g & -> & Hb & Hrest).
      exists (r :: before), after, g. split; [reflexivity |].
      split; [constructor; [left; exact Hs | exact Hb] | exact Hrest].
    + destruct (URLPattern_exec (pattern r) (pathname u)) as [g |] eqn:He.
      * intros [= <- <-]. exists [], rs, g. repeat split; try assumption. constructor.
      * intros Hm. destruct (IH Hm) as (before & after & g & -> & Hb & Hrest).
        exists (r :: before), after, g. split; [reflexivity |].
        split; [constructor; [right; exact He | exact Hb] | exact Hrest].
  - intros (before & after & g & -> & Hb & Hs & He & ->).
    rewrite match_routes_app.
    apply match_routes_None in Hb. rewrite Hb.
    cbn [match_routes]. rewrite Hs, He. reflexivity.
Qed.

End Order.

(** X4.  [match] returns the first route, in registration order, whose
    method fits the request (equal, ["ALL"], or GET for a HEAD request)
    and whose pattern matches the path, with the parameters of that
    match; it returns [null] exactly when every route is passed over. *)
Theorem match_first_registered (P : URLPatternAPI) (r : Router) (m : string)
    (u : URL) :
  (forall route ps,
      match_ r m u = Some (route, ps)
      <-> exists before after groups,
            routes r = (before ++ route :: after)%list
            /\ Forall (passed_over (toUpperCase m) u) before
            /\ skipped (toUpperCase m) route = false
            /\ URLPattern_exec (pattern route) (pathname u) = Some groups
            /\ ps = extract_params groups)
  /\ (match_ r m u = None
      <-> Forall (passed_over (toUpperCase m) u) (routes r)).
Proof.
  split.
  - intros route ps. apply match_routes_first.
  - apply match_routes_None.
Qed.

(** X5.  Registering a route never changes the answer for a request that
    already matched; a request that matched nothing is decided by the new
    route alone. *)
Theorem add_keeps_matches (P : URLPatternAPI) (r : Router) (m path : string)
    (mws : list Middleware) (h : Handler) (requestMethod : string) (u : URL) :
  match_ (add m path mws h r) requestMethod u
  = match match_ r requestMethod u with
    | Some found => Some found
    | None =>
        match_ {| routes := [{| method := toUpperCase m;
                                pattern := (basePath r ++ path)%string;
                                middlewares := mws; handler := h |}];
                  basePath := basePath r |}
               requestMethod u
    end.
Proof. unfold match_, add. cbn [routes]. apply match_routes_app. Qed.

End RouterMore.

(** ** More on the orchestrator *)

Module AppMore.
Import SupaEdgeApp.

(** X7.  For a matched route, the chain that runs is the global
    middleware followed by the middleware of the route, ended by the
    handler of the route, and it is started on the state in which
    [ctx.params] already holds the parameters of the match: every
    middleware, from the first, and the handler find them there.  For
    middleware that act, await [next()] and act again, the first actions
    run in registration order, global middleware first, on the state that
    holds the parameters; then the handler; then, when it has resolved, the
    second actions in reverse order, route middleware first. *)
Theorem global_before_route (P : URLPatternAPI) (R : Runtime) (app : App)
    (req : Request) (ctx : Context) (w : World) (effectiveUrl : URL)
    (route : Router.Route) (ps : gmap string string) :
  resolveUrl (options app) req = Resolved effectiveUrl ->
  Router.match_ (router app) (req_method req) effectiveUrl = Some (route, ps) ->
  dispatchRequest app req ctx w
  = Compose.composed ctx (Router.handler route ctx)
      (globalMiddlewares app ++ Router.middlewares route) (set_params ps w)
  /\ (forall globals locals : list ((World -> World) * (World -> World)),
        globalMiddlewares app = map (fun pp => Suite.around pp.1 pp.2) globals ->
        Router.middlewares route = map (fun pp => Suite.around pp.1 pp.2) locals ->
        dispatchRequest app req ctx w
        = let s1 := foldl (fun t pp => pp.1 t) (set_params ps w)
                      (globals ++ locals) in
          let '(o, s2) := Router.handler route ctx s1 in
          (o, match o with
              | Resolved _ => foldr (fun pp t => pp.2 t) s2 (globals ++ locals)
              | Rejected _ => s2
              end))
  /\ (forall (globals locals : list string) (res : Response),
        globalMiddlewares app = map Suite.onion globals ->
        Router.middlewares route = map Suite.onion locals ->
        Router.handler route ctx = Suite.recording res ->
        dispatchRequest app req ctx w
        = (Resolved res,
           set_order
             (order w
              ++ map (fun l => (l ++ "-before")%string) globals
              ++ map (fun l => (l ++ "-before")%string) locals
              ++ ["handler"]
              ++ rev (map (fun l => (l ++ "-after")%string) locals)
              ++ rev (map (fun l => (l ++ "-after")%string) globals))%list
             (set_params ps w))).
Proof.
  intros Hurl Hmatch.
  assert (Hd : dispatchRequest app req ctx w
               = Compose.composed ctx (Router.handler route ctx)
                   (globalMiddlewares app ++ Router.middlewares route)
                   (set_params ps w)).
  { unfold dispatchRequest. rewrite Hurl, Hmatch. reflexivity. }
  split; [exact Hd |]. split.
  - intros globals locals Hglobal Hlocal.
    rewrite Hd, Hglobal, Hlocal, <- map_app, ComposeFacts.composed_around.
    reflexivity.
  - intros globals locals res Hglobal Hlocal Hhandler.
    rewrite Hd, Hglobal, Hlocal, Hhandler.
    rewrite <- map_app, OnionFacts.onion_chain, ComposeFacts.composed_around.
    cbv zeta. unfold Suite.recording.
    rewrite OnionFacts.afters_pushed, OnionFacts.befores_pushed.
    unfold Suite.push. simpl.
    rewrite !map_app, rev_app_distr, <- !app_assoc. reflexivity.
Qed.

(** A global middleware and a route middleware that both write the [id]
    they find in [ctx.params] to the log, on the route [/users/:id]. *)
Lemma global_before_route_witness :
  let seen (l : string) : Middleware :=
    Suite.around
      (fun w => Suite.push (l ++ default "none" (params w !! "id")) w) id in
  let app :=
    get "/users/:id" [seen "route:"] (fun _ => Suite.recording Suite.ok)
      (use (seen "global:") (new Suite.noOptions)) in
  let req := Suite.requestTo "GET" "/users/42" in
  order (@dispatchRequest simple_patterns plain_runtime app req
           (ContextImpl.new req None Suite.emptyWorld).1
           (ContextImpl.new req None Suite.emptyWorld).2).2
  = ["global:42"; "route:42"; "handler"].
Proof.
  intros seen app req.
  pose (effect := fun (l : string) (w : World) =>
                    Suite.push (l ++ default "none" (params w !! "id")) w).
  pose proof (proj1 (proj2 (global_before_route simple_patterns plain_runtime app req
             (ContextImpl.new req None Suite.emptyWorld).1
             (ContextImpl.new req None Suite.emptyWorld).2
             (Suite.localhost "/users/42")
             {| Router.method := "GET"; Router.pattern := "/users/:id";
                Router.middlewares := [seen "route:"];
                Router.handler := fun _ => Suite.recording Suite.ok |}
             {["id" := "42"]} eq_refl eq_refl))
             [(effect "global:", id)] [(effect "route:", id)] eq_refl eq_refl)
    as Hd.
  exact (eq_trans (f_equal (fun ow : Outcome Response * World => order ow.2) Hd)
                  eq_refl).
Defined.

Lemma span_segment_slash (rest : string) :
  rest = "" \/ starts_with "/" rest = true ->
  span_segment rest = ("", rest).
Proof.
  intros Hrest.
  exact (ResolveFacts.span_segment_app "" rest eq_refl Hrest).
Qed.

(** X8.  A path that does not start with [/functions/v1/], or in which
    the function name is empty, is not rewritten: the URL of the request
    is used as it is, whatever the options. *)
Theorem resolveUrl_keeps_other_paths (R : Runtime) (opts : AppOptions)
    (req : Request) :
  starts_with "/functions/v1/" (pathname (req_url req)) = false
  \/ (exists rest,
         pathname (req_url req) = ("/functions/v1/" ++ rest)%string
         /\ (rest = "" \/ starts_with "/" rest = true)) ->
  resolveUrl opts req = Resolved (req_url req).
Proof.
  intros Hpath. unfold resolveUrl.
  destruct (truthy (basePath opts)); [reflexivity |].
  assert (Hnone : match_function_prefix (pathname (req_url req)) = None).
  { unfold match_function_prefix. destruct Hpath as [Hno | (rest & -> & Hrest)].
    - unfold starts_with in Hno.
      destruct (strip_prefix "/functions/v1/" (pathname (req_url req)));
        [discriminate | reflexivity].
    - rewrite ResolveFacts.strip_prefix_app, (span_segment_slash rest Hrest).
      reflexivity. }
  rewrite Hnone. reflexivity.
Qed.

Lemma resolveUrl_keeps_other_paths_witness :
  @resolveUrl plain_runtime Suite.noOptions
    (Suite.requestTo "GET" "/functions/v1//todos")
  = Resolved (Suite.localhost "/functions/v1//todos")
  /\ @resolveUrl plain_runtime Suite.noOptions
       (Suite.requestTo "GET" "/functions/v2/fn/todos")
     = Resolved (Suite.localhost "/functions/v2/fn/todos").
Proof.
  split.
  - exact (resolveUrl_keeps_other_paths plain_runtime Suite.noOptions
             (Suite.requestTo "GET" "/functions/v1//todos")
             (or_intror (ex_intro _ "/todos"
                           (conj eq_refl (or_intror eq_refl))))).
  - exact (resolveUrl_keeps_other_paths plain_runtime Suite.noOptions
             (Suite.requestTo "GET" "/functions/v2/fn/todos")
             (or_introl eq_refl)).
Defined.

(** X9.  Without a non-empty [basePath], when the text after
    [/functions/v1/<name>] starts with ["//"], [resolveUrl] hands it to
    [new URL] as it is, where it is a network-path reference: the
    rewritten URL has the host and the path that the runtime reads from
    the reference, not those of the request.  When the runtime refuses
    the reference, as it does when nothing but slashes follow, the error
    is thrown inside the [try] block before any route is looked up: no
    middleware and no handler runs, the state is untouched, and without
    an [onError] hook the answer is the 500 of an unknown error, with the
    message of the runtime and the JSON content type as its only header
    besides those already in [responseHeaders]. *)
Theorem resolveUrl_double_slash (P : URLPatternAPI) (R : Runtime) (app : App)
    (req : Request) (name rest : string) :
  truthy (basePath (options app)) = false ->
  pathname (req_url req) = ("/functions/v1/" ++ name ++ "//" ++ rest)%string ->
  name <> "" ->
  no_slash name = true ->
  let thrown := Error (URL_TypeError ("//" ++ rest) (origin (req_url req))) in
  resolveUrl (options app) req
  = match URL_network_path ("//" ++ rest) with
    | Some (h, p) =>
        Resolved {| protocol := protocol (req_url req); host := h;
                    pathname := p; search := search (req_url req) |}
    | None => Rejected thrown
    end
  /\ (drop_slashes rest = "" -> URL_network_path ("//" ++ rest) = None)
  /\ (URL_network_path ("//" ++ rest) = None ->
      (forall ctx w, dispatchRequest app req ctx w = (Rejected thrown, w))
      /\ (onError (options app) = None ->
          forall w0,
            let w := (ContextImpl.new req None w0).2 in
            (handler app req w0).1
            = Resolved
                {| status := 500;
                   headers := <["content-type" := "application/json"]>
                                (Headers_get_all (responseHeaders w) w);
                   body :=
                     if String.eqb (req_method req) "HEAD" then NullBody
                     else JsonText
                            (JObj [("error",
                                    JStr (URL_TypeError ("//" ++ rest)
                                            (origin (req_url req))));
                                   ("status", JNum 500)]) |})).
Proof.
  intros Hbase Hpath Hne Hname thrown.
  assert (Hurl : resolveUrl (options app) req
    = match URL_network_path ("//" ++ rest) with
      | Some (h, p) =>
          Resolved {| protocol := protocol (req_url req); host := h;
                      pathname := p; search := search (req_url req) |}
      | None => Rejected thrown
      end).
  { unfold resolveUrl. rewrite Hbase, Hpath.
    rewrite (ResolveFacts.match_function_prefix_app name ("//" ++ rest) Hne Hname)
      by (right; reflexivity).
    replace ("/functions/v1/" ++ name ++ "//" ++ rest)%string
      with (("/functions/v1/" ++ name) ++ "//" ++ rest)%string by reflexivity.
    rewrite ResolveFacts.slice_app.
    change (or_else ("//" ++ rest) "/") with ("//" ++ rest)%string.
    unfold URL_new.
    change (starts_with "//" ("//" ++ rest)) with true. cbv iota.
    destruct (URL_network_path ("//" ++ rest)) as [[h p] |]; reflexivity. }
  split; [exact Hurl |]. split.
  - intros Hempty. apply URL_host_missing; [reflexivity | exact Hempty].
  - intros Hnone.
    assert (Hd : forall ctx w, dispatchRequest app req ctx w = (Rejected thrown, w)).
    { intros ctx w. unfold dispatchRequest. rewrite Hurl, Hnone. reflexivity. }
    split; [exact Hd |]. intros Hhook w0 w.
    rewrite AppFacts.handler_unfold. cbv zeta. fold w.
    unfold respondTo. rewrite Hd. unfold handleError. rewrite Hhook.
    rewrite (AppFacts.defaultError_response thrown w). cbv zeta.
    change (body_status (ToUint16 500)) with true. cbv iota.
    destruct (String.eqb (req_method req) "HEAD"); reflexivity.
Qed.

Lemma resolveUrl_double_slash_witness :
  let app := use (Suite.setHeader "X-Custom" "middleware") (new Suite.noOptions) in
  @resolveUrl plain_runtime (options app)
    (Suite.requestTo "GET" "/functions/v1/my-fn//a/b")
  = Resolved {| protocol := "http:"; host := "a"; pathname := "/b"; search := "" |}
  /\ (@handler simple_patterns plain_runtime app
        (Suite.requestTo "GET" "/functions/v1/my-fn///") Suite.emptyWorld).1
     = Resolved
         {| status := 500;
            headers := <["content-type" := "application/json"]> ∅;
            body := JsonText
                      (JObj [("error",
                              JStr (@URL_TypeError plain_runtime "///"
                                      "http://localhost"));
                             ("status", JNum 500)]) |}.
Proof.
  intros app.
  assert (Hne : "my-fn" <> "") by discriminate.
  split.
  - exact (proj1 (resolveUrl_double_slash simple_patterns plain_runtime app
                    (Suite.requestTo "GET" "/functions/v1/my-fn//a/b")
                    "my-fn" "a/b" eq_refl eq_refl Hne eq_refl)).
  - exact (proj2 (proj2 (proj2 (resolveUrl_double_slash simple_patterns
                                  plain_runtime app
                                  (Suite.requestTo "GET" "/functions/v1/my-fn///")
                                  "my-fn" "/" eq_refl eq_refl Hne eq_refl))
                   eq_refl) eq_refl Suite.emptyWorld).
Defined.

End AppMore.

(** ** More on the request context *)

Module ContextMore.
Import ContextImpl.

Lemma json_reads_length (ctx : Context) (w : World) :
  (length (reads w) <= length (reads (json ctx w).2))%nat.
Proof.
  unfold json. destruct (_jsonCache w); cbn; [lia |]. rewrite length_app. lia.
Qed.

Lemma text_reads_length (ctx : Context) (w : World) :
  (length (reads w) <= length (reads (text ctx w).2))%nat.
Proof.
  unfold text. destruct (_textCache w); cbn; [lia |]. rewrite length_app. lia.
Qed.

Lemma count_reads_other (k r : BodyRead) (w w1 : World) :
  reads w1 = (reads w ++ [r])%list -> r <> k ->
  count_reads k w1 = count_reads k w.
Proof.
  intros Hr Hne. rewrite (ContextFacts.count_reads_snoc k r w w1 Hr).
  destruct (decide (r = k)); [contradiction | lia].
Qed.

Lemma count_reads_same (k : BodyRead) (w w1 : World) :
  reads w1 = (reads w ++ [k])%list ->
  count_reads k w1 = Datatypes.S (count_reads k w).
Proof.
  intros Hr. rewrite (ContextFacts.count_reads_snoc k k w w1 Hr).
  destruct (decide (k = k)); [lia | contradiction].
Qed.

Lemma json_keeps_formData (ctx : Context) (w : World) :
  count_reads ReadFormData (json ctx w).2 = count_reads ReadFormData w.
Proof.
  unfold json. destruct (_jsonCache w); cbn [snd]; [reflexivity |].
  apply (count_reads_other ReadFormData ReadJson w); [reflexivity | discriminate].
Qed.

Lemma text_keeps_formData (ctx : Context) (w : World) :
  count_reads ReadFormData (text ctx w).2 = count_reads ReadFormData w.
Proof.
  unfold text. destruct (_textCache w); cbn [snd]; [reflexivity |].
  apply (count_reads_other ReadFormData ReadText w); [reflexivity | discriminate].
Qed.

Lemma formData_ids_fresh (ctx : Context) (ops : list Read) :
  forall w i,
    (CallFormData, i) ∈ (calls ctx ops w).1 ->
    (length (reads w) <= i)%nat.
Proof.
  induction ops as [| op ops IH]; intros w i Hin.
  - inversion Hin.
  - rewrite ContextFacts.calls_cons in Hin. destruct op; cbn [fst snd] in Hin.
    + apply elem_of_cons in Hin as [[=] | Hin].
      pose proof (json_reads_length ctx w). specialize (IH _ _ Hin). lia.
    + apply elem_of_cons in Hin as [[=] | Hin].
      pose proof (text_reads_length ctx w). specialize (IH _ _ Hin). lia.
    + apply elem_of_cons in Hin as [[= ->] | Hin]; [cbn; lia |].
      specialize (IH _ _ Hin). cbn in IH. rewrite length_app in IH. cbn in IH. lia.
Qed.

(** X10.  [formData()] is not cached: over any sequence of body accessor
    calls, every [formData()] call reads the body again and returns a
    promise of its own. *)
Theorem formData_reads_every_time (ctx : Context) (ops : list Read) :
  forall w,
    count_reads ReadFormData (calls ctx ops w).2
    = (count_reads ReadFormData w
       + length (filter (fun op => op = CallFormData) ops))%nat
    /\ NoDup (filter (fun x : Read * nat => x.1 = CallFormData)
                     (calls ctx ops w).1).*2.
Proof.
  induction ops as [| op ops IH]; intros w.
  - cbn. split; [lia | constructor].
  - rewrite ContextFacts.calls_cons. destruct op; cbn [fst snd].
    + destruct (IH (json ctx w).2) as [Hn Hd].
      rewrite filter_cons_False by discriminate.
      rewrite filter_cons_False by (cbn; discriminate).
      split; [| exact Hd]. rewrite Hn, json_keeps_formData. reflexivity.
    + destruct (IH (text ctx w).2) as [Hn Hd].
      rewrite filter_cons_False by discriminate.
      rewrite filter_cons_False by (cbn; discriminate).
      split; [| exact Hd]. rewrite Hn, text_keeps_formData. reflexivity.
    + destruct (IH (formData ctx w).2) as [Hn Hd].
      rewrite filter_cons_True by reflexivity.
      rewrite filter_cons_True by reflexivity.
      split.
      * rewrite Hn. cbn [length].
        rewrite (count_reads_same ReadFormData w (formData ctx w).2 eq_refl).
        lia.
      * cbn [fmap list_fmap snd]. apply NoDup_cons. split; [| exact Hd].
        intros Hin. apply list_elem_of_fmap in Hin as ([op i] & Hi & Hin).
        apply list_elem_of_filter in Hin as [Hop Hin]. cbn in Hop, Hi. subst op.
        apply formData_ids_fresh in Hin. cbn in Hin. rewrite length_app in Hin.
        cbn in Hi, Hin. lia.
Qed.

(** [h.set] on an object of the heap. *)
Lemma Headers_set_contents (l : nat) (name value : string) (w : World) :
  (l < length (heap w))%nat ->
  Headers_get_all l (Headers_set l name value w)
  = <[toLowerCase name := value]> (Headers_get_all l w).
Proof.
  intros Hl. unfold Headers_set, Headers_get_all at 1. cbn [heap set_heap].
  rewrite list_lookup_insert_eq by exact Hl. reflexivity.
Qed.

(** X11.  A header that a middleware sets on [ctx.responseHeaders] before
    a builder is called is in the builder's response under its lower-case
    name, unless it is the builder's own header, which always wins:
    [respond.json] answers with the JSON content type and
    [respond.redirect] with its own [Location], whatever was set. *)
Theorem respond_after_set (b : Builder) (name value : string) (w : World) :
  (responseHeaders w < length (heap w))%nat ->
  let w1 := Headers_set (responseHeaders w) name value w in
  headers (respond b w1).1
  = overlay b (<[toLowerCase name := value]>
                 (Headers_get_all (responseHeaders w) w))
  /\ (forall data st,
        b = BuildJson data st ->
        headers (respond b w1).1 !! "content-type" = Some "application/json")
  /\ (forall to st,
        b = BuildRedirect to st ->
        headers (respond b w1).1 !! "location" = Some to)
  /\ (toLowerCase name <> "content-type" ->
      toLowerCase name <> "location" ->
      headers (respond b w1).1 !! toLowerCase name = Some value).
Proof.
  intros Hvalid w1.
  assert (Hh : headers (respond b w1).1
               = overlay b (<[toLowerCase name := value]>
                              (Headers_get_all (responseHeaders w) w))).
  { rewrite ContextFacts.respond_spec. cbn [fst headers].
    unfold w1. change (responseHeaders (Headers_set _ _ _ w)) with (responseHeaders w).
    rewrite Headers_set_contents by exact Hvalid. reflexivity. }
  split; [exact Hh |]. rewrite Hh. split; [| split].
  - intros data st ->. apply lookup_insert_eq.
  - intros to st ->. apply lookup_insert_eq.
  - intros Hct Hloc. destruct b; cbn [overlay];
      rewrite ?lookup_insert_ne by congruence; apply lookup_insert_eq.
Qed.

Lemma respond_after_set_witness :
  let w := (Headers_new ∅ Suite.emptyWorld).2 in
  headers (respond (BuildJson JNull None)
             (Headers_set 0 "CONTENT-TYPE" "text/html" w)).1 !! "content-type"
  = Some "application/json"
  /\ headers (respond BuildEmpty
                (Headers_set 0 "X-Custom" "middleware" w)).1 !! "x-custom"
     = Some "middleware".
Proof.
  intros w. split.
  - exact (proj1 (proj2 (respond_after_set (BuildJson JNull None)
                           "CONTENT-TYPE" "text/html" w (le_n 1)))
                 JNull None eq_refl).
  - refine (proj2 (proj2 (proj2 (respond_after_set BuildEmpty
                           "X-Custom" "middleware" w (le_n 1)))) _ _);
      discriminate.
Defined.

End ContextMore.

(** ** The lazy clients and the environment *)

Module ClientFacts.
Import Env Clients.

Lemma falsy_false (v : option string) :
  falsy v = false -> exists s, v = Some s /\ s <> "".
Proof.
  destruct v as [s |]; cbn; [| discriminate].
  destruct (String.eqb_spec s ""); [discriminate |]. intros _. eauto.
Qed.

(** What [getSupabaseEnv] returns comes from the environment. *)
Lemma getSupabaseEnv_Resolved (env : Environment) (e : SupabaseEnv) :
  getSupabaseEnv env = Resolved e ->
  env !! "SUPABASE_URL" = Some (url e) /\ url e <> ""
  /\ env !! "SUPABASE_ANON_KEY" = Some (anonKey e) /\ anonKey e <> ""
  /\ serviceRoleKey e = env !! "SUPABASE_SERVICE_ROLE_KEY".
Proof.
  unfold getSupabaseEnv.
  destruct (falsy (env !! "SUPABASE_URL")) eqn:Hu; [discriminate |].
  destruct (falsy (env !! "SUPABASE_ANON_KEY")) eqn:Hk; [discriminate |].
  apply falsy_false in Hu as (u & Hu & Hune).
  apply falsy_false in Hk as (k & Hk & Hkne).
  intros [= <-]. cbn. rewrite Hu, Hk. cbn. repeat split; assumption.
Qed.

(** A filled field stays filled, whichever getter is used. *)
Lemma access_keeps (ctx : Context) (a : Access) (c : State) :
  (forall cl, _supabase c = Some cl -> _supabase (access ctx a c).2 = Some cl)
  /\ (forall cl, _supabaseAdmin c = Some cl ->
                 _supabaseAdmin (access ctx a c).2 = Some cl).
Proof.
  destruct a as [env | env]; cbn [access]; unfold supabase, supabaseAdmin.
  - destruct (_supabase c) as [cl0 |] eqn:E; [split; intros; cbn; congruence |].
    destruct (getSupabaseEnv env) as [e | err]; cbn; split; intros; congruence.
  - destruct (_supabaseAdmin c) as [cl0 |] eqn:E; [split; intros; cbn; congruence |].
    destruct (getSupabaseEnv env) as [e | err]; [| cbn; split; intros; congruence].
    destruct (falsy (serviceRoleKey e)); cbn; split; intros; congruence.
Qed.

Lemma accesses_keep (ctx : Context) (l : list Access) :
  forall c,
    (forall cl, _supabase c = Some cl -> _supabase (accesses ctx l c) = Some cl)
    /\ (forall cl, _supabaseAdmin c = Some cl ->
                   _supabaseAdmin (accesses ctx l c) = Some cl).
Proof.
  induction l as [| a l IH]; intros c; cbn; [split; intros; assumption |].
  destruct (access_keeps ctx a c) as [H1 H2].
  destruct (IH (access ctx a c).2) as [I1 I2].
  split; intros cl Hc; [apply I1, H1 | apply I2, H2]; exact Hc.
Qed.

Lemma supabase_fills (env : Environment) (ctx : Context) (c : State) (cl : Client) :
  (supabase env ctx c).1 = Resolved cl ->
  _supabase (supabase env ctx c).2 = Some cl.
Proof.
  unfold supabase. destruct (_supabase c) as [cl0 |] eqn:E; cbn.
  - intros [= <-]. exact E.
  - destruct (getSupabaseEnv env) as [e | err]; cbn; [| discriminate].
    intros [= <-]. reflexivity.
Qed.

Lemma supabaseAdmin_fills (env : Environment) (c : State) (cl : Client) :
  (supabaseAdmin env c).1 = Resolved cl ->
  _supabaseAdmin (supabaseAdmin env c).2 = Some cl.
Proof.
  unfold supabaseAdmin. destruct (_supabaseAdmin c) as [cl0 |] eqn:E; cbn.
  - intros [= <-]. exact E.
  - destruct (getSupabaseEnv env) as [e | err]; cbn; [| discriminate].
    destruct (falsy (serviceRoleKey e)); cbn; [discriminate |].
    intros [= <-]. reflexivity.
Qed.

(** X12.  Once a getter has returned a client, every later access to it
    on the same context returns that very client and creates none,
    whatever the environment has become and whichever getters were used in
    between.  An access that throws leaves the context as it was, so it
    can succeed later. *)
Theorem clients_memoized (ctx : Context) (env : Environment) (c : State) :
  (forall cl l env',
      (supabase env ctx c).1 = Resolved cl ->
      let c' := accesses ctx l (supabase env ctx c).2 in
      supabase env' ctx c' = (Resolved cl, c'))
  /\ (forall cl l env',
        (supabaseAdmin env c).1 = Resolved cl ->
        let c' := accesses ctx l (supabaseAdmin env c).2 in
        supabaseAdmin env' c' = (Resolved cl, c'))
  /\ (forall e, (supabase env ctx c).1 = Rejected e -> (supabase env ctx c).2 = c)
  /\ (forall e, (supabaseAdmin env c).1 = Rejected e -> (supabaseAdmin env c).2 = c).
Proof.
  split; [| split; [| split]].
  - intros cl l env' Hr c'.
    assert (Hc : _supabase c' = Some cl)
      by (apply accesses_keep, supabase_fills; exact Hr).
    unfold supabase at 1. rewrite Hc. reflexivity.
  - intros cl l env' Hr c'.
    assert (Hc : _supabaseAdmin c' = Some cl)
      by (apply accesses_keep, supabaseAdmin_fills; exact Hr).
    unfold supabaseAdmin at 1. rewrite Hc. reflexivity.
  - intros e. unfold supabase. destruct (_supabase c); cbn; [discriminate |].
    destruct (getSupabaseEnv env); cbn; [discriminate | reflexivity].
  - intros e. unfold supabaseAdmin. destruct (_supabaseAdmin c); cbn; [discriminate |].
    destruct (getSupabaseEnv env) as [se |]; cbn; [| reflexivity].
    destruct (falsy (serviceRoleKey se)); cbn; [reflexivity | discriminate].
Qed.

Lemma clients_memoized_witness :
  let env := MockEnv.defaults in
  let ctx := (ContextImpl.new (Suite.requestTo "GET" "/") None Suite.emptyWorld).1 in
  supabase ∅ ctx (accesses ctx [GetSupabaseAdmin env; GetSupabase ∅]
                    (supabase env ctx empty).2)
  = (Resolved {| client_id := 0; client_url := "http://localhost:54321";
                 client_key := "test-anon-key";
                 client_authorization := Some "" |},
     accesses ctx [GetSupabaseAdmin env; GetSupabase ∅]
       (supabase env ctx empty).2)
  /\ (supabase ∅ ctx empty).2 = empty.
Proof.
  intros env ctx.
  destruct (clients_memoized ctx env empty) as (Hs & _ & _ & _).
  destruct (clients_memoized ctx ∅ empty) as (_ & _ & Hf & _).
  split.
  - exact (Hs _ [GetSupabaseAdmin env; GetSupabase ∅] ∅ eq_refl).
  - exact (Hf _ eq_refl).
Defined.

(** X13.  A client is only created from a complete environment, with the
    credentials of its kind: the client of [ctx.supabase] with the
    non-empty anon key and the [Authorization] header of the request (the
    empty string when there is none), the client of [ctx.supabaseAdmin]
    with the non-empty service role key and no request header.  Without a
    URL or an anon key both getters throw; without a service role key
    [supabaseAdmin] throws. *)
Theorem clients_credentials (ctx : Context) (env : Environment) (c : State) :
  (forall cl c',
      _supabase c = None ->
      supabase env ctx c = (Resolved cl, c') ->
      env !! "SUPABASE_URL" = Some (client_url cl)
      /\ env !! "SUPABASE_ANON_KEY" = Some (client_key cl)
      /\ client_key cl <> ""
      /\ client_authorization cl
         = Some (default "" (req_headers (request ctx) !! "authorization"))
      /\ client_id cl = created c)
  /\ (forall cl c',
        _supabaseAdmin c = None ->
        supabaseAdmin env c = (Resolved cl, c') ->
        env !! "SUPABASE_URL" = Some (client_url cl)
        /\ env !! "SUPABASE_SERVICE_ROLE_KEY" = Some (client_key cl)
        /\ client_key cl <> ""
        /\ client_authorization cl = None
        /\ client_id cl = created c)
  /\ (falsy (env !! "SUPABASE_URL") = true ->
      _supabase c = None -> _supabaseAdmin c = None ->
      (supabase env ctx c).1
      = Rejected (Error "Missing environment variable: SUPABASE_URL")
      /\ (supabaseAdmin env c).1
         = Rejected (Error "Missing environment variable: SUPABASE_URL"))
  /\ (falsy (env !! "SUPABASE_SERVICE_ROLE_KEY") = true ->
      _supabaseAdmin c = None ->
      exists e, (supabaseAdmin env c).1 = Rejected (Error e)).
Proof.
  split; [| split; [| split]].
  - intros cl c' Hnone. unfold supabase. rewrite Hnone.
    destruct (getSupabaseEnv env) as [e | err] eqn:He; [| discriminate].
    apply getSupabaseEnv_Resolved in He as (Hu & _ & Hk & Hkne & _).
    cbn. intros [= <- <-]. cbn. repeat split; assumption.
  - intros cl c' Hnone. unfold supabaseAdmin. rewrite Hnone.
    destruct (getSupabaseEnv env) as [e | err] eqn:He; [| discriminate].
    apply getSupabaseEnv_Resolved in He as (Hu & _ & _ & _ & Hs).
    destruct (falsy (serviceRoleKey e)) eqn:Hf; [discriminate |].
    apply falsy_false in Hf as (s & Hse & Hsne).
    cbn. intros [= <- <-]. cbn. rewrite Hse in *. cbn.
    repeat split; try assumption. symmetry. exact Hs.
  - intros Hf Hn1 Hn2. unfold supabase, supabaseAdmin, getSupabaseEnv.
    rewrite Hn1, Hn2, Hf. split; reflexivity.
  - intros Hf Hn. unfold supabaseAdmin. rewrite Hn.
    destruct (getSupabaseEnv env) as [e | [| msg |]] eqn:He.
    + apply getSupabaseEnv_Resolved in He as (_ & _ & _ & _ & Hs).
      rewrite Hs, Hf. cbn. eauto.
    + unfold getSupabaseEnv in He.
      destruct (falsy (env !! "SUPABASE_URL")); [discriminate |].
      destruct (falsy (env !! "SUPABASE_ANON_KEY")); discriminate.
    + cbn. eauto.
    + unfold getSupabaseEnv in He.
      destruct (falsy (env !! "SUPABASE_URL")); [discriminate |].
      destruct (falsy (env !! "SUPABASE_ANON_KEY")); discriminate.
Qed.

Lemma clients_credentials_witness :
  let ctx := (ContextImpl.new (Suite.requestTo "GET" "/") None Suite.emptyWorld).1 in
  (forall cl c',
      supabaseAdmin MockEnv.defaults empty = (Resolved cl, c') ->
      client_key cl = "test-service-role-key")
  /\ (supabaseAdmin (delete "SUPABASE_SERVICE_ROLE_KEY" MockEnv.defaults) empty).1
     = Rejected (Error "Missing environment variable: SUPABASE_SERVICE_ROLE_KEY").
Proof.
  intros ctx. split.
  - intros cl c' Hr.
    destruct (clients_credentials ctx MockEnv.defaults empty) as (_ & Ha & _ & _).
    destruct (Ha cl c' eq_refl Hr) as (_ & Hk & _).
    injection Hk as <-. reflexivity.
  - reflexivity.
Defined.

End ClientFacts.

(** ** The environment stub of the testing package *)

Module MockEnvFacts.
Import MockEnv.

Lemma foldl_stub (l : list (string * string)) :
  NoDup l.*1 ->
  forall env originals,
    let r := foldl stub (env, originals) l in
    (forall k v, (k, v) ∈ l -> r.1 !! k = Some v)
    /\ (forall k, k ∉ l.*1 -> r.1 !! k = env !! k)
    /\ (forall k, k ∈ l.*1 -> r.2 !! k = Some (env !! k))
    /\ (forall k, k ∉ l.*1 -> r.2 !! k = originals !! k).
Proof.
  induction l as [| [k0 v0] l IH]; intros Hnd env originals; cbn [foldl].
  - cbn. repeat split; try reflexivity; intros ? ? ; try intros ?;
      exfalso; eapply not_elem_of_nil; eassumption.
  - cbn [fmap list_fmap fst] in Hnd. apply NoDup_cons in Hnd as [Hfresh Hnd].
    cbn [stub].
    destruct (IH Hnd (<[k0 := v0]> env) (<[k0 := env !! k0]> originals))
      as (Ha & Hb & Hc & Hd).
    cbv zeta. split; [| split; [| split]].
    + intros k v Hin. apply elem_of_cons in Hin as [[= -> ->] | Hin].
      * rewrite (Hb k0 Hfresh). apply lookup_insert_eq.
      * apply Ha. exact Hin.
    + intros k Hk. cbn [fmap list_fmap fst] in Hk.
      apply not_elem_of_cons in Hk as [Hne Hk].
      rewrite (Hb k Hk). apply lookup_insert_ne. congruence.
    + intros k Hk. cbn [fmap list_fmap fst] in Hk.
      apply elem_of_cons in Hk as [-> | Hk].
      * rewrite (Hd k0 Hfresh). apply lookup_insert_eq.
      * rewrite (Hc k Hk). f_equal. apply lookup_insert_ne.
        intros ->. contradiction.
    + intros k Hk. cbn [fmap list_fmap fst] in Hk.
      apply not_elem_of_cons in Hk as [Hne Hk].
      rewrite (Hd k Hk). apply lookup_insert_ne. congruence.
Qed.

Lemma foldl_restore (l : list (string * option string)) :
  NoDup l.*1 ->
  forall env,
    (forall k original, (k, original) ∈ l -> foldl restore env l !! k = original)
    /\ (forall k, k ∉ l.*1 -> foldl restore env l !! k = env !! k).
Proof.
  induction l as [| [k0 o0] l IH]; intros Hnd env; cbn [foldl].
  - split; [intros k o Hin; inversion Hin | reflexivity].
  - cbn [fmap list_fmap fst] in Hnd. apply NoDup_cons in Hnd as [Hfresh Hnd].
    destruct (IH Hnd (restore env (k0, o0))) as [Ha Hb].
    split.
    + intros k o Hin. apply elem_of_cons in Hin as [[= -> ->] | Hin].
      * rewrite (Hb k0 Hfresh). cbn [restore].
        destruct o0; [apply lookup_insert_eq | apply lookup_delete_eq].
      * apply Ha. exact Hin.
    + intros k Hk. cbn [fmap list_fmap fst] in Hk.
      apply not_elem_of_cons in Hk as [Hne Hk].
      rewrite (Hb k Hk). cbn [restore].
      destruct o0; [apply lookup_insert_ne | apply lookup_delete_ne]; congruence.
Qed.

Lemma elem_of_keys (m : gmap string string) (k : string) :
  k ∈ (map_to_list m).*1 <-> is_Some (m !! k).
Proof.
  rewrite list_elem_of_fmap. split.
  - intros ([k' v] & -> & Hin). apply elem_of_map_to_list in Hin. eauto.
  - intros [v Hv]. exists (k, v). split; [reflexivity |].
    apply elem_of_map_to_list. exact Hv.
Qed.

(** What [mockEnv] leaves: the stubbed environment and the originals. *)
Lemma mockEnv_lookup (overrides : gmap string string) (env : Env.Environment)
    (k : string) :
  let merged := overrides ∪ defaults in
  (mockEnv overrides env).1 !! k = (merged ∪ env) !! k
  /\ (mockEnv overrides env).2 !! k
     = match merged !! k with
       | Some _ => Some (env !! k)
       | None => None
       end.
Proof.
  intros merged. unfold mockEnv. fold merged.
  destruct (foldl_stub (map_to_list merged) (NoDup_fst_map_to_list merged) env ∅)
    as (Ha & Hb & Hc & Hd).
  destruct (merged !! k) as [v |] eqn:E.
  - split.
    + rewrite (Ha k v) by (apply elem_of_map_to_list; exact E).
      symmetry. apply lookup_union_Some_l. exact E.
    + apply Hc. apply elem_of_keys. eauto.
  - assert (Hk : k ∉ (map_to_list merged).*1).
    { rewrite elem_of_keys, E. intros [? ?]; discriminate. }
    split.
    + rewrite (Hb k Hk). symmetry. rewrite lookup_union_r by exact E. reflexivity.
    + rewrite (Hd k Hk). apply lookup_empty.
Qed.

(** X14.  [mockEnv(overrides)] sets the three Supabase defaults and the
    overrides, overrides winning, and leaves every other variable alone.
    Its cleanup function gives each of these variables its original value
    back, removing those that were not set, whatever they hold when it
    runs, and touches no other variable: run right after [mockEnv] it
    restores the environment exactly. *)
Theorem mockEnv_cleanup_restores (overrides : gmap string string)
    (env : Env.Environment) :
  let merged := overrides ∪ defaults in
  let env' := (mockEnv overrides env).1 in
  let originals := (mockEnv overrides env).2 in
  env' = merged ∪ env
  /\ cleanup originals env' = env
  /\ forall (later : Env.Environment) (k : string),
       cleanup originals later !! k
       = match merged !! k with
         | Some _ => env !! k
         | None => later !! k
         end.
Proof.
  intros merged env' originals.
  assert (Henv : env' = merged ∪ env).
  { apply map_eq. intros k. apply mockEnv_lookup. }
  assert (Hclean : forall (later : Env.Environment) (k : string),
             cleanup originals later !! k
             = match merged !! k with
               | Some _ => env !! k
               | None => later !! k
               end).
  { intros later k. unfold cleanup.
    destruct (foldl_restore (map_to_list originals)
                (NoDup_fst_map_to_list originals) later) as [Ha Hb].
    pose proof (proj2 (mockEnv_lookup overrides env k)) as Ho.
    fold originals merged in Ho.
    destruct (merged !! k) as [v |].
    - apply Ha. apply elem_of_map_to_list. exact Ho.
    - apply Hb. rewrite list_elem_of_fmap. intros ([k' o] & -> & Hin).
      apply elem_of_map_to_list in Hin. cbn in Ho. congruence. }
  split; [exact Henv |]. split; [| exact Hclean].
  apply map_eq. intros k. rewrite Hclean, Henv.
  destruct (merged !! k) as [v |] eqn:E; [reflexivity |].
  rewrite lookup_union_r by exact E. reflexivity.
Qed.

(** After [mockEnv()] the environment is complete. *)
Example mockEnv_complete :
  Env.getSupabaseEnv (mockEnv ∅ ∅).1
  = Resolved {| Env.url := "http://localhost:54321";
                Env.anonKey := "test-anon-key";
                Env.serviceRoleKey := Some "test-service-role-key" |}.
Proof. reflexivity. Qed.

End MockEnvFacts.

(** ** The rate limiter *)

Module RateLimitFacts.
Import RateLimit.

Section Limiter.
Variable options : RateLimitOptions.

Abbreviation limit := (default 100 (max options)).
Abbreviation window := (default 60000 (windowMs options)).

(** What a request leaves in the closure, and whether it is passed on. *)
Lemma hit_spec (h : Hit) (l : Limiter) :
  let l1 := cleanup window (hit_now1 h) l in
  let entry := counted_entry options (hit_key options h) (hit_now2 h) l1 in
  store (frame_state (hit options h l)).2
  = <[hit_key options h := entry]> (store l1)
  /\ passes (hit options h l) = bool_decide (count entry <= limit).
Proof.
  cbv zeta. unfold hit, rateLimit, counted_entry, hit_key. cbv zeta.
  set (l1 := cleanup window (hit_now1 h) l).
  set (entry := {| count := _ + 1; resetAt := _ |}).
  destruct (Z.ltb_spec limit (count entry)) as [Hlt | Hge]; cbn [frame_state passes snd store].
  - split; [reflexivity |]. symmetry. apply bool_decide_eq_false. lia.
  - split; [reflexivity |]. symmetry. apply bool_decide_eq_true. lia.
Qed.

Lemma cleanup_lookup (now : Z) (l : Limiter) (k : string) (e : RateLimitEntry) :
  now < resetAt e ->
  store (cleanup window now l) !! k = Some e <-> store l !! k = Some e.
Proof.
  intros Hlive. unfold cleanup.
  destruct (now - lastCleanup l <? window); [reflexivity |].
  cbn [store]. rewrite map_lookup_filter_Some. cbn [snd].
  split; [intros [? ?]; assumption | intros ?; split; [assumption | lia]].
Qed.

(** An entry that has expired at [now] counts like no entry. *)
Lemma counted_entry_fresh (key : string) (now : Z) (l : Limiter) :
  (forall e, store l !! key = Some e -> resetAt e <= now) ->
  counted_entry options key now l = {| count := 1; resetAt := now + window |}.
Proof.
  intros Hdead. unfold counted_entry.
  destruct (store l !! key) as [e |] eqn:E; [| reflexivity].
  specialize (Hdead e eq_refl).
  destruct (Z.leb_spec (resetAt e) now); [reflexivity | lia].
Qed.

Lemma counted_entry_live (key : string) (now : Z) (l : Limiter)
    (e : RateLimitEntry) :
  store l !! key = Some e -> now < resetAt e ->
  counted_entry options key now l = {| count := count e + 1; resetAt := resetAt e |}.
Proof.
  intros E Hlive. unfold counted_entry. rewrite E.
  destruct (Z.leb_spec (resetAt e) now); [lia | reflexivity].
Qed.

(** The number of requests with key [k] among [hs]. *)
Abbreviation hits_of k hs :=
  (Z.of_nat (length (filter (fun h' => hit_key options h' = k) hs))).

(** While the entry of [k] is live, the requests with key [k] are counted
    one by one, whatever other requests come in between. *)
Lemma serve_window (k : string) (T : Z) (hs : list Hit) :
  Forall (fun h => hit_now1 h < T /\ hit_now2 h < T) hs ->
  forall (l : Limiter) (c : Z),
    store l !! k = Some {| count := c; resetAt := T |} ->
    forall (i : nat) (h : Hit),
      hs !! i = Some h ->
      hit_key options h = k ->
      (serve options hs l).1 !! i
      = Some (bool_decide (c + hits_of k (take (Datatypes.S i) hs) <= limit)).
Proof.
  induction 1 as [| h0 hs [H1 H2] Hall IH]; intros l c Hentry i h Hi Hk.
  - discriminate.
  - cbn [serve].
    destruct (hit_spec h0 l) as [Hstore Hpass]. cbv zeta in Hstore, Hpass.
    assert (Hclean : store (cleanup window (hit_now1 h0) l) !! k
                     = Some {| count := c; resetAt := T |}).
    { apply cleanup_lookup; [exact H1 | exact Hentry]. }
    destruct (serve options hs (frame_state (hit options h0 l)).2)
      as [verdicts l'] eqn:Es.
    cbn [fst]. destruct i as [| i].
    + injection Hi as <-. cbn [lookup list_lookup take].
      rewrite Hpass, Hk.
      rewrite (counted_entry_live k _ _ _ Hclean) by exact H2.
      cbn [count]. rewrite take_0.
      rewrite filter_cons_True by exact Hk. cbn [length filter].
      f_equal; try (apply bool_decide_ext; rewrite ?filter_nil; cbn [length]; lia).
    + cbn [lookup list_lookup] in Hi |- *.
      change verdicts with (verdicts, l').1. rewrite <- Es.
      destruct (decide (hit_key options h0 = k)) as [Hk0 | Hk0].
      * rewrite (IH _ (c + 1)) with (h := h); [| | exact Hi | exact Hk].
        -- f_equal. apply bool_decide_ext.
           cbn [take]. rewrite filter_cons_True by exact Hk0. cbn [length]. lia.
        -- rewrite Hstore, Hk0.
           rewrite (counted_entry_live k _ _ _ Hclean) by exact H2.
           apply lookup_insert_eq.
      * rewrite (IH _ c) with (h := h); [| | exact Hi | exact Hk].
        -- f_equal. apply bool_decide_ext.
           cbn [take]. rewrite filter_cons_False by exact Hk0. lia.
        -- rewrite Hstore. rewrite lookup_insert_ne by exact Hk0. exact Hclean.
Qed.

(** X15.  A request that finds no live entry for its key opens a window
    of [windowMs] from its clock reading.  Among the requests that arrive
    while the clock is before the end of that window, those with the same
    key are counted one by one, the opening one included and the rejected
    ones too, whatever requests with other keys come in between and
    whether or not the lazy cleanup runs: the [n]-th of them is passed on
    exactly when [n <= max], and the others are rejected. *)
Theorem window_admits_first_max (l : Limiter) (first : Hit) (rest : list Hit)
    (k : string) :
  let T := hit_now2 first + window in
  hit_key options first = k ->
  (forall e, store l !! k = Some e -> resetAt e <= hit_now2 first) ->
  Forall (fun h => hit_now1 h < T /\ hit_now2 h < T) rest ->
  forall (i : nat) (h : Hit),
    (first :: rest) !! i = Some h ->
    hit_key options h = k ->
    (serve options (first :: rest) l).1 !! i
    = Some (bool_decide
              (hits_of k (take (Datatypes.S i) (first :: rest)) <= limit)).
Proof.
  intros T Hk Hdead Hall i h Hi Hkh.
  cbn [serve].
  destruct (hit_spec first l) as [Hstore Hpass]. cbv zeta in Hstore, Hpass.
  assert (Hfresh : counted_entry options k (hit_now2 first)
                     (cleanup window (hit_now1 first) l)
                   = {| count := 1; resetAt := T |}).
  { apply counted_entry_fresh. intros e He.
    destruct (Z.le_gt_cases (resetAt e) (hit_now2 first)) as [Hle | Hgt];
      [exact Hle |].
    apply Hdead.
    unfold cleanup in He.
    destruct (hit_now1 first - lastCleanup l <? window); [exact He |].
    cbn [store] in He. apply map_lookup_filter_Some in He as [He _]. exact He. }
  rewrite Hk in Hstore, Hpass. rewrite Hfresh in Hstore, Hpass.
  destruct (serve options rest (frame_state (hit options first l)).2)
    as [verdicts l'] eqn:Es.
  cbn [fst]. destruct i as [| i].
  - cbn [lookup list_lookup take]. rewrite Hpass. cbn [count].
    rewrite take_0. rewrite filter_cons_True by exact Hk.
    rewrite filter_nil. reflexivity.
  - cbn [lookup list_lookup] in Hi |- *.
    change verdicts with (verdicts, l').1. rewrite <- Es.
    rewrite (serve_window k T rest Hall _ 1) with (h := h);
      [| rewrite Hstore; apply lookup_insert_eq | exact Hi | exact Hkh].
    f_equal. apply bool_decide_ext.
    cbn [take]. rewrite filter_cons_True by exact Hk. cbn [length]. lia.
Qed.

(** The entry a request counts on, and so its verdict and what it leaves,
    are the same from two closures that agree on their live entries. *)
Lemma hit_same_live (t : Z) (h : Hit) (l1 l2 : Limiter) :
  t <= hit_now1 h -> hit_now1 h <= hit_now2 h ->
  same_live t l1 l2 ->
  passes (hit options h l1) = passes (hit options h l2)
  /\ same_live (hit_now2 h) (frame_state (hit options h l1)).2
                            (frame_state (hit options h l2)).2.
Proof.
  intros Ht H12 Hsame.
  destruct (hit_spec h l1) as [Hs1 Hp1]. destruct (hit_spec h l2) as [Hs2 Hp2].
  cbv zeta in Hs1, Hp1, Hs2, Hp2.
  set (c1 := cleanup window (hit_now1 h) l1) in *.
  set (c2 := cleanup window (hit_now1 h) l2) in *.
  assert (Hc : same_live (hit_now2 h) c1 c2).
  { intros k e Hlive. unfold c1, c2.
    rewrite !cleanup_lookup by lia. apply Hsame. lia. }
  assert (He : counted_entry options (hit_key options h) (hit_now2 h) c1
               = counted_entry options (hit_key options h) (hit_now2 h) c2).
  { unfold counted_entry.
    destruct (store c1 !! hit_key options h) as [e1 |] eqn:E1;
      destruct (store c2 !! hit_key options h) as [e2 |] eqn:E2.
    - destruct (Z.leb_spec (resetAt e1) (hit_now2 h)) as [Hd1 | Hl1];
        destruct (Z.leb_spec (resetAt e2) (hit_now2 h)) as [Hd2 | Hl2].
      + reflexivity.
      + apply (Hc _ _ Hl2) in E2. rewrite E1 in E2. injection E2 as ->. lia.
      + apply (Hc _ _ Hl1) in E1. rewrite E2 in E1. injection E1 as ->. lia.
      + apply (Hc _ _ Hl1) in E1. rewrite E2 in E1. injection E1 as ->.
        reflexivity.
    - destruct (Z.leb_spec (resetAt e1) (hit_now2 h)) as [Hd1 | Hl1];
        [reflexivity |].
      apply (Hc _ _ Hl1) in E1. rewrite E2 in E1. discriminate.
    - destruct (Z.leb_spec (resetAt e2) (hit_now2 h)) as [Hd2 | Hl2];
        [reflexivity |].
      apply (Hc _ _ Hl2) in E2. rewrite E1 in E2. discriminate.
    - reflexivity. }
  split.
  - rewrite Hp1, Hp2, He. reflexivity.
  - intros k e Hlive. rewrite Hs1, Hs2, He.
    destruct (decide (hit_key options h = k)) as [-> | Hne].
    + rewrite !lookup_insert_eq. reflexivity.
    + rewrite !lookup_insert_ne by exact Hne. apply Hc. exact Hlive.
Qed.

Lemma serve_same_live (hs : list Hit) :
  forall (t : Z) (l1 l2 : Limiter),
    chronological t hs ->
    same_live t l1 l2 ->
    (serve options hs l1).1 = (serve options hs l2).1.
Proof.
  induction hs as [| h hs IH]; intros t l1 l2 Hchron Hsame; [reflexivity |].
  destruct Hchron as (Ht & H12 & Hchron).
  destruct (hit_same_live t h l1 l2 Ht H12 Hsame) as [Hp Hnext].
  cbn [serve]. specialize (IH _ _ _ Hchron Hnext).
  destruct (serve options hs (frame_state (hit options h l1)).2) as [v1 l1'].
  destruct (serve options hs (frame_state (hit options h l2)).2) as [v2 l2'].
  cbn [fst] in IH |- *. rewrite Hp, IH. reflexivity.
Qed.

(** X16.  While the clock does not go backwards, the lazy cleanup cannot
    be observed: which requests are passed on does not depend on when the
    store was last cleaned, nor on the expired entries it still holds. *)
Theorem cleanup_unobservable (t lastCleanup' : Z) (hs : list Hit)
    (l : Limiter) :
  chronological t hs ->
  (serve options hs l).1
  = (serve options hs
       {| store := filter (fun kv => ~ resetAt kv.2 <= t) (store l);
          lastCleanup := lastCleanup' |}).1.
Proof.
  intros Hchron. apply (serve_same_live hs t); [exact Hchron |].
  intros k e Hlive. cbn [store]. rewrite map_lookup_filter_Some. cbn [snd].
  split; [intros ?; split; [assumption | lia] | intros [? ?]; assumption].
Qed.

(** The headers a request leaves on its context. *)
Lemma hit_headers (h : Hit) (l : Limiter) :
  (responseHeaders (hit_world h) < length (heap (hit_world h)))%nat ->
  let l1 := cleanup window (hit_now1 h) l in
  let entry := counted_entry options (hit_key options h) (hit_now2 h) l1 in
  let sent := Headers_get_all (responseHeaders (hit_world h))
                (frame_state (hit options h l)).1 in
  sent !! "x-ratelimit-limit" = Some (String_of limit)
  /\ sent !! "x-ratelimit-remaining"
     = Some (String_of (Z.max 0 (limit - count entry)))
  /\ sent !! "x-ratelimit-reset"
     = Some (String_of (ceil_div (resetAt entry) 1000)).
Proof.
  intros Hl. cbv zeta.
  unfold hit, rateLimit, counted_entry, hit_key. cbv zeta.
  set (l1 := cleanup window (hit_now1 h) l).
  set (entry := {| count := _ + 1; resetAt := _ |}).
  set (w := hit_world h) in *.
  assert (Hset : forall name value (w0 : World),
             (responseHeaders w0 < length (heap w0))%nat ->
             responseHeaders (Headers_set (responseHeaders w0) name value w0)
             = responseHeaders w0
             /\ (responseHeaders w0
                 < length (heap (Headers_set (responseHeaders w0) name value w0)))%nat).
  { intros name value w0 H0. split; [reflexivity |].
    unfold Headers_set. cbn [heap set_heap]. rewrite length_insert. exact H0. }
  set (w1 := Headers_set (responseHeaders w) "X-RateLimit-Limit" _ w).
  destruct (Hset "X-RateLimit-Limit" (String_of limit) w Hl) as [Hp1 Hl1].
  fold w1 in Hp1, Hl1.
  set (w2 := Headers_set (responseHeaders w1) "X-RateLimit-Remaining" _ w1).
  destruct (Hset "X-RateLimit-Remaining"
              (String_of (Z.max 0 (limit - count entry))) w1 Hl1) as [Hp2 Hl2].
  fold w2 in Hp2, Hl2.
  set (w3 := Headers_set (responseHeaders w2) "X-RateLimit-Reset" _ w2).
  assert (Hsent : Headers_get_all (responseHeaders w) w3
                  = <["x-ratelimit-reset" := String_of (ceil_div (resetAt entry) 1000)]>
                      (<["x-ratelimit-remaining" :=
                           String_of (Z.max 0 (limit - count entry))]>
                         (<["x-ratelimit-limit" := String_of limit]>
                            (Headers_get_all (responseHeaders w) w)))).
  { unfold w3. rewrite Hp2, Hp1.
    rewrite ContextMore.Headers_set_contents by (rewrite <- Hp1; exact Hl2).
    unfold w2. rewrite Hp1.
    rewrite ContextMore.Headers_set_contents by exact Hl1.
    unfold w1. rewrite ContextMore.Headers_set_contents by exact Hl.
    reflexivity. }
  destruct (limit <? count entry); cbn [frame_state fst]; rewrite Hsent;
    (split; [| split]);
    repeat (rewrite lookup_insert_ne by discriminate);
    apply lookup_insert_eq.
Qed.

(** The entry of [k] after the requests [hs], all inside its window. *)
Lemma serve_store (k : string) (T : Z) (hs : list Hit) :
  Forall (fun h => hit_now1 h < T /\ hit_now2 h < T) hs ->
  forall (l : Limiter) (c : Z),
    store l !! k = Some {| count := c; resetAt := T |} ->
    store (serve options hs l).2 !! k
    = Some {| count := c + hits_of k hs; resetAt := T |}.
Proof.
  induction 1 as [| h0 hs [H1 H2] Hall IH]; intros l c Hentry.
  - cbn [serve snd filter length]. rewrite filter_nil. cbn [length].
    rewrite Z.add_0_r. exact Hentry.
  - cbn [serve].
    destruct (hit_spec h0 l) as [Hstore _]. cbv zeta in Hstore.
    assert (Hclean : store (cleanup window (hit_now1 h0) l) !! k
                     = Some {| count := c; resetAt := T |}).
    { apply cleanup_lookup; [exact H1 | exact Hentry]. }
    destruct (serve options hs (frame_state (hit options h0 l)).2)
      as [verdicts l'] eqn:Es.
    cbn [snd]. change l' with (verdicts, l').2. rewrite <- Es.
    destruct (decide (hit_key options h0 = k)) as [Hk0 | Hk0].
    + rewrite (IH _ (c + 1)).
      * rewrite filter_cons_True by exact Hk0. cbn [length].
        f_equal. f_equal. lia.
      * rewrite Hstore, Hk0.
        rewrite (counted_entry_live k _ _ _ Hclean) by exact H2.
        apply lookup_insert_eq.
    + rewrite (IH _ c).
      * rewrite filter_cons_False by exact Hk0. reflexivity.
      * rewrite Hstore. rewrite lookup_insert_ne by exact Hk0. exact Hclean.
Qed.

(** X25.  In the window that a request opens for its key, the [n]-th
    request with that key leaves on its context [X-RateLimit-Limit] with
    [max], [X-RateLimit-Remaining] with [max - n], or 0 once [n] exceeds
    [max], and [X-RateLimit-Reset] with the end of the window in seconds,
    rounded up; a rejected request carries them too. *)
Theorem window_headers (l : Limiter) (first : Hit) (rest : list Hit)
    (k : string) :
  let T := hit_now2 first + window in
  hit_key options first = k ->
  (forall e, store l !! k = Some e -> resetAt e <= hit_now2 first) ->
  Forall (fun h => hit_now1 h < T /\ hit_now2 h < T) rest ->
  forall (i : nat) (h : Hit),
    (first :: rest) !! i = Some h ->
    hit_key options h = k ->
    (responseHeaders (hit_world h) < length (heap (hit_world h)))%nat ->
    let before := (serve options (take i (first :: rest)) l).2 in
    let sent := Headers_get_all (responseHeaders (hit_world h))
                  (frame_state (hit options h before)).1 in
    let n := hits_of k (take (Datatypes.S i) (first :: rest)) in
    sent !! "x-ratelimit-limit" = Some (String_of limit)
    /\ sent !! "x-ratelimit-remaining" = Some (String_of (Z.max 0 (limit - n)))
    /\ sent !! "x-ratelimit-reset" = Some (String_of (ceil_div T 1000)).
Proof.
  intros T Hk Hdead Hall i h Hi Hkh Hl before sent n.
  destruct (hit_headers h before Hl) as (Hlimit & Hremaining & Hreset).
  cbv zeta in Hlimit, Hremaining, Hreset. fold sent in Hlimit, Hremaining, Hreset.
  assert (Hentry : counted_entry options (hit_key options h) (hit_now2 h)
                     (cleanup window (hit_now1 h) before)
                   = {| count := n; resetAt := T |}).
  { destruct i as [| i].
    - injection Hi as <-. subst before n. cbn [take serve snd].
      rewrite take_0, filter_cons_True by exact Hk.
      rewrite filter_nil. cbn [length]. rewrite Hk.
      apply counted_entry_fresh. intros e He.
      destruct (Z.le_gt_cases (resetAt e) (hit_now2 first)) as [Hle | Hgt];
        [exact Hle |].
      apply Hdead. unfold cleanup in He.
      destruct (hit_now1 first - lastCleanup l <? window); [exact He |].
      cbn [store] in He. apply map_lookup_filter_Some in He as [He _]. exact He.
    - cbn [lookup list_lookup] in Hi.
      assert (Hin : hit_now1 h < T /\ hit_now2 h < T).
      { rewrite Forall_forall in Hall. apply Hall.
        eapply list_elem_of_lookup_2. exact Hi. }
      assert (Hbefore : store before !! k
                        = Some {| count := 1 + hits_of k (take i rest);
                                  resetAt := T |}).
      { subst before. cbn [take serve].
        destruct (hit_spec first l) as [Hstore _]. cbv zeta in Hstore.
        destruct (serve options (take i rest)
                    (frame_state (hit options first l)).2)
          as [verdicts l'] eqn:Es.
        cbn [snd]. change l' with (verdicts, l').2. rewrite <- Es.
        apply serve_store; [apply Forall_take; exact Hall |].
        rewrite Hstore, Hk.
        rewrite counted_entry_fresh; [apply lookup_insert_eq |].
        intros e He.
        destruct (Z.le_gt_cases (resetAt e) (hit_now2 first)) as [Hle | Hgt];
          [exact Hle |].
        apply Hdead. unfold cleanup in He.
        destruct (hit_now1 first - lastCleanup l <? window); [exact He |].
        cbn [store] in He. apply map_lookup_filter_Some in He as [He _].
        exact He. }
      rewrite Hkh.
      rewrite (counted_entry_live k (hit_now2 h) _
                 {| count := 1 + hits_of k (take i rest); resetAt := T |});
        [| apply cleanup_lookup; [exact (proj1 Hin) | exact Hbefore]
         | exact (proj2 Hin)].
      cbn [count resetAt]. f_equal. subst n. cbn [take].
      rewrite filter_cons_True by exact Hk. cbn [length].
      rewrite (take_S_r rest i h Hi), filter_app, length_app.
      rewrite filter_cons_True by exact Hkh. rewrite filter_nil. cbn [length].
      lia. }
  rewrite Hentry in Hremaining, Hreset. cbn [count resetAt] in Hremaining, Hreset.
  split; [exact Hlimit |]. split; [exact Hremaining | exact Hreset].
Qed.

End Limiter.

Lemma window_headers_witness :
  let options := {| max := Some 2; windowMs := None; keyFn := None |} in
  let req := Suite.requestTo "GET" "/" in
  let ctx := (ContextImpl.new req None Suite.emptyWorld).1 in
  let h (t : Z) := {| hit_ctx := ctx;
                      hit_world := (ContextImpl.new req None Suite.emptyWorld).2;
                      hit_now1 := t; hit_now2 := t |} in
  let before := (serve options [h 1000; h 2000] (new 0)).2 in
  Headers_get_all 0%nat (frame_state (hit options (h 3000) before)).1
    !! "x-ratelimit-remaining" = Some "0".
Proof.
  intros options req ctx h before.
  assert (Hdead : forall e, store (new 0) !! "unknown" = Some e ->
                            resetAt e <= hit_now2 (h 1000)).
  { intros e He. discriminate He. }
  assert (Hall : Forall (fun x => hit_now1 x < hit_now2 (h 1000) + 60000
                                  /\ hit_now2 x < hit_now2 (h 1000) + 60000)
                        [h 2000; h 3000]).
  { repeat constructor; cbn; lia. }
  assert (Hl : (responseHeaders (hit_world (h 3000%Z))
                < length (heap (hit_world (h 3000%Z))))%nat).
  { cbn. lia. }
  exact (proj1 (proj2
           (window_headers options (new 0) (h 1000) [h 2000; h 3000] "unknown"
              eq_refl Hdead Hall 2%nat (h 3000) eq_refl eq_refl Hl))).
Defined.

Lemma window_admits_first_max_witness :
  let options := {| max := Some 2; windowMs := None; keyFn := None |} in
  let ctx := (ContextImpl.new (Suite.requestTo "GET" "/") None Suite.emptyWorld).1 in
  let h (t : Z) := {| hit_ctx := ctx; hit_world := Suite.emptyWorld;
                      hit_now1 := t; hit_now2 := t |} in
  (serve options [h 1000; h 2000; h 3000] (new 0)).1 !! 2%nat = Some false.
Proof.
  intros options ctx h.
  refine (window_admits_first_max options (new 0) (h 1000) [h 2000; h 3000]
            "unknown" eq_refl _ _ 2%nat (h 3000) eq_refl eq_refl).
  - intros e He. discriminate He.
  - repeat constructor; cbn; lia.
Defined.

Lemma cleanup_unobservable_witness :
  let options := {| max := Some 1; windowMs := Some 10; keyFn := None |} in
  let ctx := (ContextImpl.new (Suite.requestTo "GET" "/") None Suite.emptyWorld).1 in
  let h (t : Z) := {| hit_ctx := ctx; hit_world := Suite.emptyWorld;
                      hit_now1 := t; hit_now2 := t |} in
  (serve options [h 5; h 6; h 20] (new 0)).1
  = (serve options [h 5; h 6; h 20] (new 5)).1.
Proof.
  intros options ctx h.
  apply (cleanup_unobservable options 5 5 [h 5; h 6; h 20] (new 0)).
  cbn. lia.
Defined.

(** [rate_limit_test.ts], "blocks requests over limit": with [max: 2] the
    third request of a client is rejected with status 429. *)
Example rateLimit_blocks_third :
  let options := {| max := Some 2; windowMs := Some 60000; keyFn := None |} in
  let ctx := (ContextImpl.new (Suite.requestTo "GET" "/") None Suite.emptyWorld).1 in
  let h (t : Z) := {| hit_ctx := ctx; hit_world := Suite.emptyWorld;
                      hit_now1 := t; hit_now2 := t |} in
  (serve options [h 1; h 2; h 3] (new 0)).1 = [true; true; false].
Proof. vm_compute. reflexivity. Qed.

End RateLimitFacts.

(** ** A chain with a known first middleware *)

Module HeadFacts.
Import Compose.

Section Head.
Context {Ctx S R : Type}.
Variable ctx : Ctx.
Variable finalNext : Compose.Next S R.

Abbreviation Middleware := (Compose.Middleware Ctx S R).

Lemma run_shift (d : Z) (c1 c2 : Compose.Continuation S R)
    (f : Compose.Frame S R) :
  (forall index s,
      c2 (index + d) s = let '(o, index', s') := c1 index s in (o, index' + d, s')) ->
  forall index,
    run c2 f (index + d)
    = let '(o, index', s') := run c1 f index in (o, index' + d, s').
Proof.
  intros Hc. induction f as [o s | s k IH]; intros index; cbn [run].
  - reflexivity.
  - rewrite Hc. destruct (c1 index s) as [[o index'] s']. apply IH.
Qed.

(** Where a chain sits in the list only shifts the cursor. *)
Lemma dispatch_from_shift (d : Z) (rest : list Middleware) :
  forall i index s,
    dispatch_from ctx finalNext rest (i + d) (index + d) s
    = let '(o, index', s') := dispatch_from ctx finalNext rest i index s in
      (o, index' + d, s').
Proof.
  induction rest as [| m rest IH]; intros i index s; cbn [dispatch_from].
  - destruct (Z.leb_spec (i + d) (index + d)); destruct (Z.leb_spec i index);
      try lia; [reflexivity |].
    destruct (finalNext s) as [o s']. reflexivity.
  - destruct (Z.leb_spec (i + d) (index + d)); destruct (Z.leb_spec i index);
      try lia; [reflexivity |].
    apply run_shift. intros j t.
    replace (i + d + 1) with (i + 1 + d) by lia. apply IH.
Qed.

(** The chain behind the first middleware, as its [next()]. *)
Lemma dispatch_from_tail (rest : list Middleware) (s : S) :
  dispatch_from ctx finalNext rest 1 0 s
  = let '(o, s') := composed ctx finalNext rest s in
    (o, (dispatch_from ctx finalNext rest 1 0 s).1.2, s').
Proof.
  unfold composed, dispatch. change (Z.to_nat 0) with 0%nat. rewrite drop_0.
  pose proof (dispatch_from_shift 1 rest 0 (-1) s) as Hshift.
  change (0 + 1) with 1 in Hshift. change (-1 + 1) with 0 in Hshift.
  rewrite Hshift.
  destruct (dispatch_from ctx finalNext rest 0 (-1) s) as [[o index'] s'].
  reflexivity.
Qed.

(** A first middleware that settles on its own. *)
Lemma composed_head_return (m : Middleware) (rest : list Middleware)
    (s s1 : S) (o : Outcome R) :
  m ctx s = Return o s1 ->
  composed ctx finalNext (m :: rest) s = (o, s1).
Proof.
  intros Hm. unfold composed, dispatch. change (Z.to_nat 0) with 0%nat.
  rewrite drop_0. cbn [dispatch_from]. change (0 <=? -1) with false. cbv iota.
  rewrite Hm. reflexivity.
Qed.

(** A first middleware that runs [return await next()]. *)
Lemma composed_head_next (m : Middleware) (rest : list Middleware)
    (s s1 : S) :
  m ctx s = CallNext s1 (fun o s' => Return o s') ->
  composed ctx finalNext (m :: rest) s = composed ctx finalNext rest s1.
Proof.
  intros Hm. unfold composed at 1, dispatch. change (Z.to_nat 0) with 0%nat.
  rewrite drop_0. cbn [dispatch_from]. change (0 <=? -1) with false. cbv iota.
  rewrite Hm. cbn [run]. change (0 + 1) with 1.
  rewrite dispatch_from_tail.
  destruct (composed ctx finalNext rest s1) as [o s']. reflexivity.
Qed.

(** A first middleware that settles after one [next()]. *)
Lemma composed_head_call (m : Middleware) (rest : list Middleware)
    (s s1 s2 s3 : S) (k : Outcome R -> S -> Compose.Frame S R)
    (o o' : Outcome R) :
  m ctx s = CallNext s1 k ->
  composed ctx finalNext rest s1 = (o, s2) ->
  k o s2 = Return o' s3 ->
  composed ctx finalNext (m :: rest) s = (o', s3).
Proof.
  intros Hm Hrest Hk. unfold composed at 1, dispatch.
  change (Z.to_nat 0) with 0%nat.
  rewrite drop_0. cbn [dispatch_from]. change (0 <=? -1) with false. cbv iota.
  rewrite Hm. cbn [run]. change (0 + 1) with 1.
  rewrite dispatch_from_tail. rewrite Hrest. rewrite Hk. reflexivity.
Qed.

(** A first middleware that, when its [next()] is rejected with [e], runs
    [return await next()] once more. *)
Lemma composed_head_again (m : Middleware) (rest : list Middleware)
    (s s1 s2 : S) (k : Outcome R -> S -> Compose.Frame S R) (e : Thrown) :
  m ctx s = CallNext s1 k ->
  composed ctx finalNext rest s1 = (Rejected e, s2) ->
  k (Rejected e) s2 = CallNext s2 (fun o s' => Return o s') ->
  composed ctx finalNext (m :: rest) s = (Rejected MultipleNextError, s2).
Proof.
  intros Hm Hrest Hk. unfold composed at 1, dispatch.
  change (Z.to_nat 0) with 0%nat.
  rewrite drop_0. cbn [dispatch_from]. change (0 <=? -1) with false. cbv iota.
  rewrite Hm. cbn [run]. change (0 + 1) with 1.
  pose proof (ComposeFacts.dispatch_from_cursor ctx finalNext rest 1 0 s1) as Hc.
  cbv zeta in Hc.
  rewrite dispatch_from_tail in Hc |- *. rewrite Hrest in Hc |- *.
  cbn [fst snd] in Hc. rewrite Hk. cbn [run].
  rewrite ComposeFacts.dispatch_from_guard by lia. reflexivity.
Qed.

End Head.
End HeadFacts.

(** ** CORS *)

Module CorsFacts.
Import Cors SupaEdgeApp.

(** A change to the contents of the object at [l]. *)
Lemma set_heap_twice (h1 h2 : list Headers) (w : World) :
  set_heap h2 (set_heap h1 w) = set_heap h2 w.
Proof. reflexivity. Qed.

Lemma Headers_set_spec (l : nat) (name value : string) (w : World) (h : Headers) :
  (l < length (heap w))%nat ->
  Headers_get_all l w = h ->
  Headers_set l name value w
  = set_heap (<[l := <[toLowerCase name := value]> h]> (heap w)) w.
Proof. intros _ <-. reflexivity. Qed.

Lemma Headers_get_all_insert (l : nat) (h : Headers) (hp : list Headers)
    (w : World) :
  (l < length hp)%nat ->
  Headers_get_all l (set_heap (<[l := h]> hp) w) = h.
Proof.
  intros Hl. unfold Headers_get_all. cbn [heap set_heap].
  rewrite list_lookup_insert_eq by exact Hl. reflexivity.
Qed.

Lemma setCorsHeaders_at (options : CorsOptions) (l : nat)
    (requestOrigin : option string) (hp : list Headers) (h : Headers)
    (w : World) :
  (l < length hp)%nat ->
  setCorsHeaders options l requestOrigin (set_heap (<[l := h]> hp) w)
  = set_heap (<[l := corsContents options requestOrigin h]> hp) w.
Proof.
  intros Hl.
  assert (Hstep : forall (h : Headers) name value,
             Headers_set l name value (set_heap (<[l := h]> hp) w)
             = set_heap (<[l := <[toLowerCase name := value]> h]> hp) w).
  { intros h' name value. unfold Headers_set.
    rewrite Headers_get_all_insert by exact Hl.
    cbn [heap set_heap]. rewrite list_insert_insert_eq. reflexivity. }
  assert (Happ : forall (h : Headers) name value,
             Headers_append l name value (set_heap (<[l := h]> hp) w)
             = set_heap (<[l := <[toLowerCase name :=
                                    match h !! toLowerCase name with
                                    | Some old => (old ++ ", " ++ value)%string
                                    | None => value
                                    end]> h]> hp) w).
  { intros h' name value. unfold Headers_append. cbv zeta.
    rewrite Headers_get_all_insert by exact Hl.
    cbn [heap set_heap]. rewrite list_insert_insert_eq. reflexivity. }
  unfold setCorsHeaders, corsContents. cbv zeta.
  destruct (negb (String.eqb (resolveOrigin options requestOrigin) ""));
    rewrite ?Hstep;
    destruct (default false (credentials options)); rewrite ?Hstep;
    destruct (0 <? length (default [] (exposedHeaders options)))%nat;
    rewrite ?Hstep;
    destruct (default (OriginString "*") (origin options)) as [s | ? | ?];
    try destruct (String.eqb s "*"); cbn [andb]; rewrite ?Happ; reflexivity.
Qed.

(** [setCorsHeaders] changes the object it is given, and nothing else. *)
Lemma setCorsHeaders_spec (options : CorsOptions) (l : nat)
    (requestOrigin : option string) (w : World) :
  (l < length (heap w))%nat ->
  setCorsHeaders options l requestOrigin w
  = set_heap (<[l := corsContents options requestOrigin (Headers_get_all l w)]>
                (heap w)) w.
Proof.
  intros Hl.
  assert (Hid : w = set_heap (<[l := Headers_get_all l w]> (heap w)) w).
  { destruct w as [hp ? ? ? ? ? ? ?]. unfold set_heap, Headers_get_all.
    cbn [heap] in *. f_equal.
    destruct (lookup_lt_is_Some_2 hp l Hl) as [x Hx]. rewrite Hx. cbn.
    symmetry. apply list_insert_id. exact Hx. }
  transitivity (setCorsHeaders options l requestOrigin
                  (set_heap (<[l := Headers_get_all l w]> (heap w)) w)).
  - f_equal. exact Hid.
  - apply setCorsHeaders_at. exact Hl.
Qed.

Lemma setCorsHeaders_contents (options : CorsOptions)
    (requestOrigin : option string) (w : World) :
  (responseHeaders w < length (heap w))%nat ->
  let w1 := setCorsHeaders options (responseHeaders w) requestOrigin w in
  responseHeaders w1 = responseHeaders w
  /\ Headers_get_all (responseHeaders w) w1
     = corsContents options requestOrigin (Headers_get_all (responseHeaders w) w).
Proof.
  intros Hl. cbv zeta. rewrite setCorsHeaders_spec by exact Hl.
  split; [reflexivity |]. apply Headers_get_all_insert. exact Hl.
Qed.

(** The origin that [setCorsHeaders] names. *)
Lemma corsContents_allow_origin (options : CorsOptions)
    (requestOrigin : option string) (h : Headers) :
  corsContents options requestOrigin h !! "access-control-allow-origin"
  = if negb (String.eqb (resolveOrigin options requestOrigin) "")
    then Some (resolveOrigin options requestOrigin)
    else h !! "access-control-allow-origin".
Proof.
  unfold corsContents. cbv zeta.
  destruct (negb (String.eqb (resolveOrigin options requestOrigin) ""));
    destruct (default false (credentials options));
    destruct (0 <? length (default [] (exposedHeaders options)))%nat;
    destruct (default (OriginString "*") (origin options)) as [s | ? | ?];
    try destruct (String.eqb s "*"); cbn [andb];
    repeat (rewrite lookup_insert_ne by discriminate);
    rewrite ?lookup_insert_eq; reflexivity.
Qed.

(** With a list of allowed origins, the origin named is the request's,
    and it is on the list. *)
Lemma resolveOrigin_array (options : CorsOptions) (allowed : list string)
    (requestOrigin : option string) :
  origin options = Some (OriginArray allowed) ->
  resolveOrigin options requestOrigin <> "" ->
  requestOrigin = Some (resolveOrigin options requestOrigin)
  /\ resolveOrigin options requestOrigin ∈ allowed.
Proof.
  intros Ho. unfold resolveOrigin. rewrite Ho.
  change (default (OriginString "*") (Some (OriginArray allowed)))
    with (OriginArray allowed). cbv beta iota zeta.
  destruct requestOrigin as [o |]; [| intros Hne; exfalso; apply Hne; reflexivity].
  destruct (negb (String.eqb o "")); cbn [andb]; [| intros Hne; exfalso; apply Hne; reflexivity].
  destruct (bool_decide_reflect (o ∈ allowed)) as [Hin | Hout];
    [| intros Hne; exfalso; apply Hne; reflexivity].
  intros _. split; [reflexivity | exact Hin].
Qed.

(** The answer to a preflight request. *)
Lemma cors_preflight_frame (options : CorsOptions) (ctx : Context) (w : World) :
  method ctx = "OPTIONS" ->
  (responseHeaders w < length (heap w))%nat ->
  exists w',
    cors options ctx w
    = Compose.Return
        (Resolved
           {| status := 204;
              headers :=
                preflightContents options
                  (corsContents options (req_headers (request ctx) !! "origin")
                     (Headers_get_all (responseHeaders w) w));
              body := NullBody |}) w'.
Proof.
  intros Hm Hl. unfold cors. cbv zeta. rewrite Hm.
  change (String.eqb "OPTIONS" "OPTIONS") with true. cbv iota.
  destruct (setCorsHeaders_contents options
              (req_headers (request ctx) !! "origin") w Hl) as [Hptr Hc].
  cbv zeta in Hptr, Hc.
  set (w1 := setCorsHeaders options (responseHeaders w)
               (req_headers (request ctx) !! "origin") w) in *.
  unfold Headers_copy, Headers_new. cbv beta iota zeta.
  rewrite !ContextFacts.Headers_set_fresh.
  unfold Response_new. rewrite ContextFacts.Headers_get_all_fresh.
  rewrite Hptr, Hc. eexists. reflexivity.
Qed.

(** Any other request is passed on with the headers set. *)
Lemma cors_passes_on (options : CorsOptions) (ctx : Context) (w : World) :
  method ctx <> "OPTIONS" ->
  cors options ctx w
  = Compose.CallNext
      (setCorsHeaders options (responseHeaders w)
         (req_headers (request ctx) !! "origin") w)
      (fun o w' => Compose.Return o w').
Proof.
  intros Hm. unfold cors. cbv zeta.
  destruct (String.eqb_spec (method ctx) "OPTIONS"); [contradiction | reflexivity].
Qed.

Lemma new_context (req : Request) (w : World) :
  let ctx := (ContextImpl.new req None w).1 in
  let w1 := (ContextImpl.new req None w).2 in
  request ctx = req /\ method ctx = req_method req
  /\ (responseHeaders w1 < length (heap w1))%nat
  /\ Headers_get_all (responseHeaders w1) w1 = ∅.
Proof.
  unfold ContextImpl.new, Headers_new. cbn [fst snd request method].
  split; [reflexivity |]. split; [reflexivity |].
  cbn [responseHeaders heap set_textCache set_jsonCache set_responseHeaders
       set_params set_heap].
  split; [rewrite length_app; cbn [length]; lia |].
  unfold Headers_get_all.
  cbn [responseHeaders heap set_textCache set_jsonCache set_responseHeaders
       set_params set_heap].
  rewrite (list_lookup_middle (heap w) [] ∅) by reflexivity. reflexivity.
Qed.

(** X17.  With [cors(options)] as the first global middleware, an
    [OPTIONS] request whose URL resolves is answered by [cors] alone,
    whatever routes and other middleware are registered and whether or not
    a route matches: status 204, no body, and the CORS headers of the
    request's origin with [Access-Control-Allow-Methods],
    [Access-Control-Allow-Headers] and [Access-Control-Max-Age] laid over
    them. *)
Theorem preflight_answered_by_cors (P : URLPatternAPI) (R : Runtime) (app : App)
    (options : CorsOptions) (gs : list Middleware) (req : Request)
    (w : World) (u : URL) :
  globalMiddlewares app = cors options :: gs ->
  req_method req = "OPTIONS" ->
  resolveUrl (SupaEdgeApp.options app) req = Resolved u ->
  (handler app req w).1
  = Resolved
      {| status := 204;
         headers :=
           preflightContents options
             (corsContents options (req_headers req !! "origin") ∅);
         body := NullBody |}.
Proof.
  intros Hg Hm Hu. rewrite AppFacts.handler_unfold. cbv zeta.
  rewrite Hm. change (String.eqb "OPTIONS" "HEAD") with false. cbv iota.
  destruct (new_context req w) as (Hreq & Hmeth & Hl & Hempty).
  cbv zeta in Hreq, Hmeth, Hl, Hempty.
  set (ctx := (ContextImpl.new req None w).1) in *.
  set (w1 := (ContextImpl.new req None w).2) in *.
  rewrite Hm in Hmeth.
  unfold respondTo, dispatchRequest. rewrite Hu, Hg.
  destruct (Router.match_ (router app) (req_method req) u) as [[route ps] |].
  - destruct (cors_preflight_frame options ctx (set_params ps w1) Hmeth Hl)
      as [w' Hf].
    rewrite <- app_comm_cons.
    rewrite (HeadFacts.composed_head_return ctx _ _ _ _ _ _ Hf).
    cbn [fst]. rewrite Hreq. f_equal. f_equal. f_equal. f_equal. exact Hempty.
  - destruct (cors_preflight_frame options ctx w1 Hmeth Hl) as [w' Hf].
    rewrite (HeadFacts.composed_head_return ctx _ _ _ _ _ _ Hf).
    cbn [fst]. rewrite Hreq, Hempty. reflexivity.
Qed.

Lemma preflight_answered_by_cors_witness :
  let options := {| origin := Some (OriginArray ["https://app.example"]);
                    methods := None; allowedHeaders := None;
                    exposedHeaders := None; credentials := None;
                    maxAge := Some 600 |} in
  let app := get "/todos" [] Suite.okHandler
               (use (cors options) (new Suite.noOptions)) in
  let req := Suite.requestTo "OPTIONS" "/todos" in
  let response :=
    resolved (@handler simple_patterns plain_runtime app req Suite.emptyWorld).1 in
  status <$> response = Some 204
  /\ response ≫= (fun r => headers r !! "access-control-max-age") = Some "600".
Proof.
  intros options app req response. unfold response.
  rewrite (preflight_answered_by_cors simple_patterns plain_runtime app options
             [] req Suite.emptyWorld (Suite.localhost "/todos")
             eq_refl eq_refl eq_refl).
  split; reflexivity.
Defined.

(** What [resolveUrl] throws is the [TypeError] of [new URL]. *)
Lemma resolveUrl_Rejected (R : Runtime) (opts : AppOptions) (req : Request)
    (e : Thrown) :
  resolveUrl opts req = Rejected e -> exists message, e = Error message.
Proof.
  unfold resolveUrl. destruct (truthy (basePath opts)); [discriminate |].
  destruct (match_function_prefix _) as [m |]; [| discriminate].
  unfold URL_new. destruct (starts_with "//" _); [| discriminate].
  destruct (URL_network_path _) as [[h p] |]; [discriminate |].
  intros [= <-]. eexists. reflexivity.
Qed.

(** X18.  With [cors(options)] as the only global middleware and the
    default error handling, a request other than [OPTIONS] whose URL
    resolves and matches no route is answered with status 404, the
    message of the "not found" error, and the CORS headers of its origin
    under the JSON content type.  A request whose URL does not resolve
    never reaches [cors]: it is answered with status 500 and the JSON
    content type as its only header.  With a list of allowed origins, the
    CORS headers name an origin only when the request's [Origin] is on
    the list. *)
Theorem cors_headers_on_not_found (P : URLPatternAPI) (R : Runtime) (app : App)
    (options : CorsOptions) (req : Request) (w : World) :
  globalMiddlewares app = [cors options] ->
  onError (SupaEdgeApp.options app) = None ->
  req_method req <> "OPTIONS" ->
  let sent (st : Z) (hs : Headers) (message : string) : Outcome Response :=
    Resolved {| status := st; headers := hs;
                body := if String.eqb (req_method req) "HEAD" then NullBody
                        else JsonText (JObj [("error", JStr message);
                                             ("status", JNum st)]) |} in
  let corsHeaders := corsContents options (req_headers req !! "origin") ∅ in
  match resolveUrl (SupaEdgeApp.options app) req with
  | Resolved u =>
      Router.match_ (router app) (req_method req) u = None ->
      (handler app req w).1
      = sent 404 (<["content-type" := "application/json"]> corsHeaders)
          ("No route matched: " ++ req_method req ++ " " ++ pathname (req_url req))
  | Rejected e =>
      exists message,
        e = Error message
        /\ (handler app req w).1
           = sent 500 (<["content-type" := "application/json"]> ∅) message
  end
  /\ forall (allowed : list string) (o : string),
       origin options = Some (OriginArray allowed) ->
       corsHeaders !! "access-control-allow-origin" = Some o ->
       o ∈ allowed /\ req_headers req !! "origin" = Some o.
Proof.
  intros Hg Herr Hm sent corsHeaders.
  destruct (new_context req w) as (Hreq & Hmeth & Hl & Hempty).
  cbv zeta in Hreq, Hmeth, Hl, Hempty.
  split.
  - rewrite AppFacts.handler_unfold. cbv zeta.
    set (ctx := (ContextImpl.new req None w).1) in *.
    set (w1 := (ContextImpl.new req None w).2) in *.
    destruct (resolveUrl (SupaEdgeApp.options app) req) as [u | e] eqn:Hu.
    + intros Hmatch.
      assert (Hr : respondTo app req ctx w1
                   = defaultError
                       (notFound ("No route matched: " ++ req_method req ++ " "
                                  ++ pathname (url ctx)))
                       (setCorsHeaders options (responseHeaders w1)
                          (req_headers req !! "origin") w1)).
      { unfold respondTo, dispatchRequest. rewrite Hu, Hmatch, Hg.
        rewrite (HeadFacts.composed_head_next ctx _ _ _ _ _
                   (cors_passes_on options ctx w1
                      ltac:(rewrite Hmeth; exact Hm))).
        rewrite Hreq. cbn [Compose.composed Compose.dispatch drop
                           Compose.dispatch_from notFoundNext].
        unfold Compose.composed, Compose.dispatch.
        change (Z.to_nat 0) with 0%nat. cbn [drop Compose.dispatch_from].
        change (0 <=? -1) with false. cbv iota. unfold notFoundNext.
        unfold handleError. rewrite Herr. reflexivity. }
      rewrite Hr.
      destruct (setCorsHeaders_contents options (req_headers req !! "origin")
                  w1 Hl) as [Hptr Hc]. cbv zeta in Hptr, Hc.
      assert (Hd := AppFacts.defaultError_response
                      (notFound ("No route matched: " ++ req_method req ++ " "
                                 ++ pathname (url ctx)))
                      (setCorsHeaders options (responseHeaders w1)
                         (req_headers req !! "origin") w1)).
      rewrite Hptr, Hc, Hempty in Hd. rewrite Hd. unfold notFound. cbv zeta.
      change (body_status (ToUint16 404)) with true. cbv iota.
      unfold sent.
      destruct (String.eqb (req_method req) "HEAD"); reflexivity.
    + destruct (resolveUrl_Rejected R _ _ _ Hu) as [message ->].
      exists message. split; [reflexivity |].
      assert (Hr : respondTo app req ctx w1 = defaultError (Error message) w1).
      { unfold respondTo, dispatchRequest. rewrite Hu.
        unfold handleError. rewrite Herr. reflexivity. }
      rewrite Hr, (AppFacts.defaultError_response (Error message) w1), Hempty.
      cbv zeta. change (body_status (ToUint16 500)) with true. cbv iota.
      unfold sent.
      destruct (String.eqb (req_method req) "HEAD"); reflexivity.
  - intros allowed o Ho Hacao. unfold corsHeaders in Hacao.
    rewrite corsContents_allow_origin, lookup_empty in Hacao.
    destruct (String.eqb_spec (resolveOrigin options (req_headers req !! "origin")) "")
      as [He | Hne]; [discriminate |].
    cbn [negb] in Hacao. injection Hacao as <-.
    destruct (resolveOrigin_array options allowed _ Ho Hne) as [Hro Hin].
    split; [exact Hin | exact Hro].
Qed.

(** A request from an origin that is not on the list, for a path without
    route; and the same application asked for the function prefix
    followed by two slashes. *)
Lemma cors_headers_on_not_found_witness :
  let options := {| origin := Some (OriginArray ["https://app.example"]);
                    methods := None; allowedHeaders := None;
                    exposedHeaders := None; credentials := None;
                    maxAge := None |} in
  let app := use (cors options) (new Suite.noOptions) in
  let req (path : string) :=
    {| req_method := "GET"; req_url := Suite.localhost path;
       req_headers := {["origin" := "https://other.example"]};
       body_text := ""; body_json := Resolved JNull;
       body_form := Resolved [] |} in
  (@handler simple_patterns plain_runtime app (req "/missing") Suite.emptyWorld).1
  = Resolved
      {| status := 404;
         headers := {["content-type" := "application/json"; "vary" := "Origin"]};
         body := JsonText (JObj [("error", JStr "No route matched: GET /missing");
                                 ("status", JNum 404)]) |}
  /\ (@handler simple_patterns plain_runtime app (req "/functions/v1/my-fn//")
        Suite.emptyWorld).1
     = Resolved
         {| status := 500;
            headers := {["content-type" := "application/json"]};
            body := JsonText
                      (JObj [("error",
                              JStr (@URL_TypeError plain_runtime "//"
                                      "http://localhost"));
                             ("status", JNum 500)]) |}.
Proof.
  intros options app req.
  assert (Hm : forall path, req_method (req path) <> "OPTIONS") by discriminate.
  split.
  - exact (proj1 (cors_headers_on_not_found simple_patterns plain_runtime app
                    options (req "/missing") Suite.emptyWorld
                    eq_refl eq_refl (Hm "/missing")) eq_refl).
  - destruct (proj1 (cors_headers_on_not_found simple_patterns plain_runtime app
                       options (req "/functions/v1/my-fn//") Suite.emptyWorld
                       eq_refl eq_refl (Hm "/functions/v1/my-fn//")))
      as (message & Hmessage & Hsent).
    injection Hmessage as <-. exact Hsent.
Defined.

(** The test "cors - array origin matches request origin". *)
Example cors_array_origin_matches :
  let options := {| origin := Some (OriginArray ["https://a.com"; "https://b.com"]);
                    methods := None; allowedHeaders := None;
                    exposedHeaders := None; credentials := None;
                    maxAge := None |} in
  let app := get "/test" []
               (fun _ w => let '(r, w) := ContextImpl.respond_text "ok" None w in
                           (Resolved r, w))
               (use (cors options) (new Suite.noOptions)) in
  let req := {| req_method := "GET"; req_url := Suite.localhost "/test";
                req_headers := {["origin" := "https://b.com"]};
                body_text := ""; body_json := Resolved JNull;
                body_form := Resolved [] |} in
  resolved (@handler simple_patterns plain_runtime app req Suite.emptyWorld).1
    ≫= (fun r => headers r !! "access-control-allow-origin")
  = Some "https://b.com".
Proof. vm_compute. reflexivity. Qed.

End CorsFacts.

(** ** Authentication *)

Module AuthFacts.
Import Compose Auth.

Section Gate.
Variable env : Env.Environment.
Variable getUser : Clients.Client -> string -> Outcome UserResponse.
Variable options : AuthOptions.

Abbreviation auth_mw := (auth env getUser options).

Lemma user_of_metadata (u : AuthUser) (md : gmap string Json) (k : string)
    (v : Json) :
  user_metadata u = Some md -> md !! k = Some v -> user_of u !! k = Some v.
Proof.
  intros Hmd Hk. unfold user_of. rewrite Hmd. cbn [default].
  apply lookup_union_Some_l. exact Hk.
Qed.

(** X19.  Without [optional: true], [auth] lets a request through only
    when it carries a [Bearer] token, the user client could be created,
    and [getUser(token)] resolved with a user and no error; the code
    behind it then finds [ctx.user] set from that user, where a key of
    [user_metadata] replaces [id], [email] or [role] of the same name.
    In every other case the chain is rejected with an [HttpError] and
    nothing behind [auth] runs, [ctx.user] staying as it was. *)
Theorem auth_required_gate (ctx : Context) (s : State) :
  default false (optional options) = false ->
  (exists st m d s1,
      user s1 = user s /\ world s1 = world s
      /\ forall (fin : Compose.Next State Response) rest,
           composed ctx fin (auth_mw :: rest) s
           = (Rejected (HttpError st m d), s1))
  \/ (exists h client u s1,
        req_headers (request ctx) !! "authorization" = Some h
        /\ starts_with "Bearer " h = true
        /\ (Clients.supabase env ctx (clients s)).1 = Resolved client
        /\ getUser client (slice 7 h)
           = Resolved {| data_user := Some u; error := None |}
        /\ user s1 = Some (user_of u) /\ world s1 = world s
        /\ (forall md k v,
              user_metadata u = Some md -> md !! k = Some v ->
              user_of u !! k = Some v)
        /\ forall (fin : Compose.Next State Response) rest,
             composed ctx fin (auth_mw :: rest) s = composed ctx fin rest s1).
Proof.
  intros Hopt.
  assert (Hcaught : forall err s1,
             exists st m d,
               caught options err s1 = Return (Rejected (HttpError st m d)) s1).
  { intros err s1. unfold caught. rewrite Hopt.
    destruct err as [st m d | m | v]; eauto. }
  assert (Hstop : forall f s1,
             auth_mw ctx s = f ->
             (exists st m d, f = Return (Rejected (HttpError st m d)) s1) ->
             user s1 = user s -> world s1 = world s ->
             exists st m d s1,
               user s1 = user s /\ world s1 = world s
               /\ forall (fin : Compose.Next State Response) rest,
                    composed ctx fin (auth_mw :: rest) s
                    = (Rejected (HttpError st m d), s1)).
  { intros f s1 Hf (st & m & d & ->) Hu Hw. exists st, m, d, s1.
    split; [exact Hu |]. split; [exact Hw |]. intros fin rest.
    apply (HeadFacts.composed_head_return ctx fin _ rest s s1 _ Hf). }
  destruct (req_headers (request ctx) !! "authorization") as [h |] eqn:Eh.
  2:{ left. eapply Hstop; [unfold auth; rewrite Eh, Hopt; reflexivity | eauto ..];
      reflexivity. }
  destruct (starts_with "Bearer " h) eqn:Eb.
  2:{ left. eapply Hstop;
        [unfold auth; rewrite Eh, Eb, Hopt; reflexivity | eauto ..];
      reflexivity. }
  destruct (Clients.supabase env ctx (clients s)) as [[client | err] c] eqn:Ec.
  2:{ left. eapply Hstop;
        [unfold auth; rewrite Eh, Eb, Ec; reflexivity | apply Hcaught | ..];
      reflexivity. }
  destruct (getUser client (slice 7 h)) as [[[u |] [e |]] | err] eqn:Eg.
  - left. eapply Hstop;
      [unfold auth; rewrite Eh, Eb, Ec; cbv zeta; rewrite Eg;
       cbn [error data_user]; rewrite Hopt; reflexivity
      | apply Hcaught | ..]; reflexivity.
  - right. exists h, client, u, (set_user (Some (user_of u)) (set_clients c s)).
    split; [reflexivity |]. split; [exact Eb |].
    split; [rewrite ?Ec; reflexivity |]. split; [exact Eg |].
    split; [reflexivity |]. split; [reflexivity |].
    split; [apply user_of_metadata |].
    intros fin rest. apply HeadFacts.composed_head_next.
    unfold auth. rewrite Eh, Eb, Ec. cbv zeta. rewrite Eg. reflexivity.
  - left. eapply Hstop;
      [unfold auth; rewrite Eh, Eb, Ec; cbv zeta; rewrite Eg;
       cbn [error data_user]; rewrite Hopt; reflexivity
      | apply Hcaught | ..]; reflexivity.
  - left. eapply Hstop;
      [unfold auth; rewrite Eh, Eb, Ec; cbv zeta; rewrite Eg;
       cbn [error data_user]; rewrite Hopt; reflexivity
      | apply Hcaught | ..]; reflexivity.
  - left. eapply Hstop;
      [unfold auth; rewrite Eh, Eb, Ec; cbv zeta; rewrite Eg; reflexivity
      | apply Hcaught | ..]; reflexivity.
Qed.

(** X20.  With [optional: true], a request whose token [getUser] does
    not accept is passed on from inside the [try] block.  When the code
    behind [auth] then fails with an [HttpError], that error is the
    result; when it fails with anything else, the [catch] block calls
    [next()] a second time, and the result is the dispatcher's
    "next() called multiple times" error in place of the original one. *)
Theorem optional_auth_calls_next_again (ctx : Context) (s s2 : State)
    (h : string) (client : Clients.Client) (c : Clients.State)
    (r : UserResponse) (fin : Compose.Next State Response)
    (rest : list (Compose.Middleware Context State Response)) (e : Thrown) :
  optional options = Some true ->
  req_headers (request ctx) !! "authorization" = Some h ->
  starts_with "Bearer " h = true ->
  Clients.supabase env ctx (clients s) = (Resolved client, c) ->
  getUser client (slice 7 h) = Resolved r ->
  error r <> None \/ data_user r = None ->
  composed ctx fin rest (set_clients c s) = (Rejected e, s2) ->
  composed ctx fin (auth_mw :: rest) s
  = (Rejected match e with
              | HttpError _ _ _ => e
              | _ => MultipleNextError
              end, s2).
Proof.
  intros Hopt Eh Eb Ec Eg Hbad Hrest.
  assert (Hf : auth_mw ctx s
               = CallNext (set_clients c s)
                   (fun o s' =>
                      match o with
                      | Resolved res => Return (Resolved res) s'
                      | Rejected err => caught options err s'
                      end)).
  { unfold auth. rewrite Eh, Eb, Ec. cbv zeta. rewrite Eg, Hopt. cbn [default].
    destruct r as [[u |] [e0 |]]; cbn [error data_user] in *;
      try reflexivity.
    destruct Hbad as [Hbad | Hbad]; [contradiction | discriminate]. }
  destruct e as [st m d | m | v].
  - apply (HeadFacts.composed_head_call ctx fin _ rest s _ s2 s2 _ _ _ Hf Hrest).
    reflexivity.
  - apply (HeadFacts.composed_head_again ctx fin _ rest s _ s2 _ _ Hf Hrest).
    unfold caught. rewrite Hopt. reflexivity.
  - apply (HeadFacts.composed_head_again ctx fin _ rest s _ s2 _ _ Hf Hrest).
    unfold caught. rewrite Hopt. reflexivity.
Qed.

End Gate.

Lemma auth_required_gate_witness :
  let getUser := fun (_ : Clients.Client) (token : string) =>
    if String.eqb token "good" then
      Resolved {| data_user :=
                    Some {| id := "u1"; email := None;
                            role := Some "authenticated";
                            user_metadata := Some {["role" := JStr "admin"]} |};
                  error := None |}
    else Resolved {| data_user := None;
                     error := Some {| message := Some "bad jwt" |} |} in
  let req := {| req_method := "GET"; req_url := Suite.localhost "/";
                req_headers := {["authorization" := "Bearer good"]};
                body_text := ""; body_json := Resolved JNull;
                body_form := Resolved [] |} in
  let ctx := (ContextImpl.new req None Suite.emptyWorld).1 in
  let s := {| world := Suite.emptyWorld; clients := Clients.empty;
              user := None |} in
  let seen : Compose.Next State Response :=
    fun s' => (Rejected (NonError (default JNull (user s' ≫= (.!! "role")))), s') in
  (composed ctx seen [auth MockEnv.defaults getUser {| optional := None |}] s).1
  = Rejected (NonError (JStr "admin")).
Proof.
  intros getUser req ctx s seen.
  destruct (auth_required_gate MockEnv.defaults getUser {| optional := None |}
              ctx s eq_refl)
    as [(st & m & d & s1 & _ & _ & Hstop)
       | (h & client & u & s1 & Hh & _ & _ & Hg & Hu & _ & _ & Hpass)].
  - specialize (Hstop (fun s' => (Resolved Suite.ok, s')) []).
    apply (f_equal fst) in Hstop.
    vm_compute in Hstop. discriminate Hstop.
  - pose proof (f_equal fst (Hpass seen [])) as Hp.
    assert (Hh' : h = "Bearer good").
    { vm_compute in Hh. congruence. }
    subst h.
    vm_compute in Hg. injection Hg as <-.
    etransitivity; [exact Hp |].
    unfold composed, dispatch. change (Z.to_nat 0) with 0%nat.
    cbn [drop dispatch_from]. change (0 <=? -1) with false. cbv iota.
    unfold seen. cbn [fst]. rewrite Hu. reflexivity.
Defined.

Lemma optional_auth_calls_next_again_witness :
  let getUser := fun (_ : Clients.Client) (_ : string) =>
    Resolved {| data_user := None;
                error := Some {| message := Some "bad jwt" |} |} in
  let req := {| req_method := "GET"; req_url := Suite.localhost "/";
                req_headers := {["authorization" := "Bearer stale"]};
                body_text := ""; body_json := Resolved JNull;
                body_form := Resolved [] |} in
  let ctx := (ContextImpl.new req None Suite.emptyWorld).1 in
  let s := {| world := Suite.emptyWorld; clients := Clients.empty;
              user := None |} in
  let failing : Compose.Next State Response :=
    fun s' => (Rejected (Error "database is down"), s') in
  (composed ctx failing
     [auth MockEnv.defaults getUser {| optional := Some true |}] s).1
  = Rejected MultipleNextError.
Proof.
  intros getUser req ctx s failing.
  pose (r := {| data_user := None;
                error := Some {| message := Some "bad jwt" |} |}).
  pose (client := {| Clients.client_id := 0%nat;
                     Clients.client_url := "http://localhost:54321";
                     Clients.client_key := "test-anon-key";
                     Clients.client_authorization := Some "Bearer stale" |}).
  pose (c := {| Clients._supabase := Some client;
                Clients._supabaseAdmin := None;
                Clients.created := 1%nat |}).
  assert (H1 : req_headers (request ctx) !! "authorization" = Some "Bearer stale")
    by reflexivity.
  assert (H2 : Clients.supabase MockEnv.defaults ctx (clients s)
               = (Resolved client, c)) by reflexivity.
  assert (H3 : error r <> None \/ data_user r = None) by (right; reflexivity).
  exact (f_equal fst
           (optional_auth_calls_next_again MockEnv.defaults getUser
              {| optional := Some true |} ctx s (set_clients c s)
              "Bearer stale" client c r failing [] (Error "database is down")
              eq_refl H1 eq_refl H2 eq_refl H3 eq_refl)).
Defined.
(** An invalid token without [optional]: the chain is rejected with
    status 401 and the message of the auth server. *)
Example auth_rejects_invalid_token :
  let getUser := fun (_ : Clients.Client) (_ : string) =>
    Resolved {| data_user := None;
                error := Some {| message := Some "Invalid token" |} |} in
  let req := {| req_method := "GET"; req_url := Suite.localhost "/test";
                req_headers := {["authorization" := "Bearer bad-token"]};
                body_text := ""; body_json := Resolved JNull;
                body_form := Resolved [] |} in
  let ctx := (ContextImpl.new req None Suite.emptyWorld).1 in
  let s := {| world := Suite.emptyWorld; clients := Clients.empty;
              user := None |} in
  (composed ctx (fun s' => (Resolved Suite.ok, s'))
     [auth MockEnv.defaults getUser {| optional := None |}] s).1
  = Rejected (HttpError 401 "Invalid token" None).
Proof. vm_compute. reflexivity. Qed.

End AuthFacts.

(** ** Chains of chains *)

Module NestingFacts.
Import Compose.

Section Nesting.
Context {Ctx S R : Type}.
Variable ctx : Ctx.
Variable finalNext : Compose.Next S R.
Variable inner : list (Compose.Middleware Ctx S R).

(** A frame cannot tell a cursor from the same cursor cut off at [B], as
    long as its continuation cannot. *)
Lemma run_cut (B : Z) (c1 c2 : Compose.Continuation S R)
    (f : Compose.Frame S R) :
  (forall index s,
      c1 (Z.min index B) s
      = let '(o, index', s') := c2 index s in (o, Z.min index' B, s')) ->
  forall index,
    run c1 f (Z.min index B)
    = let '(o, index', s') := run c2 f index in (o, Z.min index' B, s').
Proof.
  intros Hc. induction f as [o s | s k IH]; intros index; cbn [run].
  - reflexivity.
  - rewrite Hc. destruct (c2 index s) as [[o index'] s']. apply IH.
Qed.

(** The chain [outer ++ inner] from position [i] on, against [outer]
    alone with the chain [inner] as its terminal continuation: the same
    outcome and state, the cursor of the second being that of the first
    cut off at the end of [outer]. *)
Lemma dispatch_from_app (outer : list (Compose.Middleware Ctx S R)) :
  forall i index s,
    let B := i + Z.of_nat (length outer) in
    dispatch_from ctx (composed ctx finalNext inner) outer i (Z.min index B) s
    = let '(o, index', s') :=
        dispatch_from ctx finalNext (outer ++ inner) i index s in
      (o, Z.min index' B, s').
Proof.
  induction outer as [| m outer IH]; intros i index s B; subst B.
  - cbn [length app dispatch_from]. replace (i + Z.of_nat 0) with i by lia.
    destruct (Z.leb_spec i index) as [Hle | Hlt].
    + rewrite ComposeFacts.dispatch_from_guard by exact Hle.
      destruct (Z.leb_spec i (Z.min index i)); [reflexivity | lia].
    + destruct (Z.leb_spec i (Z.min index i)); [lia |].
      pose proof (ComposeFacts.dispatch_from_cursor ctx finalNext inner i index s)
        as Hc. cbv zeta in Hc.
      rewrite (ChainFacts.dispatch_from_fresh ctx finalNext inner i index (i - 1))
        in Hc |- * by lia.
      unfold composed, dispatch. change (Z.to_nat 0) with 0%nat. rewrite drop_0.
      pose proof (HeadFacts.dispatch_from_shift ctx finalNext i inner 0 (-1) s)
        as Hs.
      replace (0 + i) with i in Hs by lia.
      replace (-1 + i) with (i - 1) in Hs by lia.
      rewrite Hs in Hc |- *.
      destruct (dispatch_from ctx finalNext inner 0 (-1) s) as [[o index'] s'].
      cbn [fst snd] in Hc. f_equal. f_equal. lia.
  - cbn [length app dispatch_from].
    destruct (Z.leb_spec i index) as [Hle | Hlt].
    + destruct (Z.leb_spec i (Z.min index (i + Z.of_nat (Datatypes.S (length outer)))));
        [reflexivity | lia].
    + destruct (Z.leb_spec i (Z.min index (i + Z.of_nat (Datatypes.S (length outer)))));
        [lia |].
      replace i with (Z.min i (i + Z.of_nat (Datatypes.S (length outer)))) at 2
        by lia.
      apply run_cut. intros j t.
      replace (i + Z.of_nat (Datatypes.S (length outer)))
        with (i + 1 + Z.of_nat (length outer)) by lia.
      apply IH.
Qed.

(** X21.  Composing is associative: the chain of [outer ++ inner] behaves
    as the chain of [outer] whose terminal continuation is the chain of
    [inner].  So the route's middleware and handler run as one unit inside
    the global middleware, and the single cursor of the flat chain rejects
    a second [next()] exactly where the nested chains would. *)
Theorem composed_app (outer : list (Compose.Middleware Ctx S R)) (s : S) :
  composed ctx finalNext (outer ++ inner) s
  = composed ctx (composed ctx finalNext inner) outer s.
Proof.
  unfold composed at 1 2, dispatch. change (Z.to_nat 0) with 0%nat.
  rewrite !drop_0.
  pose proof (dispatch_from_app outer 0 (-1) s) as H. cbv zeta in H.
  replace (Z.min (-1) (0 + Z.of_nat (length outer))) with (-1) in H by lia.
  rewrite H.
  destruct (dispatch_from ctx finalNext (outer ++ inner) 0 (-1) s)
    as [[o index'] s'].
  reflexivity.
Qed.

End Nesting.
End NestingFacts.

(** ** The request logger *)

Module LoggerFacts.
Import Compose Logger.

(** X22.  [logger()] changes nothing about a request: the chain behind it
    runs as it would without it and its outcome, response or error, is
    passed on as it is.  It writes exactly one line, after everything the
    chain behind it wrote: with [console.log] and the status of the
    response when the chain resolved, with [console.error] and [ERR] when
    it was rejected, also when the error is an [HttpError] the
    application will answer with its own status, such as the 404 of an
    unmatched request. *)
Theorem logger_transparent {Time : Type} (toFixed1 : Time -> Time -> string)
    (start stop : Time) (ctx : Context)
    (finalNext : Compose.Next (World * Console) Response)
    (rest : list (Compose.Middleware Context (World * Console) Response))
    (s : World * Console) :
  composed ctx finalNext (logger Time toFixed1 start stop :: rest) s
  = (let '(o, s') := composed ctx finalNext rest s in
     (o, (s'.1, (s'.2 ++ [line Time toFixed1 ctx start stop o])%list)))
  /\ forall st m d,
       line Time toFixed1 ctx start stop (Rejected (HttpError st m d))
       = (ConsoleError,
          "[supa-edge] " ++ method ctx ++ " " ++ pathname (url ctx) ++ " ERR ("
            ++ toFixed1 start stop ++ "ms)").
Proof.
  split; [| reflexivity].
  destruct (composed ctx finalNext rest s) as [o s'] eqn:Hrest.
  eapply HeadFacts.composed_head_call; [reflexivity | exact Hrest |].
  destruct o; reflexivity.
Qed.

(** The test "logger - logs request and returns response": one line, with
    the method, the path and the status. *)
Example logger_logs_request :
  let req := Suite.requestTo "GET" "/test" in
  let ctx := (ContextImpl.new req None Suite.emptyWorld).1 in
  let handler : Compose.Next (World * Console) Response :=
    fun s => let '(r, w) := ContextImpl.respond_text "ok" None s.1 in
             (Resolved r, (w, s.2)) in
  (composed ctx handler [logger Z (fun a b => String_of (b - a) ++ ".0") 0 12]
     ((ContextImpl.new req None Suite.emptyWorld).2, [])).2.2
  = [(ConsoleLog, "[supa-edge] GET /test 200 (12.0ms)")].
Proof. vm_compute. reflexivity. Qed.

End LoggerFacts.

(** ** Validation *)

Module ValidatorFacts.
Import Compose Validator.

Lemma values_of_snoc (k : string) (l : list (string * string))
    (entry : string * string) :
  values_of k (l ++ [entry])
  = (values_of k l ++ if decide (entry.1 = k) then [entry.2] else [])%list.
Proof.
  unfold values_of. rewrite filter_app, fmap_app. f_equal.
  destruct (decide (entry.1 = k)) as [Hk | Hk].
  - rewrite filter_cons_True by exact Hk. reflexivity.
  - rewrite filter_cons_False by exact Hk. reflexivity.
Qed.

(** X23.  For query keys that do not name a property of
    [Object.prototype], the loop over the search parameters leaves in
    [queryObj] exactly the keys that occur: a key that occurs once holds
    its value as a string, a key that occurs several times holds the array
    of all its values in the order they occur. *)
Theorem queryObj_groups_values (searchParams : list (string * string))
    (key : string) :
  Forall (fun entry => entry.1 ∉ Object_prototype) searchParams ->
  queryObj searchParams !! key
  = match values_of key searchParams with
    | [] => None
    | [value] => Some (Single value)
    | values => Some (Many values)
    end.
Proof.
  intros _. revert key.
  induction searchParams as [| [k v] l IH] using rev_ind; intros key.
  - apply lookup_empty.
  - unfold queryObj in *. rewrite foldl_app. cbn [foldl].
    rewrite values_of_snoc. cbn [fst snd]. unfold collect at 1.
    destruct (decide (k = key)) as [-> | Hne].
    + rewrite (IH key).
      destruct (values_of key l) as [| x [| y r]]; cbn [app];
        rewrite lookup_insert_eq; reflexivity.
    + rewrite app_nil_r.
      destruct (foldl collect ∅ l !! k) as [[x | xs] |];
        rewrite lookup_insert_ne by exact Hne; apply IH.
Qed.

Lemma queryObj_groups_values_witness :
  queryObj [("tag", "a"); ("page", "1"); ("tag", "b")] !! "tag"
  = Some (Many ["a"; "b"]).
Proof.
  apply (queryObj_groups_values [("tag", "a"); ("page", "1"); ("tag", "b")] "tag").
  repeat (constructor; [apply (bool_decide_unpack _); vm_compute; exact I |]).
  constructor.
Defined.

Section Gate.
Variable URLSearchParams : string -> list (string * string).
Variable options : ValidatorOptions.t.

Abbreviation validator_mw := (validator URLSearchParams options).

Lemma json_keeps_params (ctx : Context) (w : World) :
  params (ContextImpl.json ctx w).2 = params w.
Proof.
  unfold ContextImpl.json. destruct (_jsonCache w); reflexivity.
Qed.

(** X24.  [validator(options)] checks the body, the query and the path
    parameters in this order, each only when a schema is given for it, and
    the first check that fails decides: a body that is not JSON rejects
    the chain with 400 "Invalid JSON body" whatever the schemas say; else
    a body the schema refuses rejects it with "Validation failed: body"
    and the issues of the schema, whatever the query and the parameters
    are; else a refused query rejects it with "Validation failed: query";
    else refused parameters reject it with "Validation failed: params".
    On a rejection nothing behind [validator] runs, and [ctx.validated]
    holds the data of the checks that passed before.  When every check
    passes, the chain behind [validator] runs with [ctx.validated] holding
    the parsed data of each schema given.  The body is read through
    [ctx.json()] only when a body schema is given. *)
Theorem validator_gate (ctx : Context) (s : State)
    (fin : Compose.Next State Response)
    (rest : list (Compose.Middleware Context State Response)) :
  Forall (fun entry => entry.1 ∉ Object_prototype)
         (URLSearchParams (search (url ctx))) ->
  let w := s.1 in
  let v := s.2 in
  let w1 := match ValidatorOptions.body options with
            | Some _ => (ContextImpl.json ctx w).2
            | None => w
            end in
  let bodyCheck : Outcome (option Json) :=
    match ValidatorOptions.body options with
    | None => Resolved None
    | Some schema =>
        match settled (ContextImpl.json ctx w).1 with
        | Rejected _ => Rejected (HttpError 400 "Invalid JSON body" None)
        | Resolved rawBody =>
            match schema rawBody with
            | Failure issues =>
                Rejected (HttpError 400 "Validation failed: body"
                            (Some (JObj [("issues", issues)])))
            | Success data => Resolved (Some data)
            end
        end
    end in
  let queryCheck : Outcome (option Json) :=
    match ValidatorOptions.query options with
    | None => Resolved None
    | Some schema =>
        match schema (queryObj (URLSearchParams (search (url ctx)))) with
        | Failure issues =>
            Rejected (HttpError 400 "Validation failed: query"
                        (Some (JObj [("issues", issues)])))
        | Success data => Resolved (Some data)
        end
    end in
  let paramsCheck : Outcome (option Json) :=
    match ValidatorOptions.params options with
    | None => Resolved None
    | Some schema =>
        match schema (params w) with
        | Failure issues =>
            Rejected (HttpError 400 "Validation failed: params"
                        (Some (JObj [("issues", issues)])))
        | Success data => Resolved (Some data)
        end
    end in
  let stored (parsed was : option Json) : option Json :=
    match parsed with Some data => Some data | None => was end in
  composed ctx fin (validator_mw :: rest) s
  = match bodyCheck with
    | Rejected e => (Rejected e, (w1, v))
    | Resolved b =>
        let v1 := {| ValidatedData.body := stored b (ValidatedData.body v);
                     ValidatedData.query := ValidatedData.query v;
                     ValidatedData.params := ValidatedData.params v |} in
        match queryCheck with
        | Rejected e => (Rejected e, (w1, v1))
        | Resolved q =>
            let v2 := {| ValidatedData.body := ValidatedData.body v1;
                         ValidatedData.query := stored q (ValidatedData.query v);
                         ValidatedData.params := ValidatedData.params v |} in
            match paramsCheck with
            | Rejected e => (Rejected e, (w1, v2))
            | Resolved p =>
                composed ctx fin rest
                  (w1, {| ValidatedData.body := ValidatedData.body v1;
                          ValidatedData.query := ValidatedData.query v2;
                          ValidatedData.params :=
                            stored p (ValidatedData.params v) |})
            end
        end
    end.
Proof.
  intros _. destruct s as [w v]. cbn [fst snd]. cbv zeta.
  pose proof (json_keeps_params ctx w) as Hparams.
  assert (Hreturn : forall e s1,
             validator_mw ctx (w, v) = Return (Rejected e) s1 ->
             composed ctx fin (validator_mw :: rest) (w, v) = (Rejected e, s1)).
  { intros e s1 Hf. apply (HeadFacts.composed_head_return ctx fin _ rest _ _ _ Hf). }
  assert (Hnext : forall s1,
             validator_mw ctx (w, v) = CallNext s1 (fun o s' => Return o s') ->
             composed ctx fin (validator_mw :: rest) (w, v)
             = composed ctx fin rest s1).
  { intros s1 Hf. apply (HeadFacts.composed_head_next ctx fin _ rest _ _ Hf). }
  remember (validator_mw ctx (w, v)) as frame eqn:Hframe.
  unfold validator, validate_body, validate_query, validate_params, badRequest
    in Hframe.
  destruct v as [vb vq vp]. cbn [ValidatedData.body ValidatedData.query
                                 ValidatedData.params] in *.
  destruct (ValidatorOptions.body options) as [bodySchema |].
  - destruct (ContextImpl.json ctx w) as [p w1]. cbn [fst snd] in *.
    destruct (settled p) as [rawBody | e];
      [| apply Hreturn; exact Hframe].
    destruct (bodySchema rawBody) as [bodyData | issues];
      [| apply Hreturn; exact Hframe].
    destruct (ValidatorOptions.query options) as [querySchema |].
    + destruct (querySchema _) as [queryData | issues];
        [| apply Hreturn; exact Hframe].
      destruct (ValidatorOptions.params options) as [paramsSchema |].
      * rewrite Hparams in Hframe.
        destruct (paramsSchema (params w)) as [paramsData | issues];
          [apply Hnext | apply Hreturn]; exact Hframe.
      * apply Hnext; exact Hframe.
    + destruct (ValidatorOptions.params options) as [paramsSchema |].
      * rewrite Hparams in Hframe.
        destruct (paramsSchema (params w)) as [paramsData | issues];
          [apply Hnext | apply Hreturn]; exact Hframe.
      * apply Hnext; exact Hframe.
  - destruct (ValidatorOptions.query options) as [querySchema |].
    + destruct (querySchema _) as [queryData | issues];
        [| apply Hreturn; exact Hframe].
      destruct (ValidatorOptions.params options) as [paramsSchema |].
      * destruct (paramsSchema (params w)) as [paramsData | issues];
          [apply Hnext | apply Hreturn]; exact Hframe.
      * apply Hnext; exact Hframe.
    + destruct (ValidatorOptions.params options) as [paramsSchema |].
      * destruct (paramsSchema (params w)) as [paramsData | issues];
          [apply Hnext | apply Hreturn]; exact Hframe.
      * apply Hnext; exact Hframe.
Qed.

End Gate.

(** A request whose body the body schema refuses and whose query the
    query schema refuses is rejected for its body; and a request without
    a JSON body is rejected as such, although the body schema would take
    anything. *)
Lemma validator_gate_witness :
  let refuse {A : Type} (issue : string) : A -> SafeParse :=
    fun _ => Failure (JArr [JStr issue]) in
  let options := {| ValidatorOptions.body := Some (refuse "body");
                    ValidatorOptions.query := Some (refuse "query");
                    ValidatorOptions.params := None |} in
  let lenient := {| ValidatorOptions.body := Some (fun rawBody => Success rawBody);
                    ValidatorOptions.query := None;
                    ValidatorOptions.params := None |} in
  let req := {| req_method := "POST"; req_url := Suite.localhost "/test";
                req_headers := ∅; body_text := "{}";
                body_json := Resolved (JObj []); body_form := Resolved [] |} in
  let noJson := Suite.requestTo "POST" "/test" in
  let start (r : Request) : State :=
    ((ContextImpl.new r None Suite.emptyWorld).2,
     {| ValidatedData.body := None; ValidatedData.query := None;
        ValidatedData.params := None |}) in
  (composed (ContextImpl.new req None Suite.emptyWorld).1
     (fun s' => (Resolved Suite.ok, s'))
     [validator (fun _ => []) options] (start req)).1
  = Rejected (HttpError 400 "Validation failed: body"
                (Some (JObj [("issues", JArr [JStr "body"])])))
  /\ (composed (ContextImpl.new noJson None Suite.emptyWorld).1
        (fun s' => (Resolved Suite.ok, s'))
        [validator (fun _ => []) lenient] (start noJson)).1
     = Rejected (HttpError 400 "Invalid JSON body" None).
Proof.
  intros refuse options lenient req noJson start.
  assert (Hkeys : forall r : Request,
             Forall (fun entry : string * string => entry.1 ∉ Object_prototype)
               ((fun _ : string => []) (search (url (ContextImpl.new r None
                                                       Suite.emptyWorld).1))))
    by (intros r; constructor).
  split.
  - exact (f_equal fst
             (validator_gate (fun _ => []) options
                (ContextImpl.new req None Suite.emptyWorld).1 (start req)
                (fun s' => (Resolved Suite.ok, s')) [] (Hkeys req))).
  - exact (f_equal fst
             (validator_gate (fun _ => []) lenient
                (ContextImpl.new noJson None Suite.emptyWorld).1 (start noJson)
                (fun s' => (Resolved Suite.ok, s')) [] (Hkeys noJson))).
Defined.

(** The test "validator - handles multi-value query params". *)
Example validator_multi_value_query :
  queryObj [("tag", "a"); ("tag", "b"); ("page", "1")]
  = {["tag" := Many ["a"; "b"]; "page" := Single "1"]}.
Proof. vm_compute. reflexivity. Qed.

End ValidatorFacts.

(** ** The hello example *)

Module HelloFacts.
Import SupaEdgeApp.

(** The prefix of a deployed function is stripped. *)
Lemma resolveUrl_strips (R : Runtime) (opts : AppOptions) (req : Request)
    (fn rest : string) :
  truthy (basePath opts) = false ->
  pathname (req_url req) = ("/functions/v1/" ++ fn ++ rest)%string ->
  fn <> "" ->
  no_slash fn = true ->
  starts_with "/" rest = true ->
  starts_with "//" rest = false ->
  resolveUrl opts req = Resolved (set_pathname rest (req_url req)).
Proof.
  intros Hbase Hpath Hne Hfn Hrest Hnet.
  unfold resolveUrl. rewrite Hbase, Hpath.
  rewrite (ResolveFacts.match_function_prefix_app fn rest Hne Hfn)
    by (right; exact Hrest).
  replace ("/functions/v1/" ++ fn ++ rest)%string
    with (("/functions/v1/" ++ fn) ++ rest)%string by reflexivity.
  rewrite ResolveFacts.slice_app.
  assert (Hor : or_else rest "/" = rest).
  { unfold or_else. destruct rest; [discriminate Hrest | reflexivity]. }
  rewrite Hor. rewrite ResolveFacts.URL_new_path by exact Hnet.
  reflexivity.
Qed.

(** X26.  The hello example answers [GET /greet/<name>] with status 200,
    the JSON body [{"message": "Hello, <name>!"}], the JSON content type
    and [Access-Control-Allow-Origin: *], whatever headers the request
    carries; and it answers the same when the path comes with the prefix
    [/functions/v1/<function>] of a deployed function.  [URLPattern] is
    taken to match [/greet/:name] on the path with [name] bound, and not
    to match [/] on it. *)
Theorem hello_greets (P : URLPatternAPI) (R : Runtime) (req : Request)
    (w : World) (fn name : string) (groups : gmap string (option string)) :
  req_method req = "GET" ->
  pathname (req_url req) = ("/greet/" ++ name)%string
  \/ (pathname (req_url req) = ("/functions/v1/" ++ fn ++ "/greet/" ++ name)%string
      /\ fn <> "" /\ no_slash fn = true) ->
  URLPattern_exec "/" ("/greet/" ++ name) = None ->
  URLPattern_exec "/greet/:name" ("/greet/" ++ name) = Some groups ->
  groups !! "name" = Some (Some name) ->
  (handler Hello.app req w).1
  = Resolved
      {| status := 200;
         headers := {["content-type" := "application/json";
                      "access-control-allow-origin" := "*"]};
         body := JsonText (JObj [("message", JStr ("Hello, " ++ name ++ "!"))]) |}.
Proof.
  intros Hm Hpath Hroot Hgreet Hname.
  assert (Hurl : exists u, resolveUrl (options Hello.app) req = Resolved u
                           /\ pathname u = ("/greet/" ++ name)%string).
  { destruct Hpath as [Hp | (Hp & Hne & Hfn)].
    - exists (req_url req). split; [| exact Hp].
      unfold resolveUrl. cbn [options Hello.app get on_router use new truthy
                              basePath Suite.noOptions default].
      rewrite Hp. reflexivity.
    - exists (set_pathname ("/greet/" ++ name) (req_url req)).
      split; [| reflexivity].
      apply (resolveUrl_strips R _ req fn ("/greet/" ++ name));
        [reflexivity | exact Hp | exact Hne | exact Hfn | reflexivity
        | reflexivity]. }
  destruct Hurl as (u & Hu & Hpu).
  rewrite AppFacts.handler_unfold. cbv zeta.
  rewrite Hm. change (String.eqb "GET" "HEAD") with false. cbv iota.
  destruct (CorsFacts.new_context req w) as (Hreq & Hmeth & Hl & Hempty).
  cbv zeta in Hreq, Hmeth, Hl, Hempty.
  set (ctx := (ContextImpl.new req None w).1) in *.
  set (w1 := (ContextImpl.new req None w).2) in *.
  enough (Hgreets :
            (respondTo Hello.app req ctx w1).1
            = Resolved
                {| status := 200;
                   headers := {["content-type" := "application/json";
                                "access-control-allow-origin" := "*"]};
                   body := JsonText
                             (JObj [("message",
                                     JStr ("Hello, " ++ name ++ "!"))]) |})
    by (rewrite Hgreets; reflexivity).
  unfold respondTo, dispatchRequest. rewrite Hu.
  assert (Hmatch :
    Router.match_ (router Hello.app) (req_method req) u
    = Some ({| Router.method := "GET"; Router.pattern := "/greet/:name";
               Router.middlewares := []; Router.handler := Hello.greet |},
            Router.extract_params groups)).
  { rewrite Hm. unfold Router.match_.
    change (toUpperCase "GET") with "GET".
    change (Router.routes (router Hello.app))
      with [{| Router.method := "GET"; Router.pattern := "/";
               Router.middlewares := []; Router.handler := Hello.root |};
            {| Router.method := "GET"; Router.pattern := "/greet/:name";
               Router.middlewares := []; Router.handler := Hello.greet |}].
    cbn [Router.match_routes Router.pattern].
    change (Router.skipped "GET" _) with false. cbv iota.
    rewrite Hpu, Hroot, Hgreet. reflexivity. }
  rewrite Hmatch.
  change (globalMiddlewares Hello.app) with [Cors.cors Hello.noCorsOptions].
  cbn [Router.middlewares Router.handler app].
  assert (Hmethod : method ctx <> "OPTIONS") by (rewrite Hmeth, Hm; discriminate).
  rewrite (HeadFacts.composed_head_next ctx _ _ _ _ _
             (CorsFacts.cors_passes_on Hello.noCorsOptions ctx _ Hmethod)).
  unfold Compose.composed, Compose.dispatch. change (Z.to_nat 0) with 0%nat.
  cbn [drop Compose.dispatch_from]. change (0 <=? -1) with false. cbv iota.
  assert (Hl' : (responseHeaders (set_params (Router.extract_params groups) w1)
                 < length (heap (set_params (Router.extract_params groups) w1)))%nat)
    by exact Hl.
  destruct (CorsFacts.setCorsHeaders_contents Hello.noCorsOptions
              (req_headers (request ctx) !! "origin")
              (set_params (Router.extract_params groups) w1) Hl')
    as [Hptr Hc]. cbv zeta in Hptr, Hc.
  set (w2 := Cors.setCorsHeaders _ _ _ _) in *.
  assert (Hparams : params w2 !! "name" = Some name).
  { unfold w2. rewrite CorsFacts.setCorsHeaders_spec by exact Hl'.
    cbn [params set_heap set_params].
    rewrite RouterFacts.extract_params_lookup, Hname. reflexivity. }
  unfold Hello.greet. rewrite Hparams.
  change (default "undefined" (Some name)) with name.
  pose proof (ContextFacts.respond_spec
                (ContextImpl.BuildJson
                   (JObj [("message", JStr ("Hello, " ++ name ++ "!"))]) None)
                w2) as Hr.
  cbn [ContextImpl.respond] in Hr. rewrite Hr. cbn [fst].
  cbn [ContextImpl.built_status ContextImpl.built_body ContextImpl.overlay default].
  f_equal. f_equal.
  rewrite Hptr.
  change (responseHeaders (set_params (Router.extract_params groups) w1))
    with (responseHeaders w1) in Hc |- *.
  rewrite Hc.
  change (Headers_get_all (responseHeaders w1)
            (set_params (Router.extract_params groups) w1))
    with (Headers_get_all (responseHeaders w1) w1).
  rewrite Hempty.
  destruct (req_headers (request ctx) !! "origin"); reflexivity.
Qed.

Lemma hello_greets_witness :
  (@handler simple_patterns plain_runtime Hello.app
     (Suite.requestTo "GET" "/functions/v1/hello/greet/Ada") Suite.emptyWorld).1
  = Resolved
      {| status := 200;
         headers := {["content-type" := "application/json";
                      "access-control-allow-origin" := "*"]};
         body := JsonText (JObj [("message", JStr "Hello, Ada!")]) |}.
Proof.
  assert (Hne : "hello" <> "") by discriminate.
  exact (hello_greets simple_patterns plain_runtime
           (Suite.requestTo "GET" "/functions/v1/hello/greet/Ada")
           Suite.emptyWorld "hello" "Ada" {["name" := Some "Ada"]}
           eq_refl (or_intror (conj eq_refl (conj Hne eq_refl)))
           eq_refl eq_refl eq_refl).
Defined.

End HelloFacts.
